(** * Domain core of CleanArchitectureExample: Order, Customer, value objects
      and the error taxonomy, embedded from the TypeScript sources.

    Conventions of the embedding.
    - A JavaScript [number] is an IEEE-754 binary64 value: Rocq's primitive
      [float], whose operations are the ones the engine performs.
    - A JavaScript string is a [string]; its characters stand for the code
      units 0..255, on which [trim], [toLowerCase] and the regular-expression
      class [\s] are defined exactly as ECMAScript defines them.
    - Objects that the code shares and mutates (arrays of items, [OrderItem]
      records) live in a heap and are handled through their locations.
    - A method is a function from the state before the call to the outcome
      (a value, or what was thrown) and the state after the call. *)

From Stdlib Require Import ZArith NArith String Ascii List Bool Floats Lia.
From stdpp Require Import base option list gmap.

Set Warnings "-inexact-float".
Open Scope string_scope.
Open Scope list_scope.

(* ===================================================================== *)
(** ** JavaScript primitives used by the domain code *)
(* ===================================================================== *)

(** [number]: Number.isFinite, Number.isInteger, Math.round. *)
Module Number.
Local Open Scope float_scope.

Definition two52 : float := 0x1p52.

(** Math.floor. Doubles of magnitude 2^52 and above (and NaN, the
    infinities) are returned as they are; below, adding and removing
    2^52 rounds to an integer, which is then corrected downwards. *)
Definition Math_floor (x : float) : float :=
  if negb (abs x <? two52) then x
  else
    let r := if x <? 0 then (x - two52) + two52 else (x + two52) - two52 in
    if x <? r then r - 1 else r.

Definition isFinite (x : float) : bool := is_finite x.

Definition isInteger (x : float) : bool :=
  is_finite x && (Math_floor x =? x).

(** Math.round (ECMAScript 21.3.2.28): the integral Number closest to
    [x], the one closer to +Infinity on a tie. *)
Definition Math_round (x : float) : float :=
  if negb (is_finite x) then x
  else if Math_floor x =? x then x
  else if (0 <? x) && (x <? 0.5) then 0
  else if (x <? 0) && (-0.5 <=? x) then neg_zero
  else
    let f := Math_floor x in
    if 0.5 <=? x - f then f + 1 else f.
End Number.

(** Strings: String.prototype.trim, toLowerCase, and regular expressions
    anchored at both ends ([^...$]). *)
Module JsString.

Definition code (c : ascii) : N := N_of_ascii c.

(** WhiteSpace and LineTerminator code points below 256:
    TAB, LF, VT, FF, CR, SP and NBSP. *)
Definition isWhiteSpace (c : ascii) : bool :=
  let n := code c in
  ((9 <=? n) && (n <=? 13) || (n =? 32) || (n =? 160))%N.

Fixpoint trimStart (s : string) : string :=
  match s with
  | EmptyString => EmptyString
  | String c s' => if isWhiteSpace c then trimStart s' else s
  end.

Fixpoint trimEnd (s : string) : string :=
  match s with
  | EmptyString => EmptyString
  | String c s' =>
      match trimEnd s' with
      | EmptyString => if isWhiteSpace c then EmptyString else String c EmptyString
      | t => String c t
      end
  end.

Definition trim (s : string) : string := trimEnd (trimStart s).

(** Upper-case letters below 256: A-Z, and À-Þ without the multiplication
    sign; each has its lower-case form 32 code points further. *)
Definition isUpper (c : ascii) : bool :=
  let n := code c in
  ((65 <=? n) && (n <=? 90) || (192 <=? n) && (n <=? 222) && negb (n =? 215))%N.

Definition lowerChar (c : ascii) : ascii :=
  if isUpper c then ascii_of_N (code c + 32) else c.

Fixpoint toLowerCase (s : string) : string :=
  match s with
  | EmptyString => EmptyString
  | String c s' => String (lowerChar c) (toLowerCase s')
  end.

(** [arr.join(sep)] on an array of strings. *)
Fixpoint join (sep : string) (l : list string) : string :=
  match l with
  | [] => ""
  | [x] => x
  | x :: rest => (x ++ sep ++ join sep rest)%string
  end.

(** [s.split(sep)[1] || ''] for a one-character separator: what lies
    between the first and the second separator, [""] without one. *)
Fixpoint upTo (sep : ascii) (s : string) : string :=
  match s with
  | EmptyString => EmptyString
  | String c s' => if Ascii.eqb c sep then EmptyString else String c (upTo sep s')
  end.

Fixpoint secondField (sep : ascii) (s : string) : string :=
  match s with
  | EmptyString => EmptyString
  | String c s' => if Ascii.eqb c sep then upTo sep s' else secondField sep s'
  end.
End JsString.

(** Regular expressions over character classes, matched by derivatives. *)
Module RegExp.

Inductive t : Type :=
| Void
| Eps
| Class (p : ascii -> bool)
| Seq (r1 r2 : t)
| Alt (r1 r2 : t)
| Star (r : t).

(** [r+] *)
Definition Plus (r : t) : t := Seq r (Star r).

(** [r{n}] *)
Fixpoint Rep (n : nat) (r : t) : t :=
  match n with
  | O => Eps
  | S n' => Seq r (Rep n' r)
  end.

Definition Chr (c : ascii) : t := Class (Ascii.eqb c).

Fixpoint nullable (r : t) : bool :=
  match r with
  | Void => false
  | Eps => true
  | Class _ => false
  | Seq r1 r2 => nullable r1 && nullable r2
  | Alt r1 r2 => nullable r1 || nullable r2
  | Star _ => true
  end.

Fixpoint deriv (c : ascii) (r : t) : t :=
  match r with
  | Void => Void
  | Eps => Void
  | Class p => if p c then Eps else Void
  | Seq r1 r2 =>
      if nullable r1
      then Alt (Seq (deriv c r1) r2) (deriv c r2)
      else Seq (deriv c r1) r2
  | Alt r1 r2 => Alt (deriv c r1) (deriv c r2)
  | Star r1 => Seq (deriv c r1) (Star r1)
  end.

(** [/^r$/.test(s)] *)
Fixpoint test (r : t) (s : string) : bool :=
  match s with
  | EmptyString => nullable r
  | String c s' => test (deriv c r) s'
  end.

(** The words of a regular expression. *)
Inductive lang : t -> string -> Prop :=
| lang_eps : lang Eps ""
| lang_class p c : p c = true -> lang (Class p) (String c "")
| lang_seq r1 r2 s1 s2 :
    lang r1 s1 -> lang r2 s2 -> lang (Seq r1 r2) (s1 ++ s2)%string
| lang_alt_l r1 r2 s : lang r1 s -> lang (Alt r1 r2) s
| lang_alt_r r1 r2 s : lang r2 s -> lang (Alt r1 r2) s
| lang_star_nil r : lang (Star r) ""
| lang_star_cons r s1 s2 :
    lang r s1 -> lang (Star r) s2 -> lang (Star r) (s1 ++ s2)%string.

(** The flag [i] on a class of ASCII characters: a character belongs to
    the class when it or its lower-case form does. *)
Definition ignoreCase (p : ascii -> bool) (c : ascii) : bool :=
  p c || p (JsString.lowerChar c).
End RegExp.

(* ===================================================================== *)
(** ** Error taxonomy (src/domain/errors) *)
(* ===================================================================== *)

(** Values of type [unknown] that the code stores in errors. *)
Inductive JsValue : Type :=
| VUndefined
| VNumber (x : float)
| VString (s : string).

Module ValidationFailure.
Record t : Type := mk { field : string; message : string; value : JsValue }.
End ValidationFailure.

(** The five concrete subclasses of [DomainError], with the arguments of
    their constructors. *)
Inductive DomainError : Type :=
| ValidationError (entityName : string) (failures : list ValidationFailure.t)
| InvalidStateError (entityName currentState attemptedAction : string)
    (allowedStates : option (list string))
| BusinessRuleViolationError (ruleName message : string)
    (context : list (string * JsValue))
| NotFoundError (entityName entityId : string)
| ConflictError (entityName conflictReason : string)
    (context : list (string * JsValue)).

(** What a [throw] statement can raise: an instance of the taxonomy, a plain
    [new Error(message)], or the engine's TypeError on reading a property
    of [undefined]. *)
Inductive Thrown : Type :=
| Domain (e : DomainError)
| Error (message : string)
| TypeError.

Inductive Result (A : Type) : Type :=
| Return (a : A)
| Throw (e : Thrown).
Arguments Return {A} a.
Arguments Throw {A} e.

Definition bindR {A B} (m : Result A) (k : A -> Result B) : Result B :=
  match m with
  | Return a => k a
  | Throw e => Throw e
  end.

Notation "'let!' x ':=' m 'in' k" := (bindR m (fun x => k))
  (at level 10, x name, m at level 100, k at level 200).

Module DomainErrors.

(** [ValidationError.single] *)
Definition single (entityName field message : string) (value : JsValue)
  : DomainError :=
  ValidationError entityName [ValidationFailure.mk field message value].

(** [this.constructor.name] *)
Definition name (e : DomainError) : string :=
  match e with
  | ValidationError _ _ => "ValidationError"
  | InvalidStateError _ _ _ _ => "InvalidStateError"
  | BusinessRuleViolationError _ _ _ => "BusinessRuleViolationError"
  | NotFoundError _ _ => "NotFoundError"
  | ConflictError _ _ _ => "ConflictError"
  end.

(** The message each constructor passes to [super]. *)
Definition message (e : DomainError) : string :=
  match e with
  | ValidationError entityName failures =>
      let failureMessages :=
        JsString.join "; "
          (map (fun f => ValidationFailure.field f ++ ": "
                           ++ ValidationFailure.message f)%string failures) in
      ("Validation failed for " ++ entityName ++ ": " ++ failureMessages)%string
  | InvalidStateError entityName currentState attemptedAction allowedStates =>
      match allowedStates with
      | Some allowed =>
          ("Cannot " ++ attemptedAction ++ " " ++ entityName ++ " in state '"
             ++ currentState ++ "'. Allowed states: "
             ++ JsString.join ", " allowed)%string
      | None =>
          ("Cannot " ++ attemptedAction ++ " " ++ entityName ++ " in state '"
             ++ currentState ++ "'")%string
      end
  | BusinessRuleViolationError ruleName msg _ =>
      ("Business rule '" ++ ruleName ++ "' violated: " ++ msg)%string
  | NotFoundError entityName entityId =>
      (entityName ++ " with id '" ++ entityId ++ "' not found")%string
  | ConflictError entityName conflictReason _ =>
      (entityName ++ " conflict: " ++ conflictReason)%string
  end.

(** Whether a string occurs inside another (used to inspect messages). *)
Fixpoint includes (needle hay : string) : bool :=
  String.prefix needle hay
  || match hay with
     | EmptyString => false
     | String _ hay' => includes needle hay'
     end.
End DomainErrors.

(* ===================================================================== *)
(** ** Value objects (src/domain/value-objects) *)
(* ===================================================================== *)

Module Currency.
Inductive t : Type := USD | EUR | GBP | JPY.

Definition toString (c : t) : string :=
  match c with USD => "USD" | EUR => "EUR" | GBP => "GBP" | JPY => "JPY" end.

(** [===] on two currencies *)
Definition eqb (a b : t) : bool :=
  match a, b with
  | USD, USD | EUR, EUR | GBP, GBP | JPY, JPY => true
  | _, _ => false
  end.

Definition VALID_CURRENCIES : list t := [USD; EUR; GBP; JPY].

Definition isCurrency (value : string) : bool :=
  existsb (fun c => String.eqb (toString c) value) VALID_CURRENCIES.

Definition assertCurrency (value : string) : Result unit :=
  if negb (isCurrency value)
  then Throw (Error ("Invalid currency: " ++ value ++ ". Valid currencies are: "
                       ++ JsString.join ", " (map toString VALID_CURRENCIES))%string)
  else Return tt.
End Currency.

Module Price.
Record t : Type := mk { amount : float; currency : Currency.t }.

Definition create (amount : float) (currency : Currency.t) : Result t :=
  if negb (Number.isFinite amount) || (amount <? 0)%float
  then Throw (Domain (DomainErrors.single "Price" "amount"
                        "Must be a positive finite number" (VNumber amount)))
  else
    let rounded := (Number.Math_round (amount * 100) / 100)%float in
    Return (mk rounded currency).

Definition add (this other : t) : Result t :=
  if negb (Currency.eqb (currency this) (currency other))
  then Throw (Domain (BusinessRuleViolationError "CurrencyMatch"
                        "Cannot add prices with different currencies"
                        [("currency1", VString (Currency.toString (currency this)));
                         ("currency2", VString (Currency.toString (currency other)))]))
  else create (amount this + amount other)%float (currency this).

Definition multiply (this : t) (quantity : float) : Result t :=
  if negb (Number.isInteger quantity) || (quantity <? 0)%float
  then Throw (Domain (DomainErrors.single "Price" "quantity"
                        "Must be a positive integer" (VNumber quantity)))
  else create (amount this * quantity)%float (currency this).

Definition equals (this other : t) : bool :=
  (amount this =? amount other)%float
  && Currency.eqb (currency this) (currency other).
End Price.

Module Email.
Record t : Type := mk { value : string }.

(** [[^\s@]] *)
Definition notSpaceNorAt (c : ascii) : bool :=
  negb (JsString.isWhiteSpace c) && negb (Ascii.eqb c "@").

(** [/^[^\s@]+@[^\s@]+\.[^\s@]+$/] *)
Definition emailRegex : RegExp.t :=
  RegExp.Seq (RegExp.Plus (RegExp.Class notSpaceNorAt))
    (RegExp.Seq (RegExp.Chr "@")
       (RegExp.Seq (RegExp.Plus (RegExp.Class notSpaceNorAt))
          (RegExp.Seq (RegExp.Chr ".")
             (RegExp.Plus (RegExp.Class notSpaceNorAt))))).

Definition create (value : string) : Result t :=
  let trimmed := JsString.toLowerCase (JsString.trim value) in
  if String.eqb trimmed ""
  then Throw (Domain (DomainErrors.single "Email" "value"
                        "Email cannot be empty" VUndefined))
  else if negb (RegExp.test emailRegex trimmed)
  then Throw (Domain (DomainErrors.single "Email" "value"
                        "Invalid email format" (VString value)))
  else Return (mk trimmed).

Definition getDomain (this : t) : string :=
  JsString.secondField "@" (value this).

Definition equals (this other : t) : bool :=
  String.eqb (value this) (value other).
End Email.

Module OrderId.
Record t : Type := mk { value : string }.

Definition inRange (lo hi c : ascii) : bool :=
  (JsString.code lo <=? JsString.code c)%N
  && (JsString.code c <=? JsString.code hi)%N.

(** [[0-9a-f]] under the flag [i] *)
Definition hex : RegExp.t :=
  RegExp.Class (RegExp.ignoreCase
                  (fun c => inRange "0" "9" c || inRange "a" "f" c)).

(** [[89ab]] under the flag [i] *)
Definition variant : RegExp.t :=
  RegExp.Class (RegExp.ignoreCase
                  (fun c => Ascii.eqb c "8" || Ascii.eqb c "9"
                            || Ascii.eqb c "a" || Ascii.eqb c "b")).

Definition dash : RegExp.t := RegExp.Chr "-".

(** [/^[0-9a-f]{8}-[0-9a-f]{4}-4[0-9a-f]{3}-[89ab][0-9a-f]{3}-[0-9a-f]{12}$/i] *)
Definition uuidRegex : RegExp.t :=
  RegExp.Seq (RegExp.Rep 8 hex) (RegExp.Seq dash
    (RegExp.Seq (RegExp.Rep 4 hex) (RegExp.Seq dash
      (RegExp.Seq (RegExp.Chr "4") (RegExp.Seq (RegExp.Rep 3 hex) (RegExp.Seq dash
        (RegExp.Seq variant (RegExp.Seq (RegExp.Rep 3 hex) (RegExp.Seq dash
          (RegExp.Rep 12 hex)))))))))).

Definition create (value : string) : Result t :=
  if String.eqb value "" || (String.length (JsString.trim value) =? 0)%nat
  then Throw (Domain (DomainErrors.single "OrderId" "value"
                        "OrderId cannot be empty" VUndefined))
  else if negb (RegExp.test uuidRegex value)
  then Throw (Domain (DomainErrors.single "OrderId" "value"
                        "Invalid OrderId format (must be UUID v4)" (VString value)))
  else Return (mk value).

(** [OrderId.create(crypto.randomUUID())]; the identifier the platform
    draws is an input of the model. *)
Definition generate (randomUUID : string) : Result t := create randomUUID.

Definition equals (this other : t) : bool :=
  String.eqb (value this) (value other).
End OrderId.

Module CustomerId.
Record t : Type := mk { value : string }.

Definition create (value : string) : Result t :=
  if String.eqb value "" || (String.length (JsString.trim value) =? 0)%nat
  then Throw (Error "CustomerId cannot be empty")
  else Return (mk value).

Definition generate (randomUUID : string) : Result t := create randomUUID.

Definition equals (this other : t) : bool :=
  String.eqb (value this) (value other).
End CustomerId.

(* ===================================================================== *)
(** ** Heap of shared objects, and methods as state transformers *)
(* ===================================================================== *)

Definition loc : Type := positive.

Module OrderItem.
Record t : Type := mk {
  productId : string;
  productName : string;
  quantity : float;
  unitPrice : Price.t
}.

(** [item.quantity = q] *)
Definition setQuantity (q : float) (it : t) : t :=
  mk (productId it) (productName it) q (unitPrice it).
End OrderItem.

(** Arrays of item references and item records, by location. An array
    the code builds ([[...items]]) gets a location not yet in use. *)
Module Heap.
Record t : Type := mk {
  arrays : gmap loc (list loc);
  records : gmap loc OrderItem.t
}.

Definition empty : t := mk ∅ ∅.

(** The elements of the array at [a] *)
Definition elements (h : t) (a : loc) : list loc :=
  default [] (arrays h !! a).

(** The record at [r]; [None] stands for [undefined] *)
Definition item (h : t) (r : loc) : option OrderItem.t := records h !! r.

(** [arr[i]] *)
Definition at_index (h : t) (a : loc) (i : nat) : option (loc * OrderItem.t) :=
  match elements h a !! i with
  | Some r => match item h r with
              | Some it => Some (r, it)
              | None => None
              end
  | None => None
  end.

Definition setElements (a : loc) (l : list loc) (h : t) : t :=
  mk (<[a := l]> (arrays h)) (records h).

Definition setItem (r : loc) (it : OrderItem.t) (h : t) : t :=
  mk (arrays h) (<[r := it]> (records h)).

(** A new array with the given elements *)
Definition newArray (l : list loc) (h : t) : loc * t :=
  let a := fresh (dom (arrays h)) in (a, setElements a l h).

(** A new record ([{ productId: ..., ... }]) *)
Definition newItem (it : OrderItem.t) (h : t) : loc * t :=
  let r := fresh (dom (records h)) in (r, setItem r it h).
End Heap.

(** A method run from state [S]: what it returns or throws, and the state
    it leaves. A [throw] keeps the writes made before it. *)
Definition Method (S A : Type) : Type := S -> Result A * S.

Definition ret {S A} (a : A) : Method S A := fun s => (Return a, s).

Definition throw {S A} (e : Thrown) : Method S A := fun s => (Throw e, s).

Definition bindM {S A B} (m : Method S A) (k : A -> Method S B) : Method S B :=
  fun s =>
    match m s with
    | (Return a, s') => k a s'
    | (Throw e, s') => (Throw e, s')
    end.

Definition liftR {S A} (r : Result A) : Method S A := fun s => (r, s).

Notation "'do!' x ':=' m 'in' k" := (bindM m (fun x => k))
  (at level 10, x name, m at level 100, k at level 200).

(* ===================================================================== *)
(** ** Customer entity *)
(* ===================================================================== *)

Module Customer.
Record t : Type := mk {
  id : CustomerId.t;
  _name : string;
  _email : Email.t;
  _isActive : bool;
  createdAt : Z
}.

(** [!s || s.trim().length === 0] *)
Definition isBlank (s : string) : bool :=
  String.eqb s "" || (String.length (JsString.trim s) =? 0)%nat.

(** [Customer.create]; the platform's random identifier and clock are
    inputs. *)
Definition create (randomUUID : string) (now : Z) (name : string)
    (email : Email.t) : Result t :=
  if isBlank name
  then Throw (Domain (DomainErrors.single "Customer" "name"
                        "Customer name cannot be empty" VUndefined))
  else
    let! newId := CustomerId.generate randomUUID in
    Return (mk newId (JsString.trim name) email true now).

Definition reconstitute (id : CustomerId.t) (name : string) (email : Email.t)
    (isActive : bool) (createdAt : Z) : t :=
  mk id name email isActive createdAt.

Definition name (this : t) : string := _name this.
Definition email (this : t) : Email.t := _email this.
Definition isActive (this : t) : bool := _isActive this.

Definition set_name (v : string) : Method t unit :=
  fun this => (Return tt, mk (id this) v (_email this) (_isActive this) (createdAt this)).

Definition set_email (v : Email.t) : Method t unit :=
  fun this => (Return tt, mk (id this) (_name this) v (_isActive this) (createdAt this)).

Definition set_isActive (v : bool) : Method t unit :=
  fun this => (Return tt, mk (id this) (_name this) (_email this) v (createdAt this)).

Definition get_isActive : Method t bool :=
  fun this => (Return (_isActive this), this).

Definition updateName (newName : string) : Method t unit :=
  if isBlank newName
  then throw (Domain (DomainErrors.single "Customer" "name"
                        "Customer name cannot be empty" VUndefined))
  else set_name (JsString.trim newName).

Definition updateEmail (newEmail : Email.t) : Method t unit :=
  set_email newEmail.

Definition deactivate : Method t unit :=
  do! active := get_isActive in
  if negb active
  then throw (Domain (InvalidStateError "Customer" "inactive" "deactivate" None))
  else set_isActive false.

Definition activate : Method t unit :=
  do! active := get_isActive in
  if active
  then throw (Domain (InvalidStateError "Customer" "active" "activate" None))
  else set_isActive true.

Definition equals (this other : t) : bool :=
  CustomerId.equals (id this) (id other).
End Customer.

(* ===================================================================== *)
(** ** Order entity *)
(* ===================================================================== *)

Module Order.

Inductive OrderStatus : Type :=
| PENDING | CONFIRMED | SHIPPED | DELIVERED | CANCELLED.

(** The string a status is at run time *)
Definition statusString (s : OrderStatus) : string :=
  match s with
  | PENDING => "PENDING"
  | CONFIRMED => "CONFIRMED"
  | SHIPPED => "SHIPPED"
  | DELIVERED => "DELIVERED"
  | CANCELLED => "CANCELLED"
  end.

(** [===] on two statuses *)
Definition status_eqb (a b : OrderStatus) : bool :=
  String.eqb (statusString a) (statusString b).

(** The fields of an Order; [_items] holds the location of its array. *)
Record t : Type := mk {
  id : OrderId.t;
  customerEmail : Email.t;
  _items : loc;
  _status : OrderStatus;
  createdAt : Z
}.

(** What a method of an Order runs on: the object and the heap. *)
Record State : Type := mkState { this : t; heap : Heap.t }.

Definition get_status : Method State OrderStatus :=
  fun st => (Return (_status (this st)), st).

Definition set_status (s : OrderStatus) : Method State unit :=
  fun st =>
    let o := this st in
    (Return tt,
     mkState (mk (id o) (customerEmail o) (_items o) s (createdAt o)) (heap st)).

(** Reading a property of the object at [r] *)
Definition readItem (r : loc) : Method State OrderItem.t :=
  fun st =>
    match Heap.item (heap st) r with
    | Some it => (Return it, st)
    | None => (Throw TypeError, st)
    end.

Definition writeItem (r : loc) (it : OrderItem.t) : Method State unit :=
  fun st => (Return tt, mkState (this st) (Heap.setItem r it (heap st))).

(** [this._items.push(r)] *)
Definition push (r : loc) : Method State unit :=
  fun st =>
    let a := _items (this st) in
    (Return tt,
     mkState (this st)
       (Heap.setElements a (Heap.elements (heap st) a ++ [r]) (heap st))).

(** [Order.create(customerEmail, items)] *)
Definition create (randomUUID : string) (now : Z) (customerEmail : Email.t)
    (items : loc) : Method Heap.t t :=
  fun h =>
    if (length (Heap.elements h items) =? 0)%nat
    then (Throw (Domain (DomainErrors.single "Order" "items"
                           "Order must have at least one item" VUndefined)), h)
    else
      match OrderId.generate randomUUID with
      | Throw e => (Throw e, h)
      | Return newId =>
          let (copy, h') := Heap.newArray (Heap.elements h items) h in
          (Return (mk newId customerEmail copy PENDING now), h')
      end.

(** [Order.reconstitute(id, customerEmail, items, status, createdAt)] *)
Definition reconstitute (id : OrderId.t) (customerEmail : Email.t)
    (items : loc) (status : OrderStatus) (createdAt : Z) : t :=
  mk id customerEmail items status createdAt.

(** [get items()] *)
Definition items : Method State loc :=
  fun st =>
    let (copy, h') :=
      Heap.newArray (Heap.elements (heap st) (_items (this st))) (heap st) in
    (Return copy, mkState (this st) h').

(** [get status()] *)
Definition status (st : State) : OrderStatus := _status (this st).

(** The body of the [for] loop of [calculateTotal], run for the [n]
    indices from [i] on. *)
Fixpoint calculateTotal_loop (h : Heap.t) (a : loc) (n i : nat)
    (total : Price.t) : Result Price.t :=
  match n with
  | O => Return total
  | S n' =>
      match Heap.at_index h a i with
      | Some (_, item) =>
          let! itemTotal :=
            Price.multiply (OrderItem.unitPrice item) (OrderItem.quantity item) in
          let! total' := Price.add total itemTotal in
          calculateTotal_loop h a n' (S i) total'
      | None => calculateTotal_loop h a n' (S i) total
      end
  end.

Definition calculateTotal (st : State) : Result Price.t :=
  let h := heap st in
  let a := _items (this st) in
  if (length (Heap.elements h a) =? 0)%nat
  then Price.create 0 Currency.USD
  else
    match Heap.at_index h a 0 with
    | None => Price.create 0 Currency.USD
    | Some (_, firstItem) =>
        let! total :=
          Price.multiply (OrderItem.unitPrice firstItem)
            (OrderItem.quantity firstItem) in
        calculateTotal_loop h a (length (Heap.elements h a) - 1) 1 total
    end.

Definition confirm : Method State unit :=
  do! s := get_status in
  if negb (status_eqb s PENDING)
  then throw (Domain (InvalidStateError "Order" (statusString s) "confirm"
                        (Some ["PENDING"])))
  else set_status CONFIRMED.

Definition ship : Method State unit :=
  do! s := get_status in
  if negb (status_eqb s CONFIRMED)
  then throw (Domain (InvalidStateError "Order" (statusString s) "ship"
                        (Some ["CONFIRMED"])))
  else set_status SHIPPED.

Definition deliver : Method State unit :=
  do! s := get_status in
  if negb (status_eqb s SHIPPED)
  then throw (Domain (InvalidStateError "Order" (statusString s) "deliver"
                        (Some ["SHIPPED"])))
  else set_status DELIVERED.

Definition cancel : Method State unit :=
  do! s := get_status in
  if status_eqb s DELIVERED
  then throw (Domain (InvalidStateError "Order" (statusString s) "cancel"
                        (Some ["PENDING"; "CONFIRMED"; "SHIPPED"])))
  else if status_eqb s CANCELLED
  then throw (Domain (InvalidStateError "Order" (statusString s) "cancel" None))
  else set_status CANCELLED.

(** [this._items.findIndex(i => i.productId === item.productId)] on the
    elements [l], the first of which has index [i]. *)
Fixpoint findIndex_from (h : Heap.t) (item : loc) (l : list loc) (i : Z)
    : Result Z :=
  match l with
  | [] => Return (-1)%Z
  | r :: l' =>
      match Heap.item h r with
      | None => Throw TypeError
      | Some elem =>
          match Heap.item h item with
          | None => Throw TypeError
          | Some new =>
              if String.eqb (OrderItem.productId elem) (OrderItem.productId new)
              then Return i
              else findIndex_from h item l' (i + 1)%Z
          end
      end
  end.

Definition findIndex (item : loc) : Method State Z :=
  fun st =>
    (findIndex_from (heap st) item
       (Heap.elements (heap st) (_items (this st))) 0%Z, st).

(** [this._items[idx]] *)
Definition elementAt (idx : Z) : Method State (option (loc * OrderItem.t)) :=
  fun st =>
    (Return (Heap.at_index (heap st) (_items (this st)) (Z.to_nat idx)), st).

Definition addItem (item : loc) : Method State unit :=
  do! s := get_status in
  if negb (status_eqb s PENDING)
  then throw (Domain (InvalidStateError "Order" (statusString s) "add items"
                        (Some ["PENDING"])))
  else
    do! existingItemIndex := findIndex item in
    if (0 <=? existingItemIndex)%Z
    then
      do! existingItem := elementAt existingItemIndex in
      match existingItem with
      | Some (r, existing) =>
          do! new := readItem item in
          writeItem r
            (OrderItem.setQuantity
               (OrderItem.quantity existing + OrderItem.quantity new)%float
               existing)
      | None => ret tt
      end
    else push item.

Definition equals (this other : t) : bool :=
  OrderId.equals (id this) (id other).

(** The item records of an Order, in the order of its array. *)
Definition itemsOf (st : State) : list OrderItem.t :=
  omap (Heap.item (heap st)) (Heap.elements (heap st) (_items (this st))).

(** Every element of the Order's array is a live record. *)
Definition wellFormed (st : State) : Prop :=
  Forall (fun r => is_Some (Heap.item (heap st) r))
    (Heap.elements (heap st) (_items (this st))).
End Order.

(* ===================================================================== *)
(** ** Doubles as whole numbers of their smallest unit *)
(* ===================================================================== *)

(** The numbers of the code are doubles, which Rocq's [Prim2SF] reads as
    sign, mantissa and exponent. The notions below give such a double
    its exact value, so that the rounding of [Price.create] can be
    stated and proved for all doubles. *)
Module Binary64.
Local Open Scope Z_scope.

(** The smallest positive double is 2^-1074; every finite double is a
    whole number of these units. *)
Definition quantum : Z := 2 ^ 1074.

(** The value of a finite double, in units. *)
Definition units (x : spec_float) : option Z :=
  match x with
  | S754_zero _ => Some 0
  | S754_finite s m e => Some (cond_Zopp s (Z.pos m * 2 ^ (e + 1074)))
  | _ => None
  end.

(** The exponent, counted from -1074, at which a double of [v] units is
    written: its 53 leading bits are kept. *)
Definition cexp (v : Z) : Z := Z.max (Z.log2 v - 52) 0.

(** Whether [v] units are a double: no bit below the 53 leading ones,
    and not beyond the largest double. *)
Definition representable (v : Z) : bool :=
  (0 <=? v) && (v mod 2 ^ cexp v =? 0) && (cexp v <=? 2045).

(** The double of [v] units, for [v] representable. *)
Definition ofUnits (v : Z) : spec_float :=
  match v / 2 ^ cexp v with
  | Z.pos m => S754_finite false m (cexp v - 1074)
  | _ => S754_zero false
  end.

(** The last steps of [binary_round_aux], after the first rounding. *)
Definition finish (q e : Z) : spec_float :=
  let '(mrs, e') := shr_fexp prec emax q e loc_Exact in
  match shr_m mrs with
  | Z0 => S754_zero false
  | Z.pos m => if (e' <=? emax - prec) then S754_finite false m e' else S754_infinity false
  | _ => S754_nan
  end.
End Binary64.

(* ===================================================================== *)
(** ** Outcomes, and the behaviour the specification describes *)
(* ===================================================================== *)

Definition isValidationError {A} (r : Result A) : bool :=
  match r with
  | Throw (Domain (ValidationError _ _)) => true
  | _ => false
  end.

Definition isBusinessRuleViolation {A} (r : Result A) : bool :=
  match r with
  | Throw (Domain (BusinessRuleViolationError _ _ _)) => true
  | _ => false
  end.

(** Whether what was thrown is an instance of the taxonomy. *)
Definition isDomainError (e : Thrown) : bool :=
  match e with
  | Domain _ => true
  | _ => false
  end.

Module Spec.
Import Order.

(** *** The transition table of the Order (section 4.4) *)

Inductive Action : Type := Confirm | Ship | Deliver | Cancel.

Definition actionName (a : Action) : string :=
  match a with
  | Confirm => "confirm"
  | Ship => "ship"
  | Deliver => "deliver"
  | Cancel => "cancel"
  end.

(** The method an action names *)
Definition run (a : Action) : Method State unit :=
  match a with
  | Confirm => confirm
  | Ship => ship
  | Deliver => deliver
  | Cancel => cancel
  end.

(** Column "Next" of the table; [None] where the pair fails. *)
Definition next (s : OrderStatus) (a : Action) : option OrderStatus :=
  match a, s with
  | Confirm, PENDING => Some CONFIRMED
  | Ship, CONFIRMED => Some SHIPPED
  | Deliver, SHIPPED => Some DELIVERED
  | Cancel, PENDING | Cancel, CONFIRMED | Cancel, SHIPPED => Some CANCELLED
  | _, _ => None
  end.

(** Column "Allowed-states hint" of the table. *)
Definition allowedStatesHint (s : OrderStatus) (a : Action)
  : option (list string) :=
  match a, s with
  | Confirm, _ => Some ["PENDING"]
  | Ship, _ => Some ["CONFIRMED"]
  | Deliver, _ => Some ["SHIPPED"]
  | Cancel, CANCELLED => None
  | Cancel, _ => Some ["PENDING"; "CONFIRMED"; "SHIPPED"]
  end.

(** The same Order with another status *)
Definition withStatus (s : OrderStatus) (st : State) : State :=
  mkState (mk (id (this st)) (customerEmail (this st)) (_items (this st)) s
             (createdAt (this st)))
    (heap st).

(** *** The total of an Order as a fold over its items *)

(** [item.unitPrice.multiply(item.quantity)] *)
Definition lineTotal (it : OrderItem.t) : Result Price.t :=
  Price.multiply (OrderItem.unitPrice it) (OrderItem.quantity it).

Definition accumulate (acc : Result Price.t) (it : OrderItem.t)
  : Result Price.t :=
  let! total := acc in
  let! itemTotal := lineTotal it in
  Price.add total itemTotal.

Definition foldTotal (items : list OrderItem.t) : Result Price.t :=
  match items with
  | [] => Price.create 0 Currency.USD
  | first :: rest => fold_left accumulate rest (lineTotal first)
  end.

(** The item with its unit price expressed in currency [c] *)
Definition inCurrency (c : Currency.t) (it : OrderItem.t) : OrderItem.t :=
  OrderItem.mk (OrderItem.productId it) (OrderItem.productName it)
    (OrderItem.quantity it)
    (Price.mk (Price.amount (OrderItem.unitPrice it)) c).

Definition currencyOf (it : OrderItem.t) : Currency.t :=
  Price.currency (OrderItem.unitPrice it).

(** The items, all priced in the currency of the first one *)
Definition inOneCurrency (items : list OrderItem.t) : list OrderItem.t :=
  match items with
  | [] => []
  | first :: _ => map (inCurrency (currencyOf first)) items
  end.

(** Some item is priced in another currency than the first one. *)
Definition mixedCurrencies (items : list OrderItem.t) : Prop :=
  match items with
  | [] => False
  | first :: rest =>
      Exists (fun it => Currency.eqb (currencyOf first) (currencyOf it) = false)
        rest
  end.

(** *** Lines of an Order, by product *)

(** The index of the first item for product [pid] *)
Fixpoint firstIndexOf (pid : string) (items : list OrderItem.t) : option nat :=
  match items with
  | [] => None
  | it :: rest =>
      if String.eqb (OrderItem.productId it) pid
      then Some O
      else option_map S (firstIndexOf pid rest)
  end.

(** A line after a merge: the existing record with the two quantities
    added *)
Definition merged (e new : OrderItem.t) : OrderItem.t :=
  OrderItem.mk (OrderItem.productId e) (OrderItem.productName e)
    (OrderItem.quantity e + OrderItem.quantity new)%float
    (OrderItem.unitPrice e).

(** *** The invariant of an Order (section 3) *)

Definition productIds (st : State) : list string :=
  map OrderItem.productId (itemsOf st).

Definition invariant (st : State) : Prop :=
  itemsOf st <> [] /\ NoDup (productIds st).

(** The mutators of an Order *)
Inductive Mutator : Type :=
| DoConfirm | DoShip | DoDeliver | DoCancel | DoAddItem (item : loc).

Definition mutate (m : Mutator) : Method State unit :=
  match m with
  | DoConfirm => confirm
  | DoShip => ship
  | DoDeliver => deliver
  | DoCancel => cancel
  | DoAddItem item => addItem item
  end.

(** The mutators of a Customer *)
Inductive CustomerMutator : Type :=
| DoActivate | DoDeactivate
| DoUpdateName (newName : string) | DoUpdateEmail (newEmail : Email.t).

Definition mutateCustomer (m : CustomerMutator) : Method Customer.t unit :=
  match m with
  | DoActivate => Customer.activate
  | DoDeactivate => Customer.deactivate
  | DoUpdateName newName => Customer.updateName newName
  | DoUpdateEmail newEmail => Customer.updateEmail newEmail
  end.

(** A run of successful mutator calls *)
Inductive reaches : State -> State -> Prop :=
| reaches_refl st : reaches st st
| reaches_step st m st' st'' :
    reaches st st' -> mutate m st' = (Return tt, st'') -> reaches st st''.

(** *** The pattern of an e-mail address (section 3) *)

Fixpoint allChars (p : ascii -> bool) (s : string) : bool :=
  match s with
  | EmptyString => true
  | String c s' => p c && allChars p s'
  end.

(** A non-empty run of characters that are neither white space nor [@] *)
Definition isLabel (s : string) : Prop :=
  s <> "" /\ allChars Email.notSpaceNorAt s = true.

Definition matchesPattern (s : string) : Prop :=
  exists localPart domain tld,
    s = (localPart ++ "@" ++ domain ++ "." ++ tld)%string
    /\ isLabel localPart /\ isLabel domain /\ isLabel tld.

(** *** Rounding a price to cents, on the exact value of the double *)

(** For a finite double [x >= 0] of value [m * 2^e], the integer
    [floor (100 * x + 1/2)]: its amount in cents, a half rounded up. *)
Definition halfUpCents (x : float) : option Z :=
  match Prim2SF x with
  | S754_zero _ => Some 0%Z
  | S754_finite false m e =>
      Some (if (0 <=? e)%Z
            then (100 * Z.pos m * 2 ^ e)%Z
            else ((200 * Z.pos m + 2 ^ (- e)) / 2 ^ (1 - e))%Z)
  | _ => None
  end.

(** The double closest to [k / 100], for [0 <= k < 2^53] *)
Definition ofCents (k : Z) : float :=
  (of_uint63 (Uint63.of_Z k) / 100)%float.

(** Whether the amount [Price.create] stores for [x] is [x] rounded to
    cents, a half rounded up. *)
Definition storesHalfUp (x : float) : bool :=
  match halfUpCents x, Price.create x Currency.EUR with
  | Some k, Return p => PrimFloat.Leibniz.eqb (Price.amount p) (ofCents k)
  | _, _ => false
  end.

(** The double [k / 8]; for odd [k] it lies on a cent boundary
    (.125, .375, .625, .875). *)
Definition eighth (k : nat) : float :=
  (of_uint63 (Uint63.of_Z (Z.of_nat k)) / 8)%float.

(** *** Rounding, on the exact value of the double product *)

(** The value of a finite double in units of 2^-1074 *)
Definition scaled (x : float) : option Z := Binary64.units (Prim2SF x).

(** For a finite double [x], the whole number [floor (x + 1/2)] *)
Definition halfUp (x : float) : option Z :=
  match scaled x with
  | Some u => Some ((u + 2 ^ 1073) / Binary64.quantum)%Z
  | None => None
  end.

(** Whether 100 times the double is a double too, so that the product
    [x * 100] is exact. *)
Definition centsAreExact (x : float) : bool :=
  match scaled x with
  | Some u => Binary64.representable (100 * u)
  | None => false
  end.
End Spec.

(** ** Sample data, from the tests of the repository *)
Module Sample.
Definition uuid : string := "a1b2c3d4-e5f6-4a7b-8c9d-0e1f2a3b4c5d".
Definition customerEmail : Email.t := Email.mk "customer@example.com".

Definition item1 : OrderItem.t :=
  OrderItem.mk "prod-1" "Product 1" 2 (Price.mk 10 Currency.EUR).
Definition item2 : OrderItem.t :=
  OrderItem.mk "prod-2" "Product 2" 1 (Price.mk 20 Currency.EUR).
Definition item3 : OrderItem.t :=
  OrderItem.mk "prod-3" "Product 3" 1 (Price.mk 15 Currency.EUR).
Definition duplicateItem : OrderItem.t :=
  OrderItem.mk "prod-1" "Product 1" 3 (Price.mk 10 Currency.EUR).
Definition halfItem : OrderItem.t :=
  OrderItem.mk "prod-1" "Product 1" 2.5 (Price.mk 10 Currency.EUR).
Definition dollarItem : OrderItem.t :=
  OrderItem.mk "prod-2" "Product 2" 1 (Price.mk 20 Currency.USD).

(** The caller's heap: four records at 1..4 ([item1], [item2], [item3],
    [duplicateItem]) and the array [sampleItems] = [[item1, item2]] at 1. *)
Definition records : gmap loc OrderItem.t :=
  <[4%positive := duplicateItem]>
    (<[3%positive := item3]>
       (<[2%positive := item2]> (<[1%positive := item1]> ∅))).

Definition sampleItems : loc := 1%positive.

Definition callerHeap : Heap.t :=
  Heap.mk (<[sampleItems := [1%positive; 2%positive]]> ∅) records.

(** [Order.create(customerEmail, sampleItems)] and the heap after it *)
Definition created : Result Order.t * Heap.t :=
  Order.create uuid 0 customerEmail sampleItems callerHeap.

Definition order : Order.t :=
  Order.mk (OrderId.mk uuid) customerEmail 2%positive Order.PENDING 0.

Definition state : Order.State := Order.mkState order (snd created).

(** An array of two lines for the same product, and one of two lines in
    two currencies whose first quantity is not an integer. *)
Definition twiceTheSame : Heap.t :=
  Heap.mk (<[1%positive := [1%positive; 4%positive]]> ∅) records.

Definition mixedHeap : Heap.t :=
  Heap.mk (<[1%positive := [1%positive; 2%positive]]> ∅)
    (<[2%positive := dollarItem]> (<[1%positive := halfItem]> ∅)).

Definition mixedState : Order.State :=
  Order.mkState
    (Order.reconstitute (OrderId.mk uuid) customerEmail 1%positive
       Order.PENDING 0)
    mixedHeap.

(** Two lines in two currencies with integer quantities, the first line
    worth more than a double can hold. *)
Definition hugeItem : OrderItem.t :=
  OrderItem.mk "prod-1" "Product 1" 1e300 (Price.mk 1e10 Currency.EUR).

Definition hugeHeap : Heap.t :=
  Heap.mk (<[1%positive := [1%positive; 2%positive]]> ∅)
    (<[2%positive := dollarItem]> (<[1%positive := hugeItem]> ∅)).

Definition hugeState : Order.State :=
  Order.mkState
    (Order.reconstitute (OrderId.mk uuid) customerEmail 1%positive
       Order.PENDING 0)
    hugeHeap.

Definition customer : Customer.t :=
  Customer.mk (CustomerId.mk uuid) "John Doe" customerEmail true 0.
End Sample.

(* ===================================================================== *)
(** ** Further behaviour of the code, named for the properties below *)
(* ===================================================================== *)

Module Behaviour.
Import Order.

(** *** The shape of a version 4 UUID *)

Definition isHexDigit (c : ascii) : bool :=
  OrderId.inRange "0" "9" c || OrderId.inRange "a" "f" c
  || OrderId.inRange "A" "F" c.

Definition isVariantDigit (c : ascii) : bool :=
  existsb (Ascii.eqb c) ["8"; "9"; "a"; "b"; "A"; "B"]%char.

(** One test per character: 8-4-4-4-12 hexadecimal digits between dashes,
    the third group starting with 4, the fourth with 8, 9, a or b. *)
Definition uuidV4Shape : list (ascii -> bool) :=
  repeat isHexDigit 8 ++ [Ascii.eqb "-"]
  ++ repeat isHexDigit 4 ++ [Ascii.eqb "-"]
  ++ [Ascii.eqb "4"] ++ repeat isHexDigit 3 ++ [Ascii.eqb "-"]
  ++ [isVariantDigit] ++ repeat isHexDigit 3 ++ [Ascii.eqb "-"]
  ++ repeat isHexDigit 12.

(** The string has as many characters as there are tests, and each
    character passes its test. *)
Fixpoint hasShape (ps : list (ascii -> bool)) (s : string) : bool :=
  match ps, s with
  | [], EmptyString => true
  | p :: ps', String c s' => p c && hasShape ps' s'
  | _, _ => false
  end.

Definition isUuidV4 (s : string) : bool := hasShape uuidV4Shape s.

(** A regular expression and a shape that accept the same strings *)
Definition agrees (r : RegExp.t) (ps : list (ascii -> bool)) : Prop :=
  forall s, RegExp.lang r s <-> hasShape ps s = true.

(** *** Runs of calls *)

(** How far a status is along the life cycle *)
Definition rank (s : OrderStatus) : nat :=
  match s with
  | PENDING => 0
  | CONFIRMED => 1
  | SHIPPED => 2
  | DELIVERED => 3
  | CANCELLED => 3
  end.

(** The actions of a list, called one after the other *)
Fixpoint runActions (l : list Spec.Action) : Method State unit :=
  match l with
  | [] => ret tt
  | a :: l' => bindM (Spec.run a) (fun _ => runActions l')
  end.

(** The sample Order of the tests, delivered *)
Definition deliveredState : State :=
  snd (deliver (snd (ship (snd (confirm Sample.state))))).

(** A Customer's name as its factory and [updateName] store it: trimmed,
    and neither empty nor blank *)
Definition properName (s : string) : Prop :=
  JsString.trim s = s /\ Customer.isBlank s = false.

(** A run of successful mutator calls on a Customer *)
Inductive customerReaches : Customer.t -> Customer.t -> Prop :=
| customerReaches_refl c : customerReaches c c
| customerReaches_step c m c' c'' :
    customerReaches c c' ->
    Spec.mutateCustomer m c' = (Return tt, c'') ->
    customerReaches c c''.
End Behaviour.

(* ===================================================================== *)
(** ** The tests of the repository, replayed on the embedding *)
(* ===================================================================== *)

Section RepositoryTests.
Import Order.

(** Price.spec.ts *)
Lemma price_spec :
  Price.create 10.99 Currency.EUR = Return (Price.mk 10.99 Currency.EUR)
  /\ Price.create 10.999 Currency.USD = Return (Price.mk 11 Currency.USD)
  /\ isValidationError (Price.create (-10) Currency.EUR) = true
  /\ isValidationError (Price.create nan Currency.EUR) = true
  /\ isValidationError (Price.create infinity Currency.EUR) = true
  /\ Price.add (Price.mk 10.50 Currency.EUR) (Price.mk 5.25 Currency.EUR)
     = Return (Price.mk 15.75 Currency.EUR)
  /\ isBusinessRuleViolation
       (Price.add (Price.mk 10 Currency.EUR) (Price.mk 10 Currency.USD)) = true
  /\ Price.multiply (Price.mk 10.50 Currency.USD) 3
     = Return (Price.mk 31.5 Currency.USD)
  /\ isValidationError (Price.multiply (Price.mk 10 Currency.EUR) (-1)) = true
  /\ isValidationError (Price.multiply (Price.mk 10 Currency.EUR) 2.5) = true
  /\ Price.multiply (Price.mk 10 Currency.EUR) 0 = Return (Price.mk 0 Currency.EUR)
  /\ Price.equals (Price.mk 10.50 Currency.EUR) (Price.mk 10.51 Currency.EUR) = false
  /\ Price.equals (Price.mk 10 Currency.EUR) (Price.mk 10 Currency.USD) = false.
Proof. repeat split. Qed.

(** Email.spec.ts *)
Lemma email_spec :
  Email.create "  user@example.com  " = Return (Email.mk "user@example.com")
  /\ Email.create "User@Example.COM" = Return (Email.mk "user@example.com")
  /\ isValidationError (Email.create "") = true
  /\ isValidationError (Email.create "   ") = true
  /\ isValidationError (Email.create "userexample.com") = true
  /\ Email.getDomain (Email.mk "user@example.com") = "example.com"
  /\ Email.getDomain (Email.mk "user@mail.example.com") = "mail.example.com".
Proof. repeat split. Qed.

(** OrderId.spec.ts *)
Lemma orderId_spec :
  OrderId.create Sample.uuid = Return (OrderId.mk Sample.uuid)
  /\ OrderId.create "A1B2C3D4-E5F6-4A7B-8C9D-0E1F2A3B4C5D"
     = Return (OrderId.mk "A1B2C3D4-E5F6-4A7B-8C9D-0E1F2A3B4C5D")
  /\ isValidationError (OrderId.create "") = true
  /\ isValidationError (OrderId.create "   ") = true
  /\ isValidationError (OrderId.create "not-a-uuid") = true
  /\ isValidationError (OrderId.create "a1b2c3d4-e5f6-1a7b-8c9d-0e1f2a3b4c5d") = true
  /\ isValidationError (OrderId.create "a1b2c3d4e5f64a7b8c9d0e1f2a3b4c5d") = true.
Proof. repeat split. Qed.

(** Order.spec.ts: creation, the life cycle, adding items *)
Lemma order_spec :
  Sample.created = (Return Sample.order, heap Sample.state)
  /\ itemsOf Sample.state = [Sample.item1; Sample.item2]
  /\ isValidationError
       (fst (create Sample.uuid 0 Sample.customerEmail 9%positive Sample.callerHeap))
     = true
  /\ status (snd (confirm Sample.state)) = CONFIRMED
  /\ status (snd (bindM confirm (fun _ => ship) Sample.state)) = SHIPPED
  /\ status (snd (bindM confirm (fun _ => bindM ship (fun _ => deliver))
                    Sample.state)) = DELIVERED
  /\ fst (ship Sample.state)
     = Throw (Domain (InvalidStateError "Order" "PENDING" "ship" (Some ["CONFIRMED"])))
  /\ fst (bindM cancel (fun _ => cancel) Sample.state)
     = Throw (Domain (InvalidStateError "Order" "CANCELLED" "cancel" None))
  /\ map OrderItem.productId (itemsOf (snd (addItem 3%positive Sample.state)))
     = ["prod-1"; "prod-2"; "prod-3"]
  /\ map OrderItem.quantity (itemsOf (snd (addItem 4%positive Sample.state)))
     = [5%float; 1%float]
  /\ fst (bindM confirm (fun _ => addItem 3%positive) Sample.state)
     = Throw (Domain (InvalidStateError "Order" "CONFIRMED" "add items"
                        (Some ["PENDING"]))).
Proof. repeat split. Qed.

(** Customer.spec.ts *)
Lemma customer_spec :
  Customer.create Sample.uuid 0 "  John Doe  " Sample.customerEmail
  = Return Sample.customer
  /\ isValidationError (Customer.create Sample.uuid 0 "   " Sample.customerEmail)
     = true
  /\ Customer.name (snd (Customer.updateName "  John Smith  " Sample.customer))
     = "John Smith"
  /\ Customer.isActive (snd (Customer.deactivate Sample.customer)) = false
  /\ fst (bindM Customer.deactivate (fun _ => Customer.deactivate) Sample.customer)
     = Throw (Domain (InvalidStateError "Customer" "inactive" "deactivate" None))
  /\ Customer.isActive
       (snd (bindM Customer.deactivate (fun _ => Customer.activate) Sample.customer))
     = true.
Proof. repeat split. Qed.
End RepositoryTests.

(* ===================================================================== *)
(** ** Strings and regular expressions *)
(* ===================================================================== *)

Section StringFacts.

Lemma append_nil (s : string) : ("" ++ s)%string = s.
Proof. reflexivity. Qed.

Lemma append_cons (c : ascii) (s t : string) :
  (String c s ++ t)%string = String c (s ++ t)%string.
Proof. reflexivity. Qed.

Lemma append_empty_r (s : string) : (s ++ "")%string = s.
Proof.
  induction s as [|c s IH]; [reflexivity|].
  now rewrite append_cons, IH.
Qed.

Lemma append_assoc' (a b c : string) :
  ((a ++ b) ++ c)%string = (a ++ (b ++ c))%string.
Proof.
  induction a as [|x a IH]; [reflexivity|].
  now rewrite !append_cons, IH.
Qed.

Lemma append_eq_empty (s1 s2 : string) :
  (s1 ++ s2)%string = "" -> s1 = "" /\ s2 = "".
Proof.
  destruct s1; [rewrite append_nil; auto | rewrite append_cons; discriminate].
Qed.

Lemma append_eq_cons (s1 s2 : string) (c : ascii) (s : string) :
  (s1 ++ s2)%string = String c s ->
  (s1 = "" /\ s2 = String c s)
  \/ (exists s1', s1 = String c s1' /\ s = (s1' ++ s2)%string).
Proof.
  destruct s1 as [|c1 s1]; [rewrite append_nil | rewrite append_cons]; intros H.
  - left; auto.
  - right. injection H as -> <-. eauto.
Qed.
End StringFacts.

Section RegExpFacts.
Import RegExp.

Lemma nullable_lang (r : t) : nullable r = true <-> lang r "".
Proof.
  induction r as [| |p|r1 IH1 r2 IH2|r1 IH1 r2 IH2|r IH]; simpl.
  - split; [discriminate | inversion 1].
  - split; [constructor | reflexivity].
  - split; [discriminate | inversion 1].
  - rewrite andb_true_iff, IH1, IH2. split.
    + intros [H1 H2]. apply (lang_seq _ _ "" "" H1 H2).
    + inversion 1 as [| |? ? s1 s2 H1 H2 E1 E2| | | |]; subst.
      apply append_eq_empty in E2 as [-> ->]. auto.
  - rewrite orb_true_iff, IH1, IH2. split.
    + intros [H|H]; [now apply lang_alt_l | now apply lang_alt_r].
    + inversion 1; subst; auto.
  - split; [constructor | reflexivity].
Qed.

Lemma lang_star_cons_inv (r : t) (w : string) :
  lang (Star r) w ->
  forall c s, w = String c s ->
  exists s1 s2, s = (s1 ++ s2)%string /\ lang r (String c s1) /\ lang (Star r) s2.
Proof.
  intros H. remember (Star r) as r' eqn:Er. revert r Er.
  induction H as [|p c0 Hp|r1 r2 s1 s2 H1 IH1 H2 IH2|r1 r2 s0 H0 IH0
                 |r1 r2 s0 H0 IH0|r0|r0 s1 s2 H1 IH1 H2 IH2];
    intros r Er c s E; try discriminate Er.
  - discriminate E.
  - injection Er as ->.
    apply append_eq_cons in E as [[-> ->]|(s1' & -> & ->)].
    + now apply IH2.
    + eauto.
Qed.

Lemma deriv_lang (r : t) : forall c s, lang (deriv c r) s <-> lang r (String c s).
Proof.
  induction r as [| |p|r1 IH1 r2 IH2|r1 IH1 r2 IH2|r IH]; intros c s; simpl.
  - split; inversion 1.
  - split; inversion 1.
  - destruct (p c) eqn:Hp; split.
    + inversion 1; subst. now constructor.
    + inversion 1; subst. constructor.
    + inversion 1.
    + inversion 1; subst. congruence.
  - assert (Hseq : lang (Seq (deriv c r1) r2) s ->
                   lang (Seq r1 r2) (String c s)).
    { inversion 1 as [| |? ? s1 s2 H1 H2| | | |]; subst.
      apply IH1 in H1. apply (lang_seq _ _ _ _ H1 H2). }
    assert (Hinv : lang (Seq r1 r2) (String c s) ->
                   lang (Seq (deriv c r1) r2) s
                   \/ (lang r1 "" /\ lang r2 (String c s))).
    { inversion 1 as [| |? ? s1 s2 H1 H2 E1 E2| | | |]; subst.
      apply append_eq_cons in E2 as [[-> ->]|(s1' & -> & ->)].
      - right; auto.
      - left. apply lang_seq; [now apply IH1 | assumption]. }
    destruct (nullable r1) eqn:Hn; split.
    + inversion 1; subst; [auto|].
      apply nullable_lang in Hn.
      apply (lang_seq _ _ "" _ Hn). now apply IH2.
    + intros H. apply Hinv in H as [H|[_ H]].
      * now apply lang_alt_l.
      * apply lang_alt_r. now apply IH2.
    + auto.
    + intros H. apply Hinv in H as [H|[H _]]; [assumption|].
      apply nullable_lang in H. congruence.
  - split.
    + inversion 1; subst; [apply lang_alt_l | apply lang_alt_r];
        [now apply IH1 | now apply IH2].
    + inversion 1; subst; [apply lang_alt_l | apply lang_alt_r];
        [now apply IH1 | now apply IH2].
  - split.
    + inversion 1 as [| |? ? s1 s2 H1 H2| | | |]; subst.
      apply IH in H1. apply (lang_star_cons _ _ _ H1 H2).
    + intros H.
      destruct (lang_star_cons_inv _ _ H c s eq_refl) as (s1 & s2 & -> & H1 & H2).
      apply lang_seq; [now apply IH | assumption].
Qed.

Lemma test_lang (s : string) : forall r, test r s = true <-> lang r s.
Proof.
  induction s as [|c s IH]; intros r; simpl.
  - apply nullable_lang.
  - rewrite IH. apply deriv_lang.
Qed.
End RegExpFacts.

(* ===================================================================== *)
(** ** Email *)
(* ===================================================================== *)

Section EmailFacts.
Import RegExp Spec.

Lemma lang_seq_inv (r1 r2 : t) (s : string) :
  lang (Seq r1 r2) s <->
  exists s1 s2, s = (s1 ++ s2)%string /\ lang r1 s1 /\ lang r2 s2.
Proof.
  split.
  - inversion 1; subst; eauto.
  - intros (s1 & s2 & -> & H1 & H2). now constructor.
Qed.

Lemma lang_class_inv (p : ascii -> bool) (s : string) :
  lang (Class p) s <-> exists c, s = String c "" /\ p c = true.
Proof.
  split.
  - inversion 1; subst; eauto.
  - intros (c & -> & Hp). now constructor.
Qed.

Lemma lang_chr_inv (c : ascii) (s : string) :
  lang (Chr c) s <-> s = String c "".
Proof.
  unfold Chr. rewrite lang_class_inv. split.
  - intros (c' & -> & Hc). apply Ascii.eqb_eq in Hc. now subst.
  - intros ->. exists c. split; [reflexivity | apply Ascii.eqb_refl].
Qed.

Lemma lang_star_class (p : ascii -> bool) (s : string) :
  lang (Star (Class p)) s <-> allChars p s = true.
Proof.
  split.
  - intros H. remember (Star (Class p)) as r eqn:Er. revert Er.
    induction H as [|q c0 Hq|r1 r2 s1 s2 H1 IH1 H2 IH2|r1 r2 s0 H0 IH0
                   |r1 r2 s0 H0 IH0|r0|r0 s1 s2 H1 IH1 H2 IH2];
      intros Er; try discriminate Er.
    + reflexivity.
    + injection Er as ->. apply lang_class_inv in H1 as (c & -> & Hp).
      rewrite append_cons, append_nil. simpl. rewrite Hp. now apply IH2.
  - induction s as [|c s IH]; simpl; intros H.
    + constructor.
    + apply andb_true_iff in H as [Hp Hs].
      change (String c s) with (String c "" ++ s)%string.
      apply lang_star_cons; [now constructor | auto].
Qed.

Lemma lang_plus_class (p : ascii -> bool) (s : string) :
  lang (Plus (Class p)) s <-> s <> "" /\ allChars p s = true.
Proof.
  unfold Plus. rewrite lang_seq_inv. split.
  - intros (s1 & s2 & -> & H1 & H2).
    apply lang_class_inv in H1 as (c & -> & Hp).
    apply lang_star_class in H2.
    rewrite append_cons, append_nil. simpl. rewrite Hp, H2. now split.
  - intros [Hne H]. destruct s as [|c s]; [congruence|].
    simpl in H. apply andb_true_iff in H as [Hp Hs].
    exists (String c ""), s. repeat split.
    + now constructor.
    + now apply lang_star_class.
Qed.

Lemma emailRegex_lang (s : string) :
  lang Email.emailRegex s <-> matchesPattern s.
Proof.
  unfold Email.emailRegex, matchesPattern, isLabel.
  rewrite lang_seq_inv. split.
  - intros (l & s1 & -> & Hl & H).
    apply lang_seq_inv in H as (a & s2 & -> & Ha & H).
    apply lang_seq_inv in H as (d & s3 & -> & Hd & H).
    apply lang_seq_inv in H as (o & tl & -> & Ho & Ht).
    apply lang_chr_inv in Ha as ->. apply lang_chr_inv in Ho as ->.
    apply lang_plus_class in Hl, Hd, Ht.
    exists l, d, tl. auto.
  - intros (l & d & tl & -> & Hl & Hd & Ht).
    apply lang_plus_class in Hl, Hd, Ht.
    exists l, ("@" ++ d ++ "." ++ tl)%string. repeat split; [assumption|].
    apply lang_seq; [now apply lang_chr_inv|].
    apply lang_seq; [assumption|].
    apply lang_seq; [now apply lang_chr_inv | assumption].
Qed.

Lemma emailRegex_test (s : string) :
  test Email.emailRegex s = true <-> matchesPattern s.
Proof. rewrite test_lang. apply emailRegex_lang. Qed.
End EmailFacts.

(** C9. [Email.create] trims its input and puts it in lower case, then
    validates: it throws a ValidationError exactly when the normalized
    string is empty or is not of the form local part, [@], domain, dot,
    last label (each a non-empty run of characters other than white space
    and [@]), and returns the normalized string otherwise. The input
    "  User@Example.COM  " gives "user@example.com"; "no-at-sign", "user@",
    "@example.com" and "user@example" are refused. *)
Theorem email_create_normalizes_and_validates :
  (forall raw : string,
      let normalized := JsString.toLowerCase (JsString.trim raw) in
      (isValidationError (Email.create raw) = true
       <-> normalized = "" \/ ~ Spec.matchesPattern normalized)
      /\ (isValidationError (Email.create raw) = false
          <-> Email.create raw = Return (Email.mk normalized)))
  /\ Email.create "  User@Example.COM  " = Return (Email.mk "user@example.com")
  /\ Forall (fun raw => isValidationError (Email.create raw) = true)
       ["no-at-sign"; "user@"; "@example.com"; "user@example"].
Proof.
  split; [|split].
  - intros raw normalized. unfold Email.create. fold normalized.
    destruct (String.eqb normalized "") eqn:He.
    + apply String.eqb_eq in He. simpl. split; split; auto; discriminate.
    + apply String.eqb_neq in He.
      destruct (RegExp.test Email.emailRegex normalized) eqn:Ht; simpl.
      * apply emailRegex_test in Ht. split; split; auto; try discriminate.
        intros [H|H]; contradiction.
      * assert (Hn : ~ Spec.matchesPattern normalized).
        { intros H. apply emailRegex_test in H. congruence. }
        split; split; auto; discriminate.
  - reflexivity.
  - repeat constructor.
Qed.

(* ===================================================================== *)
(** ** The status state machine *)
(* ===================================================================== *)

Section StateMachine.
Import Order Spec.

Lemma status_eqb_eq (a b : OrderStatus) : status_eqb a b = true <-> a = b.
Proof. destruct a, b; split; intros H; try reflexivity; discriminate H. Qed.

(** C1. An action on an Order follows the transition table: where the
    table gives a next status the call returns and only the status
    changes, to that status; everywhere else the call throws an
    InvalidStateError for entity Order that carries the current status,
    the name of the action and the hint of the table, and the Order is
    left as it was. So [confirm] succeeds exactly from PENDING, [ship]
    from CONFIRMED, [deliver] from SHIPPED, and [cancel] from PENDING,
    CONFIRMED or SHIPPED. *)
Theorem order_transitions_follow_table (st : State) (a : Action) :
  run a st =
    match next (status st) a with
    | Some s' => (Return tt, withStatus s' st)
    | None =>
        (Throw (Domain (InvalidStateError "Order" (statusString (status st))
                          (actionName a) (allowedStatesHint (status st) a))),
         st)
    end
  /\ (fst (run a st) = Return tt <->
      match a with
      | Confirm => status st = PENDING
      | Ship => status st = CONFIRMED
      | Deliver => status st = SHIPPED
      | Cancel => status st = PENDING \/ status st = CONFIRMED \/ status st = SHIPPED
      end).
Proof.
  destruct st as [[i e l s c] h].
  destruct a, s; (split; [reflexivity|]); simpl; split; intros H;
    try reflexivity; try discriminate H; auto;
    try (destruct H as [H|[H|H]]; discriminate H).
Qed.

(** C8. [cancel()] on a DELIVERED Order throws an InvalidStateError with
    the hint PENDING, CONFIRMED, SHIPPED, which its message ends with;
    on a CANCELLED Order it throws one without a hint, and the message
    has no "Allowed states" clause. *)
Theorem cancel_hint_only_when_delivered
    (id : OrderId.t) (email : Email.t) (items : loc) (createdAt : Z)
    (h : Heap.t) :
  let delivered := mkState (reconstitute id email items DELIVERED createdAt) h in
  let cancelled := mkState (reconstitute id email items CANCELLED createdAt) h in
  let e1 := InvalidStateError "Order" "DELIVERED" "cancel"
              (Some ["PENDING"; "CONFIRMED"; "SHIPPED"]) in
  let e2 := InvalidStateError "Order" "CANCELLED" "cancel" None in
  cancel delivered = (Throw (Domain e1), delivered)
  /\ DomainErrors.message e1
     = "Cannot cancel Order in state 'DELIVERED'. Allowed states: PENDING, CONFIRMED, SHIPPED"
  /\ cancel cancelled = (Throw (Domain e2), cancelled)
  /\ DomainErrors.message e2 = "Cannot cancel Order in state 'CANCELLED'"
  /\ DomainErrors.includes "Allowed states" (DomainErrors.message e2) = false.
Proof. repeat split. Qed.
End StateMachine.

(* ===================================================================== *)
(** ** Kinds of failure *)
(* ===================================================================== *)

Section Taxonomy.

(** C4, at the inputs where the code departs from it. [CustomerId.create]
    on an empty or blank string, and [assertCurrency] on a string that is
    no currency, throw a plain [Error], which is none of the five kinds;
    [OrderId.create] throws a ValidationError on the same input. *)
Theorem customerId_and_currency_throw_plain_error :
  CustomerId.create "" = Throw (Error "CustomerId cannot be empty")
  /\ CustomerId.create "   " = Throw (Error "CustomerId cannot be empty")
  /\ Currency.assertCurrency "XYZ"
     = Throw (Error "Invalid currency: XYZ. Valid currencies are: USD, EUR, GBP, JPY")
  /\ isDomainError (Error "CustomerId cannot be empty") = false
  /\ isValidationError (OrderId.create "") = true.
Proof. repeat split. Qed.

(** X17. The factories of Email, Price and OrderId, and the arithmetic of
    Price, throw nothing but the taxonomy: a ValidationError, or the
    BusinessRuleViolationError of [add]. *)
Lemma value_objects_throw_taxonomy :
  (forall raw e, Email.create raw = Throw e ->
                 isValidationError (Email.create raw) = true)
  /\ (forall raw e, OrderId.create raw = Throw e ->
                    isValidationError (OrderId.create raw) = true)
  /\ (forall amount c e, Price.create amount c = Throw e ->
                         isValidationError (Price.create amount c) = true)
  /\ (forall p q e, Price.multiply p q = Throw e ->
                    isValidationError (Price.multiply p q) = true)
  /\ (forall p q e, Price.add p q = Throw e ->
                    isValidationError (Price.add p q) = true
                    \/ isBusinessRuleViolation (Price.add p q) = true).
Proof.
  assert (Hc : forall amount c e, Price.create amount c = Throw e ->
                 isValidationError (Price.create amount c) = true).
  { intros amount c e. unfold Price.create.
    destruct (negb _ || _); [reflexivity | discriminate]. }
  repeat split.
  - intros raw e. unfold Email.create.
    destruct (String.eqb _ _); [reflexivity|].
    destruct (negb _); [reflexivity | discriminate].
  - intros raw e. unfold OrderId.create.
    destruct (_ || _); [reflexivity|].
    destruct (negb _); [reflexivity | discriminate].
  - exact Hc.
  - intros p q e. unfold Price.multiply.
    destruct (negb _ || _); [reflexivity | apply Hc].
  - intros p q e. unfold Price.add.
    destruct (negb _); [right; reflexivity | left; eapply Hc; eassumption].
Qed.
End Taxonomy.

(* ===================================================================== *)
(** ** Failed calls leave the entity as it was *)
(* ===================================================================== *)

Section Atomicity.
Import Order Spec.

Lemma addItem_throw_unchanged (item : loc) (st : State) (e : Thrown) :
  fst (addItem item st) = Throw e -> snd (addItem item st) = st.
Proof.
  unfold addItem, bindM, get_status, findIndex, elementAt, readItem,
    writeItem, push, throw, ret.
  destruct (negb (status_eqb (_status (this st)) PENDING)); [reflexivity|].
  destruct (findIndex_from _ _ _ _) as [idx|e']; [|reflexivity].
  destruct (0 <=? idx)%Z; [|discriminate].
  destruct (Heap.at_index _ _ _) as [[r existing]|]; [|discriminate].
  destruct (Heap.item (heap st) item); [discriminate | reflexivity].
Qed.

(** C10. A mutator of an Order or of a Customer that throws leaves the
    entity, and the heap its items live in, exactly as before the call. *)
Theorem mutators_atomic_on_error :
  (forall (m : Mutator) (st : State) (e : Thrown),
      fst (mutate m st) = Throw e -> snd (mutate m st) = st)
  /\ (forall (m : CustomerMutator) (c : Customer.t) (e : Thrown),
         fst (mutateCustomer m c) = Throw e -> snd (mutateCustomer m c) = c).
Proof.
  split.
  - intros [| | | |item] st e; simpl;
      try (destruct st as [[i em l s cr] h]; destruct s; simpl;
           intros H; first [reflexivity | discriminate H]).
    apply addItem_throw_unchanged.
  - intros [| |newName|newEmail] c e; simpl.
    + destruct c as [i n em [] cr]; simpl; intros H;
        first [reflexivity | discriminate H].
    + destruct c as [i n em [] cr]; simpl; intros H;
        first [reflexivity | discriminate H].
    + unfold Customer.updateName.
      destruct (Customer.isBlank newName); simpl; intros H;
        first [reflexivity | discriminate H].
    + intros H; discriminate H.
Qed.

Lemma mutators_atomic_on_error_witness :
  snd (mutate DoShip Sample.state) = Sample.state
  /\ snd (mutateCustomer DoActivate Sample.customer) = Sample.customer.
Proof.
  split.
  - exact (proj1 mutators_atomic_on_error DoShip Sample.state _ eq_refl).
  - exact (proj2 mutators_atomic_on_error DoActivate Sample.customer _ eq_refl).
Defined.

(** Each kind of entity has a mutator that does throw: shipping a pending
    Order, activating an active Customer, renaming to a blank name. *)
Lemma mutators_do_throw :
  fst (mutate DoShip Sample.state)
  = Throw (Domain (InvalidStateError "Order" "PENDING" "ship" (Some ["CONFIRMED"])))
  /\ fst (mutateCustomer DoActivate Sample.customer)
     = Throw (Domain (InvalidStateError "Customer" "active" "activate" None))
  /\ isValidationError (fst (mutateCustomer (DoUpdateName "  ") Sample.customer))
     = true.
Proof. repeat split. Qed.
End Atomicity.

(* ===================================================================== *)
(** ** Items of an Order *)
(* ===================================================================== *)

Section HeapFacts.

Lemma omap_lookup_live {A B} (f : A -> option B) (l : list A) :
  Forall (fun x => is_Some (f x)) l ->
  forall i, omap f l !! i = l !! i ≫= f.
Proof.
  induction 1 as [|x l [y Hy] _ IH]; intros i; [now destruct i|].
  cbn. rewrite Hy. destruct i as [|i]; cbn; [now rewrite Hy | apply IH].
Qed.

Lemma omap_length_live {A B} (f : A -> option B) (l : list A) :
  Forall (fun x => is_Some (f x)) l -> length (omap f l) = length l.
Proof.
  induction 1 as [|x l [y Hy] _ IH]; [reflexivity|].
  cbn. rewrite Hy. cbn. now rewrite IH.
Qed.

Lemma elements_setElements (a : loc) (l : list loc) (h : Heap.t) :
  Heap.elements (Heap.setElements a l h) a = l.
Proof. unfold Heap.elements, Heap.setElements. cbn. now rewrite lookup_insert_eq. Qed.

Lemma elements_setElements_ne (a b : loc) (l : list loc) (h : Heap.t) :
  a <> b -> Heap.elements (Heap.setElements a l h) b = Heap.elements h b.
Proof.
  intros Hne. unfold Heap.elements, Heap.setElements. cbn.
  now rewrite lookup_insert_ne.
Qed.

Lemma elements_setItem (r : loc) (it : OrderItem.t) (h : Heap.t) (a : loc) :
  Heap.elements (Heap.setItem r it h) a = Heap.elements h a.
Proof. reflexivity. Qed.

Lemma item_setItem (r : loc) (it : OrderItem.t) (h : Heap.t) :
  Heap.item (Heap.setItem r it h) r = Some it.
Proof. unfold Heap.item, Heap.setItem. cbn. now rewrite lookup_insert_eq. Qed.

Lemma item_setItem_ne (r r' : loc) (it : OrderItem.t) (h : Heap.t) :
  r <> r' -> Heap.item (Heap.setItem r it h) r' = Heap.item h r'.
Proof.
  intros Hne. unfold Heap.item, Heap.setItem. cbn. now rewrite lookup_insert_ne.
Qed.

Lemma item_setItem_live (r r' : loc) (it : OrderItem.t) (h : Heap.t) :
  is_Some (Heap.item h r') -> is_Some (Heap.item (Heap.setItem r it h) r').
Proof.
  intros H. destruct (decide (r = r')) as [->|Hne].
  - rewrite item_setItem. eauto.
  - now rewrite item_setItem_ne.
Qed.

(** The location of a new array is not one of an array in use. *)
Lemma newArray_fresh (l : list loc) (h : Heap.t) (a : loc) :
  is_Some (Heap.arrays h !! a) -> fst (Heap.newArray l h) <> a.
Proof.
  intros Ha E. cbn in E. apply elem_of_dom in Ha. rewrite <- E in Ha.
  exact (is_fresh _ Ha).
Qed.
End HeapFacts.

Section AddItem.
Import Order Spec.

Lemma firstIndexOf_Some (pid : string) (items : list OrderItem.t) (i : nat) :
  firstIndexOf pid items = Some i ->
  exists it, items !! i = Some it /\ OrderItem.productId it = pid
             /\ forall j it', (j < i)%nat -> items !! j = Some it' ->
                              OrderItem.productId it' <> pid.
Proof.
  revert i. induction items as [|x items IH]; intros i; cbn; [discriminate|].
  destruct (String.eqb (OrderItem.productId x) pid) eqn:E.
  - intros [= <-]. apply String.eqb_eq in E. exists x. repeat split; auto.
    intros j it' Hj. lia.
  - apply String.eqb_neq in E.
    destruct (firstIndexOf pid items) as [k|]; cbn; [|discriminate].
    intros [= <-]. destruct (IH k eq_refl) as (it & Hit & Hp & Hmin).
    exists it. repeat split; auto.
    intros [|j] it' Hj; cbn.
    + intros [= <-]. exact E.
    + apply Hmin. lia.
Qed.

Lemma firstIndexOf_None (pid : string) (items : list OrderItem.t) :
  firstIndexOf pid items = None <->
  Forall (fun it => OrderItem.productId it <> pid) items.
Proof.
  induction items as [|x items IH]; cbn.
  - split; [constructor | reflexivity].
  - destruct (String.eqb (OrderItem.productId x) pid) eqn:E.
    + apply String.eqb_eq in E. split; [discriminate|].
      intros H. apply Forall_cons in H as [H _]. contradiction.
    + apply String.eqb_neq in E.
      destruct (firstIndexOf pid items) as [k|]; cbn.
      * split; [discriminate|]. intros H. apply Forall_cons in H as [_ H].
        apply IH in H. discriminate.
      * split; [|reflexivity]. intros _. constructor; [assumption|].
        now apply IH.
Qed.

Lemma findIndex_from_spec (h : Heap.t) (item : loc) (new : OrderItem.t)
    (l : list loc) :
  Heap.item h item = Some new ->
  Forall (fun r => is_Some (Heap.item h r)) l ->
  forall k : Z,
    findIndex_from h item l k =
      Return (match firstIndexOf (OrderItem.productId new) (omap (Heap.item h) l) with
              | Some i => (k + Z.of_nat i)%Z
              | None => (-1)%Z
              end).
Proof.
  intros Hnew. induction 1 as [|r l [e He] _ IH]; intros k; [reflexivity|].
  cbn. rewrite He, Hnew. cbn.
  destruct (String.eqb (OrderItem.productId e) (OrderItem.productId new)).
  - f_equal. lia.
  - rewrite IH.
    destruct (firstIndexOf _ _) as [i|]; cbn; [f_equal; lia | reflexivity].
Qed.

Lemma findIndex_from_dead (h : Heap.t) (item r : loc) (l : list loc) (k : Z) :
  Heap.item h item = None -> findIndex_from h item (r :: l) k = Throw TypeError.
Proof. intros H. cbn. rewrite H. now destruct (Heap.item h r). Qed.

Lemma addItem_run (o : t) (h : Heap.t) (item : loc) (new : OrderItem.t) :
  Forall (fun r => is_Some (Heap.item h r)) (Heap.elements h (_items o)) ->
  Heap.item h item = Some new ->
  addItem item (mkState o h) =
    if status_eqb (_status o) PENDING then
      match firstIndexOf (OrderItem.productId new)
              (omap (Heap.item h) (Heap.elements h (_items o))) with
      | Some i =>
          match Heap.at_index h (_items o) i with
          | Some (r, e) => (Return tt, mkState o (Heap.setItem r (merged e new) h))
          | None => (Return tt, mkState o h)
          end
      | None =>
          (Return tt,
           mkState o (Heap.setElements (_items o)
                        (Heap.elements h (_items o) ++ [item]) h))
      end
    else
      (Throw (Domain (InvalidStateError "Order" (statusString (_status o))
                        "add items" (Some ["PENDING"]))),
       mkState o h).
Proof.
  intros Hwf Hnew.
  unfold addItem, bindM, get_status, throw. cbn [heap this].
  destruct (status_eqb (_status o) PENDING); cbn [negb]; [|reflexivity].
  unfold findIndex. cbn [heap this].
  rewrite (findIndex_from_spec h item new _ Hnew Hwf).
  destruct (firstIndexOf _ _) as [i|]; [|reflexivity].
  replace (0 <=? 0 + Z.of_nat i)%Z with true
    by (symmetry; apply Z.leb_le; lia).
  unfold elementAt. cbn [heap this]. rewrite Z.add_0_l, Nat2Z.id.
  destruct (Heap.at_index h (_items o) i) as [[r e]|]; [|reflexivity].
  unfold readItem. cbn [heap this]. rewrite Hnew. reflexivity.
Qed.

(** C2. [addItem(item)] on an Order whose array holds live records.
    Unless the status is PENDING it throws an InvalidStateError with hint
    PENDING and changes nothing. Otherwise, with [i] the first line for
    the product of [item], the record of that line gets the sum of the
    two quantities and keeps its product, name and unit price, the array
    is untouched, and so are the lines held in other records; without
    such a line the array gets [item] as its new last element. *)
Theorem addItem_merges_or_appends
    (st : State) (item : loc) (new : OrderItem.t) :
  wellFormed st ->
  Heap.item (heap st) item = Some new ->
  let h := heap st in
  let a := _items (this st) in
  if status_eqb (status st) PENDING then
    match firstIndexOf (OrderItem.productId new) (itemsOf st) with
    | Some i =>
        exists r e,
          Heap.elements h a !! i = Some r
          /\ Heap.item h r = Some e
          /\ OrderItem.productId e = OrderItem.productId new
          /\ (let line :=
                OrderItem.mk (OrderItem.productId e) (OrderItem.productName e)
                  (OrderItem.quantity e + OrderItem.quantity new)%float
                  (OrderItem.unitPrice e) in
              let st' := mkState (this st) (Heap.setItem r line h) in
              addItem item st = (Return tt, st')
              /\ itemsOf st' !! i = Some line
              /\ length (itemsOf st') = length (itemsOf st)
              /\ forall j r', Heap.elements h a !! j = Some r' -> r' <> r ->
                              itemsOf st' !! j = itemsOf st !! j)
    | None =>
        let st' :=
          mkState (this st) (Heap.setElements a (Heap.elements h a ++ [item]) h) in
        addItem item st = (Return tt, st')
        /\ itemsOf st' = itemsOf st ++ [new]
    end
  else
    addItem item st =
      (Throw (Domain (InvalidStateError "Order" (statusString (status st))
                        "add items" (Some ["PENDING"]))),
       st).
Proof.
  destruct st as [o h]. unfold wellFormed, itemsOf, status. cbn [heap this].
  intros Hwf Hnew. rewrite (addItem_run o h item new Hwf Hnew).
  destruct (status_eqb (_status o) PENDING); [|reflexivity].
  destruct (firstIndexOf (OrderItem.productId new)
              (omap (Heap.item h) (Heap.elements h (_items o))))
    as [i|] eqn:Hf.
  - destruct (firstIndexOf_Some _ _ _ Hf) as (e & Hi & Hp & _).
    rewrite (omap_lookup_live _ _ Hwf) in Hi.
    unfold Heap.at_index.
    destruct (Heap.elements h (_items o) !! i) as [r|] eqn:Hr;
      [|discriminate Hi].
    cbn in Hi. rewrite Hi. exists r, e.
    assert (Hwf' : forall it,
               Forall (fun x => is_Some (Heap.item (Heap.setItem r it h) x))
                 (Heap.elements h (_items o))).
    { intros it. eapply Forall_impl; [exact Hwf|].
      intros x. apply item_setItem_live. }
    repeat split; auto.
    + rewrite (omap_lookup_live _ _ (Hwf' _)), Hr. cbn. apply item_setItem.
    + now rewrite (omap_length_live _ _ (Hwf' _)), (omap_length_live _ _ Hwf).
    + intros j r' Hj Hne.
      rewrite (omap_lookup_live _ _ (Hwf' _)), (omap_lookup_live _ _ Hwf), Hj.
      cbn. apply item_setItem_ne. congruence.
  - split; [reflexivity|].
    rewrite elements_setElements, omap_app. cbn.
    unfold Heap.item in *. cbn. rewrite Hnew. reflexivity.
Qed.

(** The test "should increment quantity if product already exists":
    2 + 3 = 5 units on the first line, and still two lines. *)
Lemma addItem_merges_or_appends_witness :
  exists r e,
    Heap.elements (heap Sample.state) 2%positive !! 0%nat = Some r
    /\ Heap.item (heap Sample.state) r = Some e
    /\ OrderItem.productId e = "prod-1"
    /\ (let line := OrderItem.mk (OrderItem.productId e) (OrderItem.productName e)
                      (OrderItem.quantity e + 3)%float (OrderItem.unitPrice e) in
        let st' := mkState Sample.order (Heap.setItem r line (heap Sample.state)) in
        addItem 4%positive Sample.state = (Return tt, st')
        /\ itemsOf st' !! 0%nat = Some line
        /\ length (itemsOf st') = 2%nat
        /\ forall j r', Heap.elements (heap Sample.state) 2%positive !! j = Some r' ->
                        r' <> r -> itemsOf st' !! j = itemsOf Sample.state !! j).
Proof.
  refine (addItem_merges_or_appends Sample.state 4%positive
            Sample.duplicateItem _ _).
  - unfold wellFormed. cbn. repeat constructor; eexists; reflexivity.
  - reflexivity.
Defined.
End AddItem.

(* ===================================================================== *)
(** ** The total of an Order *)
(* ===================================================================== *)

Section Total.
Import Order Spec.

Lemma fold_accumulate_throw (e : Thrown) (items : list OrderItem.t) :
  fold_left accumulate items (Throw e) = Throw e.
Proof. induction items as [|it items IH]; [reflexivity | exact IH]. Qed.

Lemma at_index_live (h : Heap.t) (a : loc) (i : nat) :
  Forall (fun r => is_Some (Heap.item h r)) (Heap.elements h a) ->
  Heap.at_index h a i
  = match Heap.elements h a !! i with
    | Some r => match omap (Heap.item h) (Heap.elements h a) !! i with
                | Some it => Some (r, it)
                | None => None
                end
    | None => None
    end.
Proof.
  intros Hwf. unfold Heap.at_index. rewrite (omap_lookup_live _ _ Hwf).
  destruct (Heap.elements h a !! i) as [r|]; [|reflexivity].
  cbn. now destruct (Heap.item h r).
Qed.

Lemma calculateTotal_loop_fold (h : Heap.t) (a : loc) :
  Forall (fun r => is_Some (Heap.item h r)) (Heap.elements h a) ->
  forall (n i : nat) (total : Price.t),
    (n + i = length (Heap.elements h a))%nat ->
    calculateTotal_loop h a n i total
    = fold_left accumulate (drop i (omap (Heap.item h) (Heap.elements h a)))
        (Return total).
Proof.
  intros Hwf. pose proof (omap_length_live _ _ Hwf) as Hlen.
  induction n as [|n IH]; intros i total Hn.
  - cbn. rewrite drop_ge by lia. reflexivity.
  - cbn [calculateTotal_loop]. rewrite (at_index_live _ _ _ Hwf).
    destruct (lookup_lt_is_Some_2 (Heap.elements h a) i ltac:(lia)) as [r Hr].
    destruct (lookup_lt_is_Some_2 (omap (Heap.item h) (Heap.elements h a)) i
                ltac:(lia)) as [it Hit].
    rewrite Hr, Hit, (drop_S _ _ _ Hit). cbn [fold_left].
    unfold accumulate at 2. cbn [bindR]. unfold lineTotal.
    destruct (Price.multiply _ _) as [itemTotal|e]; cbn [bindR];
      [|now rewrite fold_accumulate_throw].
    destruct (Price.add total itemTotal) as [total'|e]; cbn [bindR];
      [|now rewrite fold_accumulate_throw].
    apply IH. lia.
Qed.

(** The total is the fold of the specification over the item records. *)
Lemma calculateTotal_is_fold (st : State) :
  wellFormed st -> calculateTotal st = foldTotal (itemsOf st).
Proof.
  destruct st as [o h]. unfold wellFormed, itemsOf, calculateTotal.
  cbn [heap this]. intros Hwf.
  pose proof (omap_length_live _ _ Hwf) as Hlen.
  rewrite (at_index_live _ _ _ Hwf).
  destruct (Heap.elements h (_items o)) as [|r l] eqn:El; [reflexivity|].
  rewrite <- El in *. cbn [length Nat.eqb].
  replace (length (Heap.elements h (_items o)) =? 0)%nat with false
    by (rewrite El; reflexivity).
  destruct (omap (Heap.item h) (Heap.elements h (_items o))) as [|first rest] eqn:Eo.
  { rewrite El in Hlen. discriminate Hlen. }
  rewrite El at 1. cbn [lookup list_lookup]. cbn.
  unfold lineTotal.
  destruct (Price.multiply _ _) as [total|e]; cbn [bindR];
    [|now rewrite fold_accumulate_throw].
  rewrite (calculateTotal_loop_fold _ _ Hwf) by (rewrite El; cbn; lia).
  rewrite Eo. reflexivity.
Qed.

Lemma create_currency (amount : float) (c : Currency.t) (p : Price.t) :
  Price.create amount c = Return p ->
  Price.currency p = c /\ Price.create amount (Price.currency p) = Return p.
Proof.
  unfold Price.create. destruct (negb _ || _); [discriminate|].
  intros [= <-]. split; reflexivity.
Qed.

Lemma currency_eqb_eq (a b : Currency.t) : Currency.eqb a b = true <-> a = b.
Proof. destruct a, b; split; intros H; try reflexivity; discriminate H. Qed.

(** With all prices in currency [c] the arithmetic is the same, and the
    result is in [c]. *)
Lemma lineTotal_inCurrency (c : Currency.t) (it : OrderItem.t) (p : Price.t) :
  lineTotal (inCurrency c it) = Return p ->
  Price.currency p = c
  /\ lineTotal it = Return (Price.mk (Price.amount p) (currencyOf it)).
Proof.
  unfold lineTotal, inCurrency, Price.multiply, Price.create, currencyOf. cbn.
  destruct (negb (Number.isInteger _) || _); [discriminate|].
  destruct (negb (Number.isFinite _) || _); [discriminate|].
  intros [= <-]. split; reflexivity.
Qed.

Lemma lineTotal_currency (it : OrderItem.t) (p : Price.t) :
  lineTotal it = Return p -> Price.currency p = currencyOf it.
Proof.
  unfold lineTotal, Price.multiply.
  destruct (negb (Number.isInteger _) || _); [discriminate|].
  intros H. now apply create_currency in H as [H _].
Qed.

Lemma inCurrency_same (it : OrderItem.t) :
  inCurrency (currencyOf it) it = it.
Proof. destruct it as [pid pn q [am cu]]. reflexivity. Qed.

Lemma add_currency (p q r : Price.t) :
  Price.add p q = Return r -> Price.currency r = Price.currency p.
Proof.
  unfold Price.add. destruct (negb _); [discriminate|].
  intros H. now apply create_currency in H as [H _].
Qed.

Lemma add_other_currency (p q : Price.t) :
  Currency.eqb (Price.currency p) (Price.currency q) = false ->
  Price.add p q =
    Throw (Domain (BusinessRuleViolationError "CurrencyMatch"
                     "Cannot add prices with different currencies"
                     [("currency1", VString (Currency.toString (Price.currency p)));
                      ("currency2", VString (Currency.toString (Price.currency q)))])).
Proof. unfold Price.add. now intros ->. Qed.

Lemma create_throw_kind (amount : float) (c : Currency.t) (e : Thrown) :
  Price.create amount c = Throw e -> isValidationError (@Throw Price.t e) = true.
Proof.
  unfold Price.create. destruct (negb _ || _); [|discriminate].
  now intros [= <-].
Qed.

Lemma lineTotal_throw_kind (it : OrderItem.t) (e : Thrown) :
  lineTotal it = Throw e -> isValidationError (@Throw Price.t e) = true.
Proof.
  unfold lineTotal, Price.multiply. destruct (negb _ || _).
  - now intros [= <-].
  - apply create_throw_kind.
Qed.

Lemma add_throw_kind (p q : Price.t) (e : Thrown) :
  Price.add p q = Throw e ->
  isBusinessRuleViolation (@Throw Price.t e)
  || isValidationError (@Throw Price.t e) = true.
Proof.
  unfold Price.add. destruct (negb _).
  - now intros [= <-].
  - intros H. apply create_throw_kind in H. rewrite H. apply orb_true_r.
Qed.

Lemma accumulate_step (total : Price.t) (it : OrderItem.t) :
  accumulate (Return total) it
  = (let! itemTotal := lineTotal it in Price.add total itemTotal).
Proof. reflexivity. Qed.

(** The accumulation fails on items of another currency than the running
    total: with the error of [add], or earlier with a ValidationError. *)
Lemma fold_mixed_fails (rest : list OrderItem.t) :
  forall total : Price.t,
    Exists (fun it => Currency.eqb (Price.currency total) (currencyOf it) = false)
      rest ->
    (isBusinessRuleViolation (fold_left accumulate rest (Return total))
     || isValidationError (fold_left accumulate rest (Return total)) = true)
    /\ (forall sum,
           fold_left accumulate (map (inCurrency (Price.currency total)) rest)
             (Return total) = Return sum ->
           isBusinessRuleViolation (fold_left accumulate rest (Return total))
           = true).
Proof.
  induction rest as [|it rest IH]; intros total Hex; [inversion Hex|].
  cbn [fold_left map]. rewrite !accumulate_step.
  destruct (Currency.eqb (Price.currency total) (currencyOf it)) eqn:Ec.
  - (* same currency: the step is the same on both sides *)
    apply currency_eqb_eq in Ec.
    apply Exists_cons in Hex as [Hex|Hex]; [rewrite Ec in Hex;
      assert (Currency.eqb (currencyOf it) (currencyOf it) = true)
        by (now apply currency_eqb_eq); congruence|].
    rewrite Ec, inCurrency_same.
    destruct (lineTotal it) as [itemTotal|e] eqn:El; cbn [bindR].
    + destruct (Price.add total itemTotal) as [total'|e] eqn:Ea; cbn [bindR].
      * pose proof (add_currency _ _ _ Ea) as Hc.
        rewrite <- Ec, <- Hc. apply IH. now rewrite Hc.
      * rewrite !fold_accumulate_throw. split; [|discriminate].
        now apply add_throw_kind in Ea.
    + rewrite !fold_accumulate_throw. split; [|discriminate].
      apply lineTotal_throw_kind in El. rewrite El. apply orb_true_r.
  - (* another currency: multiply, then add refuses *)
    destruct (lineTotal (inCurrency (Price.currency total) it))
      as [unified|e] eqn:Eu; cbn [bindR].
    + apply lineTotal_inCurrency in Eu as [_ El]. rewrite El. cbn [bindR].
      rewrite add_other_currency by exact Ec.
      rewrite fold_accumulate_throw. split; [reflexivity|]. intros; reflexivity.
    + split; [|rewrite fold_accumulate_throw; discriminate].
      destruct (lineTotal it) as [itemTotal|e'] eqn:El; cbn [bindR].
      * pose proof (lineTotal_currency _ _ El) as Hc.
        rewrite add_other_currency by (now rewrite Hc).
        now rewrite fold_accumulate_throw.
      * rewrite fold_accumulate_throw.
        apply lineTotal_throw_kind in El. rewrite El. apply orb_true_r.
Qed.
End Total.

Section TotalClaims.
Import Order Spec.

(** C3, as the code has it. For an Order whose array holds live records:
    [calculateTotal()] is the left-to-right fold that starts from the
    first line total and adds each further line total; without items it
    is zero US dollars; with items in more than one currency it never
    returns: it throws the BusinessRuleViolationError of [add], unless
    [multiply] or [create] throws a ValidationError before, which does
    not happen when the same lines in one currency have a total. The
    order of the tests (2 at 10 EUR, 1 at 20 EUR) totals 40 EUR. *)
Theorem calculateTotal_folds_line_totals :
  (forall st : State,
      wellFormed st ->
      calculateTotal st = foldTotal (itemsOf st)
      /\ (itemsOf st = [] ->
          calculateTotal st = Return (Price.mk 0 Currency.USD))
      /\ (mixedCurrencies (itemsOf st) ->
          (isBusinessRuleViolation (calculateTotal st)
           || isValidationError (calculateTotal st) = true)
          /\ (forall sum,
                 foldTotal (inOneCurrency (itemsOf st)) = Return sum ->
                 isBusinessRuleViolation (calculateTotal st) = true)))
  /\ wellFormed Sample.state
  /\ calculateTotal Sample.state = Return (Price.mk 40 Currency.EUR).
Proof.
  split; [|split; [|reflexivity]].
  - intros st Hwf. rewrite (calculateTotal_is_fold st Hwf).
    split; [reflexivity|]. split.
    + intros ->. reflexivity.
    + destruct (itemsOf st) as [|first rest]; [intros []|].
      cbn [mixedCurrencies inOneCurrency foldTotal map]. intros Hex.
      rewrite inCurrency_same.
      destruct (lineTotal first) as [total|e] eqn:El.
      * pose proof (lineTotal_currency _ _ El) as Hc. rewrite <- Hc in *.
        now apply fold_mixed_fails.
      * rewrite !fold_accumulate_throw. split; [|discriminate].
        apply lineTotal_throw_kind in El. rewrite El. apply orb_true_r.
  - unfold wellFormed. cbn. repeat constructor; eexists; reflexivity.
Qed.

Lemma calculateTotal_folds_line_totals_witness :
  calculateTotal Sample.state = foldTotal (itemsOf Sample.state).
Proof.
  apply (proj1 calculateTotal_folds_line_totals Sample.state).
  apply (proj1 (proj2 calculateTotal_folds_line_totals)).
Defined.

(** An Order of two lines in two currencies, the first with quantity 2.5:
    the total fails in [multiply] with a ValidationError, not with a
    BusinessRuleViolationError. So does one whose quantities are integers
    and whose prices are what [Price.create] returns, when the first line
    total, 1e300 times 1e10, is beyond the doubles. *)
Lemma calculateTotal_mixed_currencies_validation_error :
  (wellFormed Sample.mixedState
   /\ itemsOf Sample.mixedState = [Sample.halfItem; Sample.dollarItem]
   /\ mixedCurrencies (itemsOf Sample.mixedState)
   /\ calculateTotal Sample.mixedState
      = Throw (Domain (DomainErrors.single "Price" "quantity"
                         "Must be a positive integer" (VNumber 2.5)))
   /\ isBusinessRuleViolation (calculateTotal Sample.mixedState) = false)
  /\ (wellFormed Sample.hugeState
      /\ itemsOf Sample.hugeState = [Sample.hugeItem; Sample.dollarItem]
      /\ mixedCurrencies (itemsOf Sample.hugeState)
      /\ Number.isInteger 1e300 = true
      /\ Price.create 1e10 Currency.EUR = Return (Price.mk 1e10 Currency.EUR)
      /\ calculateTotal Sample.hugeState
         = Throw (Domain (DomainErrors.single "Price" "amount"
                            "Must be a positive finite number" (VNumber infinity)))
      /\ isBusinessRuleViolation (calculateTotal Sample.hugeState) = false).
Proof.
  split; repeat split;
    try (unfold wellFormed; cbn; repeat constructor; eexists; reflexivity);
    cbn; constructor; reflexivity.
Qed.
End TotalClaims.

(* ===================================================================== *)
(** ** What the caller shares with an Order *)
(* ===================================================================== *)

Section Sharing.
Import Order Spec.

Lemma create_run (randomUUID : string) (now : Z) (email : Email.t)
    (items : loc) (h : Heap.t) (o : t) (h1 : Heap.t) :
  create randomUUID now email items h = (Return o, h1) ->
  Heap.elements h items <> []
  /\ _items o = fresh (dom (Heap.arrays h))
  /\ _status o = PENDING
  /\ h1 = Heap.setElements (_items o) (Heap.elements h items) h.
Proof.
  unfold create.
  destruct (Heap.elements h items) as [|r l] eqn:El; [discriminate|].
  cbn [length Nat.eqb]. destruct (OrderId.generate randomUUID); [|discriminate].
  cbn. intros [= <- <-]. cbn. repeat split. discriminate.
Qed.

(** C5, as the code has it: the array is copied, the records are not.
    The accessor [items] returns a new array with the elements of the
    Order's array, and [create] gives the Order a new array with the
    elements of the one it receives; whatever the caller then stores in
    the array it holds, the array and the items of the Order are what
    they were. *)
Theorem items_array_is_copied :
  (forall (st : State) (copy : loc) (st1 : State),
      is_Some (Heap.arrays (heap st) !! _items (this st)) ->
      items st = (Return copy, st1) ->
      copy <> _items (this st)
      /\ this st1 = this st
      /\ Heap.elements (heap st1) copy = Heap.elements (heap st) (_items (this st))
      /\ itemsOf st1 = itemsOf st
      /\ forall l' : list loc,
          let st2 := mkState (this st1) (Heap.setElements copy l' (heap st1)) in
          Heap.elements (heap st2) (_items (this st2))
          = Heap.elements (heap st) (_items (this st))
          /\ itemsOf st2 = itemsOf st)
  /\ (forall randomUUID now email (passed : loc) (h : Heap.t) (o : t) (h1 : Heap.t),
         is_Some (Heap.arrays h !! passed) ->
         create randomUUID now email passed h = (Return o, h1) ->
         _items o <> passed
         /\ Heap.elements h1 (_items o) = Heap.elements h passed
         /\ forall l' : list loc,
             let h2 := Heap.setElements passed l' h1 in
             Heap.elements h2 (_items o) = Heap.elements h passed
             /\ itemsOf (mkState o h2) = itemsOf (mkState o h1)).
Proof.
  split.
  - intros [o h] copy st1 Ha. unfold items. cbn [heap this] in *.
    intros [= <- <-]. cbn [heap this].
    pose proof (newArray_fresh (Heap.elements h (_items o)) h _ Ha) as Hne.
    cbn in Hne. set (copy := fresh (dom (Heap.arrays h))) in *.
    assert (E1 : forall l h', Heap.elements (Heap.setElements copy l h') (_items o)
                              = Heap.elements h' (_items o))
      by (intros; now apply elements_setElements_ne).
    unfold itemsOf. cbn [heap this]. rewrite elements_setElements, !E1.
    repeat split; auto; now rewrite !E1.
  - intros randomUUID now email passed h o h1 Ha Hc.
    apply create_run in Hc as (_ & Ho & _ & ->).
    assert (Hne : passed <> _items o).
    { rewrite Ho. intros E. apply elem_of_dom in Ha. rewrite E in Ha.
      exact (is_fresh _ Ha). }
    assert (E1 : forall l h', Heap.elements (Heap.setElements passed l h') (_items o)
                              = Heap.elements h' (_items o))
      by (intros; now apply elements_setElements_ne).
    unfold itemsOf. cbn [heap this].
    repeat split; auto; rewrite ?E1, ?elements_setElements; reflexivity.
Qed.

(** The test "should create defensive copy of items": after the caller
    pushes a third item on the array it passed, the Order has two. *)
Lemma items_array_is_copied_witness :
  itemsOf (mkState Sample.order
             (Heap.setElements Sample.sampleItems
                [1%positive; 2%positive; 3%positive] (heap Sample.state)))
  = itemsOf Sample.state.
Proof.
  refine (proj2 (proj2 (proj2 (proj2 items_array_is_copied Sample.uuid 0%Z
            Sample.customerEmail Sample.sampleItems Sample.callerHeap
            Sample.order (heap Sample.state) _ _))
            [1%positive; 2%positive; 3%positive])).
  - eexists; reflexivity.
  - reflexivity.
Defined.

(** [reconstitute] keeps the array it is given: what the caller stores in
    it afterwards is what the Order holds. *)
Lemma reconstitute_keeps_the_array
    (id : OrderId.t) (email : Email.t) (passed : loc) (s : OrderStatus)
    (createdAt : Z) (h : Heap.t) (l' : list loc) :
  let o := reconstitute id email passed s createdAt in
  Heap.elements (Heap.setElements passed l' h) (_items o) = l'.
Proof. apply elements_setElements. Qed.

(** The first record of the array that [items] returns is the record the
    Order holds, and the one the caller passed to [create]: after
    [order.items[0].quantity = 100] the Order has 100 units on its first
    line and another total. *)
Lemma items_records_are_shared :
  exists (copy : loc) (st1 : State),
    items Sample.state = (Return copy, st1)
    /\ Heap.at_index (heap st1) copy 0 = Some (1%positive, Sample.item1)
    /\ Heap.at_index Sample.callerHeap Sample.sampleItems 0
       = Some (1%positive, Sample.item1)
    /\ let st2 :=
         mkState (this st1)
           (Heap.setItem 1%positive (OrderItem.setQuantity 100 Sample.item1)
              (heap st1)) in
       itemsOf st1 = [Sample.item1; Sample.item2]
       /\ itemsOf st2 = [OrderItem.setQuantity 100 Sample.item1; Sample.item2]
       /\ calculateTotal st1 = Return (Price.mk 40 Currency.EUR)
       /\ calculateTotal st2 = Return (Price.mk 1020 Currency.EUR).
Proof. do 2 eexists. repeat split. Qed.
End Sharing.

(* ===================================================================== *)
(** ** The invariant of an Order *)
(* ===================================================================== *)

Section Invariant.
Import Order Spec.

Lemma productIds_setItem (h : Heap.t) (r : loc) (e line : OrderItem.t)
    (l : list loc) :
  Heap.item h r = Some e ->
  OrderItem.productId line = OrderItem.productId e ->
  map OrderItem.productId (omap (Heap.item (Heap.setItem r line h)) l)
  = map OrderItem.productId (omap (Heap.item h) l).
Proof.
  intros He Hp. induction l as [|x l IH]; [reflexivity|]. cbn.
  destruct (decide (r = x)) as [<-|Hne].
  - rewrite item_setItem, He. cbn. now rewrite Hp, IH.
  - rewrite (item_setItem_ne r x line h Hne).
    destruct (Heap.item h x); cbn; now rewrite IH.
Qed.

(** A successful mutator keeps live records, at least one item, and
    product identifiers that differ. *)
Lemma mutate_preserves_invariant (m : Mutator) (st st' : State) :
  wellFormed st -> invariant st ->
  mutate m st = (Return tt, st') ->
  wellFormed st' /\ invariant st'.
Proof.
  destruct st as [o h]. unfold wellFormed, invariant, productIds, itemsOf.
  cbn [heap this]. intros Hwf [Hne Hnd].
  destruct m as [| | | |item]; cbn [mutate];
    try (destruct o as [i em l s cr]; destruct s; cbn;
         intros [= <-]; cbn; auto).
  destruct (Heap.item h item) as [new|] eqn:Hnew.
  - rewrite (addItem_run o h item new Hwf Hnew).
    destruct (status_eqb (_status o) PENDING); [|discriminate].
    destruct (firstIndexOf _ _) as [i|] eqn:Hf.
    + unfold Heap.at_index.
      destruct (Heap.elements h (_items o) !! i) as [r|];
        [|intros [= <-]; cbn; auto].
      destruct (Heap.item h r) as [e|] eqn:He; intros [= <-]; cbn; auto.
      split; [eapply Forall_impl; [exact Hwf|]; intros x; apply item_setItem_live|].
      rewrite (productIds_setItem h r e (merged e new) _ He eq_refl).
      split; [|exact Hnd].
      intros E. apply (f_equal (map OrderItem.productId)) in E.
      rewrite elements_setItem in E.
      rewrite (productIds_setItem h r e (merged e new) _ He eq_refl) in E.
      destruct (omap (Heap.item h) (Heap.elements h (_items o)));
        [now apply Hne | discriminate E].
    + intros [= <-]. cbn [heap this].
      rewrite elements_setElements. split.
      * apply Forall_app. split; [exact Hwf|].
        constructor; [|constructor]. unfold Heap.item in *. cbn. eauto.
      * rewrite omap_app. cbn. unfold Heap.item in *. cbn. rewrite Hnew. cbn.
        split; [intros E; now apply app_eq_nil in E as [_ E]|].
        rewrite map_app. cbn. apply NoDup_app. repeat split; auto.
        -- intros pid Hin Hin'. apply list_elem_of_singleton in Hin'. subst pid.
           apply firstIndexOf_None in Hf.
           apply list_elem_of_fmap in Hin as (it & Hp & Hit).
           rewrite Forall_forall in Hf. now apply (Hf it Hit).
        -- apply NoDup_singleton.
  - destruct (Heap.elements h (_items o)) as [|r l] eqn:El;
      [now cbn in Hne|].
    cbv [addItem bindM get_status throw findIndex heap this].
    destruct (negb _); [discriminate|].
    rewrite El, (findIndex_from_dead h item r l 0 Hnew). discriminate.
Qed.

Lemma reaches_preserves_invariant (st st' : State) :
  reaches st st' ->
  wellFormed st -> invariant st -> wellFormed st' /\ invariant st'.
Proof.
  induction 1 as [st|st m st' st'' _ IH Hm]; intros Hwf Hinv; [auto|].
  destruct (IH Hwf Hinv) as [Hwf' Hinv'].
  exact (mutate_preserves_invariant m st' st'' Hwf' Hinv' Hm).
Qed.

(** X12. From an array of live records for distinct products, [create] gives
    an Order that satisfies the invariant, and so does every Order
    reached from it by successful mutator calls. *)
Lemma invariant_from_distinct_products
    (randomUUID : string) (now : Z) (email : Email.t) (passed : loc)
    (h h1 : Heap.t) (o : t) (st' : State) :
  Forall (fun r => is_Some (Heap.item h r)) (Heap.elements h passed) ->
  NoDup (map OrderItem.productId (omap (Heap.item h) (Heap.elements h passed))) ->
  create randomUUID now email passed h = (Return o, h1) ->
  reaches (mkState o h1) st' ->
  invariant st'.
Proof.
  intros Hwf Hnd Hc Hr. apply create_run in Hc as (Hne & _ & _ & ->).
  refine (proj2 (reaches_preserves_invariant _ _ Hr _ _)).
  - unfold wellFormed. cbn [heap this]. now rewrite elements_setElements.
  - unfold invariant, productIds, itemsOf. cbn [heap this].
    rewrite elements_setElements. split; [|exact Hnd].
    intros E. change (omap (Heap.item h) (Heap.elements h passed) = []) in E.
    apply (f_equal length) in E.
    rewrite (omap_length_live _ _ Hwf) in E.
    destruct (Heap.elements h passed); [now apply Hne | discriminate E].
Qed.

(** C6, at the input where the code departs from it. [create] takes an
    array with two lines for the same product as it is: the Order it
    returns has the product twice, against the invariant, where
    [addItem] would have merged the second line into the first. *)
Theorem create_keeps_duplicate_products :
  exists (o : t) (h1 : Heap.t),
    Heap.elements Sample.twiceTheSame 1%positive = [1%positive; 4%positive]
    /\ create Sample.uuid 0 Sample.customerEmail 1%positive Sample.twiceTheSame
       = (Return o, h1)
    /\ itemsOf (mkState o h1) = [Sample.item1; Sample.duplicateItem]
    /\ productIds (mkState o h1) = ["prod-1"; "prod-1"]
    /\ ~ invariant (mkState o h1)
    /\ productIds (snd (addItem 4%positive Sample.state)) = ["prod-1"; "prod-2"].
Proof.
  do 2 eexists. repeat split.
  intros [_ Hnd]. cbn in Hnd. apply NoDup_cons in Hnd as [Hin _].
  apply Hin. constructor.
Qed.
End Invariant.

(* ===================================================================== *)
(** ** Arithmetic of doubles *)
(* ===================================================================== *)
Section Binary64Facts.
Import Binary64.
Local Open Scope Z_scope.

Lemma fexp_eq (d : Z) : fexp prec emax d = Z.max (d - 53) (-1074).
Proof. reflexivity. Qed.

Lemma digits2_size (p : positive) : digits2_pos p = Pos.size p.
Proof. induction p as [p IH|p IH|]; cbn; now rewrite ?IH. Qed.

Lemma digits2_log2 (p : positive) : Z.pos (digits2_pos p) = Z.log2 (Z.pos p) + 1.
Proof. destruct p as [p|p|]; cbn; rewrite ?digits2_size; lia. Qed.

Lemma iter_xO (m d : positive) : Z.pos (Pos.iter xO m d) = Z.pos m * 2 ^ Z.pos d.
Proof.
  induction d as [|d IH] using Pos.peano_ind.
  - cbn. lia.
  - rewrite Pos.iter_succ, Pos2Z.inj_xO, IH, Pos2Z.inj_succ, Z.pow_succ_r by lia.
    lia.
Qed.

Lemma shl_align_spec (m : positive) (e e' : Z) :
  e' <= e ->
  snd (shl_align m e e') = e'
  /\ Z.pos (fst (shl_align m e e')) = Z.pos m * 2 ^ (e - e').
Proof.
  intros H. unfold shl_align.
  destruct (e' - e) as [|d|d] eqn:E; cbn [fst snd]; try lia.
  - assert (e' = e) by lia. subst. rewrite Z.sub_diag. split; lia.
  - rewrite iter_xO. split; [reflexivity|]. f_equal. f_equal. lia.
Qed.

Lemma shl_align_none (m : positive) (e e' : Z) :
  e <= e' -> shl_align m e e' = (m, e).
Proof.
  intros H. unfold shl_align. destruct (e' - e) eqn:E; try reflexivity; lia.
Qed.

Lemma iter_pos_nat {A} (f : A -> A) (p : positive) (x : A) :
  @SpecFloat.iter_pos A f p x = Nat.iter (Pos.to_nat p) f x.
Proof.
  revert x. induction p as [p IH|p IH|]; intros x; cbn [SpecFloat.iter_pos].
  - rewrite !IH, <- Nat.iter_succ_r, <- Nat.iter_add. f_equal. lia.
  - rewrite !IH, <- Nat.iter_add. f_equal. lia.
  - reflexivity.
Qed.

Lemma shr_1_nonneg (m : Z) (r s : bool) :
  0 <= m ->
  shr_1 (Build_shr_record m r s) = Build_shr_record (m / 2) (Z.odd m) (r || s).
Proof.
  intros H. rewrite <- Z.div2_div.
  destruct m as [|[p|p|]|]; try reflexivity; lia.
Qed.

Lemma shr_iter (k : nat) (M : Z) :
  0 <= M ->
  Nat.iter (S k) shr_1 (Build_shr_record M false false)
  = Build_shr_record (M / 2 ^ (Z.of_nat k + 1))
      (Z.odd (M / 2 ^ Z.of_nat k))
      (negb (M mod 2 ^ Z.of_nat k =? 0)).
Proof.
  intros HM. induction k as [|k IH].
  - cbn [Nat.iter]. rewrite shr_1_nonneg by exact HM.
    cbn. rewrite Z.div_1_r, Z.mod_1_r. reflexivity.
  - change (Nat.iter (S (S k)) shr_1 ?x) with (shr_1 (Nat.iter (S k) shr_1 x)).
    rewrite IH, shr_1_nonneg by (apply Z.div_pos; lia).
    replace (Z.of_nat (S k)) with (Z.of_nat k + 1) by lia.
    set (j := Z.of_nat k). assert (Hj : 0 <= j) by lia.
    assert (Hp : 0 < 2 ^ j) by (apply Z.pow_pos_nonneg; lia).
    assert (E2 : 2 ^ (j + 1) = 2 ^ j * 2) by (rewrite Z.pow_add_r by lia; reflexivity).
    f_equal.
    + rewrite Z.div_div by lia. f_equal.
      rewrite (Z.pow_add_r 2 (j + 1) 1) by lia. reflexivity.
    + rewrite E2, Z.rem_mul_r by lia.
      rewrite <- Z.bit0_odd, Z.bit0_eqb.
      pose proof (Z.mod_pos_bound M (2 ^ j) Hp) as Hb.
      pose proof (Z.mod_pos_bound (M / 2 ^ j) 2 ltac:(lia)) as Hb2.
      destruct (Z.eqb_spec ((M / 2 ^ j) mod 2) 1) as [E1|E1];
        destruct (Z.eqb_spec (M mod 2 ^ j) 0) as [E3|E3];
        destruct (Z.eqb_spec (M mod 2 ^ j + 2 ^ j * ((M / 2 ^ j) mod 2)) 0)
          as [E4|E4]; cbn; try reflexivity; exfalso; nia.
Qed.

Lemma pow2_pos (k : Z) : 0 <= k -> 0 < 2 ^ k.
Proof. intros. apply Z.pow_pos_nonneg; lia. Qed.

Lemma shr_shift (M e : Z) (p : positive) :
  0 <= M ->
  shr (Build_shr_record M false false) e (Z.pos p)
  = (Build_shr_record (M / 2 ^ Z.pos p)
       (Z.odd (M / 2 ^ (Z.pos p - 1)))
       (negb (M mod 2 ^ (Z.pos p - 1) =? 0)),
     e + Z.pos p).
Proof.
  intros HM. unfold shr. rewrite iter_pos_nat.
  destruct (Pos2Nat.is_succ p) as [j Hj]. rewrite Hj, shr_iter by exact HM.
  assert (Ej : Z.pos p = Z.of_nat j + 1) by lia.
  rewrite Ej. replace (Z.of_nat j + 1 - 1) with (Z.of_nat j) by lia.
  reflexivity.
Qed.

Lemma shr_exact (M e k : Z) :
  0 <= M -> 0 <= k -> M mod 2 ^ k = 0 ->
  shr (Build_shr_record M false false) e k
  = (Build_shr_record (M / 2 ^ k) false false, e + k).
Proof.
  intros HM Hk Hd. destruct k as [|p|p]; [| |lia].
  - cbn [shr]. now rewrite Z.div_1_r, Z.add_0_r.
  - rewrite shr_shift by exact HM.
    set (j := Z.pos p - 1). assert (Hj : 0 <= j) by lia.
    assert (Hp : 0 < 2 ^ j) by now apply pow2_pos.
    assert (E2 : 2 ^ Z.pos p = 2 * 2 ^ j).
    { replace (Z.pos p) with (1 + j) by lia.
      rewrite Z.pow_add_r by lia. reflexivity. }
    apply Z.div_exact in Hd; [|lia].
    set (q := M / 2 ^ Z.pos p) in *.
    assert (EM : M = (q * 2) * 2 ^ j) by lia.
    rewrite EM at 1 2. rewrite Z.div_mul, Z.mod_mul by lia.
    rewrite Z.mul_comm, Z.odd_mul. reflexivity.
Qed.

(** A mantissa [w] written at the exponent [c] its bits call for *)
Lemma log2_canon (w : positive) (c : Z) :
  0 <= c -> Z.log2 (Z.pos w * 2 ^ c) = c + Z.log2 (Z.pos w).
Proof. intros. apply Z.log2_mul_pow2; lia. Qed.

Lemma digits_shifted (w n : positive) (k : Z) :
  0 <= k -> Z.pos n = Z.pos w * 2 ^ k ->
  Z.pos (digits2_pos n) = Z.pos (digits2_pos w) + k.
Proof.
  intros Hk E. rewrite !digits2_log2, E, log2_canon by exact Hk. lia.
Qed.

Lemma finish_shifted (w : positive) (c k : Z) :
  0 <= k -> 0 <= c <= 2045 -> cexp (Z.pos w * 2 ^ c) = c ->
  finish (Z.pos w * 2 ^ k) (c - 1074 - k) = S754_finite false w (c - 1074).
Proof.
  intros Hk Hc Hcan. unfold cexp in Hcan. rewrite log2_canon in Hcan by lia.
  pose proof (pow2_pos k Hk) as Hp.
  destruct (Z.pos w * 2 ^ k) as [|n|n] eqn:En; try lia.
  unfold finish, shr_fexp. cbn [Zdigits2 shr_record_of_loc].
  rewrite (digits_shifted w n k Hk (eq_sym En)), fexp_eq, digits2_log2.
  replace (Z.max (Z.log2 (Z.pos w) + 1 + k + (c - 1074 - k) - 53) (-1074)
           - (c - 1074 - k)) with k by lia.
  rewrite shr_exact; [|lia|exact Hk|rewrite <- En; apply Z.mod_mul; lia].
  rewrite <- En, Z.div_mul by lia. cbn [shr_m].
  replace (c - 1074 - k + k) with (c - 1074) by lia.
  destruct (Z.leb_spec (c - 1074) (emax - prec)) as [_|H]; [reflexivity|].
  unfold emax, prec in H. lia.
Qed.

Lemma bra_split (mx ex : Z) (lx : location) :
  binary_round_aux prec emax false mx ex lx
  = finish (round_nearest_even (shr_m (fst (shr_fexp prec emax mx ex lx)))
              (loc_of_shr_record (fst (shr_fexp prec emax mx ex lx))))
      (snd (shr_fexp prec emax mx ex lx)).
Proof.
  unfold binary_round_aux, finish.
  destruct (shr_fexp prec emax mx ex lx) as [mrs' e']. reflexivity.
Qed.

Lemma bra_exact (w : positive) (c k : Z) :
  0 <= k -> 0 <= c <= 2045 -> cexp (Z.pos w * 2 ^ c) = c ->
  binary_round_aux prec emax false (Z.pos w * 2 ^ k) (c - 1074 - k) loc_Exact
  = S754_finite false w (c - 1074).
Proof.
  intros Hk Hc Hcan. rewrite bra_split.
  pose proof (finish_shifted w c 0 ltac:(lia) Hc Hcan) as Hf.
  rewrite Z.mul_1_r, Z.sub_0_r in Hf.
  unfold cexp in Hcan. rewrite log2_canon in Hcan by lia.
  pose proof (pow2_pos k Hk) as Hp.
  destruct (Z.pos w * 2 ^ k) as [|n|n] eqn:En; try lia.
  unfold shr_fexp. cbn [Zdigits2 shr_record_of_loc].
  rewrite (digits_shifted w n k Hk (eq_sym En)), fexp_eq, digits2_log2.
  replace (Z.max (Z.log2 (Z.pos w) + 1 + k + (c - 1074 - k) - 53) (-1074)
           - (c - 1074 - k)) with k by lia.
  rewrite shr_exact; [|lia|exact Hk|rewrite <- En; apply Z.mod_mul; lia].
  rewrite <- En, Z.div_mul by lia. cbn [fst snd shr_m loc_of_shr_record round_nearest_even].
  replace (c - 1074 - k + k) with (c - 1074) by lia. exact Hf.
Qed.

Lemma representable_split (v : Z) :
  0 < v -> representable v = true ->
  exists w : positive,
    v = Z.pos w * 2 ^ cexp v /\ 0 <= cexp v <= 2045.
Proof.
  unfold representable. intros Hv H.
  apply andb_true_iff in H as [H Hmax]. apply andb_true_iff in H as [_ Hd].
  apply Z.eqb_eq in Hd. apply Z.leb_le in Hmax.
  assert (Hc : 0 <= cexp v) by (unfold cexp; lia).
  pose proof (pow2_pos _ Hc) as Hp.
  apply Z.div_exact in Hd; [|lia].
  destruct (v / 2 ^ cexp v) as [|w|w] eqn:Ew; try nia.
  exists w. split; [lia | lia].
Qed.

Lemma ofUnits_canon (w : positive) (c : Z) :
  0 <= c -> cexp (Z.pos w * 2 ^ c) = c ->
  ofUnits (Z.pos w * 2 ^ c) = S754_finite false w (c - 1074).
Proof.
  intros Hc Hcan. unfold ofUnits. rewrite Hcan, Z.div_mul; [reflexivity|].
  pose proof (pow2_pos c Hc). lia.
Qed.

Lemma bounded_units (m : positive) (e : Z) :
  bounded prec emax m e = true ->
  -1074 <= e <= 971 /\ cexp (Z.pos m * 2 ^ (e + 1074)) = e + 1074.
Proof.
  unfold bounded, canonical_mantissa. intros H.
  apply andb_true_iff in H as [Hc He]. apply Z.eqb_eq in Hc.
  apply Z.leb_le in He. rewrite fexp_eq, digits2_log2 in Hc.
  unfold emax, prec in He.
  assert (-1074 <= e) by lia.
  unfold cexp. rewrite log2_canon by lia. lia.
Qed.

Lemma finite_ofUnits (m : positive) (e : Z) :
  bounded prec emax m e = true ->
  S754_finite false m e = ofUnits (Z.pos m * 2 ^ (e + 1074))
  /\ representable (Z.pos m * 2 ^ (e + 1074)) = true
  /\ 0 < Z.pos m * 2 ^ (e + 1074).
Proof.
  intros H. apply bounded_units in H as [He Hc].
  assert (Hp : 0 < 2 ^ (e + 1074)) by (apply pow2_pos; lia).
  split; [|split].
  - rewrite ofUnits_canon by (lia || exact Hc). f_equal. lia.
  - unfold representable. rewrite Hc, Z.mod_mul by lia.
    apply andb_true_iff. split; [apply andb_true_iff; split|].
    + apply Z.leb_le. lia.
    + reflexivity.
    + apply Z.leb_le. lia.
  - lia.
Qed.

Lemma binary_round_units (n : positive) (E v : Z) :
  -1074 <= E -> v = Z.pos n * 2 ^ (E + 1074) -> representable v = true ->
  binary_round prec emax false n E = ofUnits v.
Proof.
  intros HE Hv Hr.
  assert (Hp : 0 < 2 ^ (E + 1074)) by (apply pow2_pos; lia).
  destruct (representable_split v ltac:(lia) Hr) as (w & Ew & Hc).
  set (c := cexp v) in *.
  assert (Hcan : cexp (Z.pos w * 2 ^ c) = c) by (rewrite <- Ew; reflexivity).
  rewrite Ew, (ofUnits_canon w c) by (lia || exact Hcan).
  assert (Ht : fexp prec emax (Z.pos (digits2_pos n) + E) = c - 1074).
  { rewrite fexp_eq, digits2_log2. unfold c, cexp.
    rewrite Hv, log2_canon by lia. lia. }
  unfold binary_round. rewrite Ht.
  destruct (Z.le_gt_cases E (c - 1074)) as [Hle|Hgt].
  - rewrite shl_align_none by exact Hle.
    assert (En : Z.pos n = Z.pos w * 2 ^ (c - 1074 - E)).
    { apply (Z.mul_cancel_r _ _ (2 ^ (E + 1074))); [lia|].
      rewrite <- Z.mul_assoc, <- Z.pow_add_r by lia.
      replace (c - 1074 - E + (E + 1074)) with c by lia. lia. }
    rewrite En.
    replace E with (c - 1074 - (c - 1074 - E)) at 2 by lia.
    apply bra_exact; [lia | lia | exact Hcan].
  - destruct (shl_align_spec n E (c - 1074) ltac:(lia)) as [Es Em].
    destruct (shl_align n E (c - 1074)) as [m' e']. cbn [fst snd] in *. subst e'.
    assert (En : Z.pos m' = Z.pos w * 2 ^ 0).
    { rewrite Z.mul_1_r, Em.
      apply (Z.mul_cancel_r _ _ (2 ^ c)); [pose proof (pow2_pos c); lia|].
      rewrite <- Z.mul_assoc, <- Z.pow_add_r by lia.
      replace (E - (c - 1074) + c) with (E + 1074) by lia. lia. }
    rewrite En.
    replace (c - 1074) with (c - 1074 - 0) at 1 by lia.
    apply bra_exact; [lia | lia | exact Hcan].
Qed.

Lemma ofUnits_pos (v : Z) :
  0 < v -> representable v = true ->
  exists w : positive,
    ofUnits v = S754_finite false w (cexp v - 1074)
    /\ v = Z.pos w * 2 ^ cexp v /\ 0 <= cexp v <= 2045.
Proof.
  intros Hv Hr. destruct (representable_split v Hv Hr) as (w & Ew & Hc).
  exists w. split; [|split; assumption].
  assert (Hq : v / 2 ^ cexp v = Z.pos w).
  { symmetry. apply Z.div_unique_exact; [pose proof (pow2_pos (cexp v)); lia | lia]. }
  unfold ofUnits. now rewrite Hq.
Qed.

Lemma cexp_lt (v w : Z) : 0 < v -> 0 < w -> cexp v < cexp w -> v < w.
Proof.
  unfold cexp. intros Hv Hw H. apply Z.log2_lt_cancel. lia.
Qed.

Lemma SFcompare_units (v w : Z) :
  0 <= v -> 0 <= w -> representable v = true -> representable w = true ->
  SFcompare (ofUnits v) (ofUnits w) = Some (v ?= w).
Proof.
  intros Hv Hw Rv Rw.
  destruct (Z.eq_dec v 0) as [->|Nv]; destruct (Z.eq_dec w 0) as [->|Nw].
  - reflexivity.
  - destruct (ofUnits_pos w ltac:(lia) Rw) as (b & -> & Eb & Hb).
    cbn. destruct w; try lia; reflexivity.
  - destruct (ofUnits_pos v ltac:(lia) Rv) as (a & -> & Ea & Ha).
    cbn. destruct v; try lia; reflexivity.
  - destruct (ofUnits_pos v ltac:(lia) Rv) as (a & -> & Ea & Ha).
    destruct (ofUnits_pos w ltac:(lia) Rw) as (b & -> & Eb & Hb).
    cbn [SFcompare]. f_equal.
    destruct (Z.compare_spec (cexp v - 1074) (cexp w - 1074)) as [E|L|G].
    + assert (Ec : cexp w = cexp v) by lia. rewrite Ec in Eb.
      change (Pos.compare_cont Eq a b) with (Z.pos a ?= Z.pos b).
      assert (Hp : 0 < 2 ^ cexp v) by (apply pow2_pos; lia).
      rewrite (Zmult_compare_compat_r _ _ (2 ^ cexp v)) by lia.
      now rewrite <- Ea, <- Eb.
    + symmetry. apply Z.compare_lt_iff. apply cexp_lt; lia.
    + symmetry. apply Z.compare_gt_iff. apply cexp_lt; lia.
Qed.

Lemma SFadd_units (v w : Z) :
  0 <= v -> 0 <= w ->
  representable v = true -> representable w = true ->
  representable (v + w) = true ->
  SFadd prec emax (ofUnits v) (ofUnits w) = ofUnits (v + w).
Proof.
  intros Hv Hw Rv Rw Rs.
  destruct (Z.eq_dec v 0) as [->|Nv]; destruct (Z.eq_dec w 0) as [->|Nw].
  - reflexivity.
  - destruct (ofUnits_pos w ltac:(lia) Rw) as (b & E & _). rewrite Z.add_0_l.
    rewrite E. reflexivity.
  - destruct (ofUnits_pos v ltac:(lia) Rv) as (a & E & _). rewrite Z.add_0_r.
    rewrite E. reflexivity.
  - destruct (ofUnits_pos v ltac:(lia) Rv) as (a & -> & Ea & Ha).
    destruct (ofUnits_pos w ltac:(lia) Rw) as (b & -> & Eb & Hb).
    cbn [SFadd cond_Zopp].
    set (ez := Z.min (cexp v - 1074) (cexp w - 1074)).
    destruct (shl_align_spec a (cexp v - 1074) ez ltac:(lia)) as [_ Ea'].
    destruct (shl_align_spec b (cexp w - 1074) ez ltac:(lia)) as [_ Eb'].
    set (a' := fst (shl_align a (cexp v - 1074) ez)) in *.
    set (b' := fst (shl_align b (cexp w - 1074) ez)) in *.
    change (Z.pos a' + Z.pos b') with (Z.pos (a' + b')).
    cbn [binary_normalize].
    apply binary_round_units; [lia| |exact Rs].
    rewrite Pos2Z.inj_add, Ea', Eb', Z.mul_add_distr_r.
    rewrite <- !Z.mul_assoc, <- !Z.pow_add_r by lia.
    replace (cexp v - 1074 - ez + (ez + 1074)) with (cexp v) by lia.
    replace (cexp w - 1074 - ez + (ez + 1074)) with (cexp w) by lia.
    lia.
Qed.

Lemma SFsub_units (v w : Z) :
  0 <= w <= v ->
  representable v = true -> representable w = true ->
  representable (v - w) = true ->
  SFsub prec emax (ofUnits v) (ofUnits w) = ofUnits (v - w).
Proof.
  intros Hvw Rv Rw Rs.
  destruct (Z.eq_dec w 0) as [->|Nw].
  - rewrite Z.sub_0_r. destruct (Z.eq_dec v 0) as [->|Nv]; [reflexivity|].
    destruct (ofUnits_pos v ltac:(lia) Rv) as (a & E & _). rewrite E. reflexivity.
  - destruct (ofUnits_pos v ltac:(lia) Rv) as (a & -> & Ea & Ha).
    destruct (ofUnits_pos w ltac:(lia) Rw) as (b & -> & Eb & Hb).
    cbn [SFsub cond_Zopp].
    set (ez := Z.min (cexp v - 1074) (cexp w - 1074)).
    destruct (shl_align_spec a (cexp v - 1074) ez ltac:(lia)) as [_ Ea'].
    destruct (shl_align_spec b (cexp w - 1074) ez ltac:(lia)) as [_ Eb'].
    set (a' := fst (shl_align a (cexp v - 1074) ez)) in *.
    set (b' := fst (shl_align b (cexp w - 1074) ez)) in *.
    assert (Hp : 0 < 2 ^ (ez + 1074)) by (apply pow2_pos; lia).
    assert (Ev : v = Z.pos a' * 2 ^ (ez + 1074)).
    { rewrite Ea', <- Z.mul_assoc, <- Z.pow_add_r by lia.
      replace (cexp v - 1074 - ez + (ez + 1074)) with (cexp v) by lia. exact Ea. }
    assert (Ew : w = Z.pos b' * 2 ^ (ez + 1074)).
    { rewrite Eb', <- Z.mul_assoc, <- Z.pow_add_r by lia.
      replace (cexp w - 1074 - ez + (ez + 1074)) with (cexp w) by lia. exact Eb. }
    destruct (Z.pos a' - Z.pos b') as [|n|n] eqn:En.
    + replace (v - w) with 0 by nia. reflexivity.
    + cbn [binary_normalize].
      apply binary_round_units; [lia| |exact Rs]. nia.
    + exfalso. nia.
Qed.

Lemma quantum_pos : 0 < quantum.
Proof. apply pow2_pos. lia. Qed.

Lemma finish_integer (q : Z) :
  2 ^ 52 <= q <= 2 ^ 53 -> finish q 0 = ofUnits (q * quantum).
Proof.
  intros Hq. destruct (Z.eq_dec q (2 ^ 53)) as [->|Hne].
  - change (2 ^ 53) with (Z.pos 4503599627370496 * 2 ^ 1).
    change (Z.pos 4503599627370496 * 2 ^ 1 * quantum)
      with (Z.pos 4503599627370496 * (2 ^ 1 * 2 ^ 1074)).
    rewrite <- Z.pow_add_r by lia.
    assert (Hcan : cexp (Z.pos 4503599627370496 * 2 ^ (1 + 1074)) = 1 + 1074).
    { unfold cexp. rewrite log2_canon by lia. reflexivity. }
    rewrite ofUnits_canon by (lia || exact Hcan).
    change 0 with (1 + 1074 - 1074 - 1) at 1.
    apply finish_shifted; [lia | lia | exact Hcan].
  - destruct q as [|w|w]; try lia.
    assert (Hl : Z.log2 (Z.pos w) = 52).
    { apply Z.log2_unique; [lia|]. change (2 ^ (52 + 1)) with (2 ^ 53). lia. }
    assert (Hcan : cexp (Z.pos w * 2 ^ 1074) = 1074).
    { unfold cexp. rewrite log2_canon by lia. rewrite Hl. reflexivity. }
    unfold quantum. rewrite ofUnits_canon by (lia || exact Hcan).
    replace (Z.pos w) with (Z.pos w * 2 ^ 0) at 1 by lia.
    change 0 with (1074 - 1074 - 0) at 2.
    apply finish_shifted; [lia | lia | exact Hcan].
Qed.

(** Adding 2^52 to a double below it rounds the double to a whole
    number [n], half a quantum away at most. *)
Lemma SFadd_two52 (v : Z) :
  0 < v < 2 ^ 52 * quantum -> representable v = true ->
  exists n : Z,
    0 <= n <= 2 ^ 52
    /\ 2 * (n * quantum) - quantum <= 2 * v <= 2 * (n * quantum) + quantum
    /\ SFadd prec emax (ofUnits v) (S754_finite false 4503599627370496 0)
       = ofUnits ((2 ^ 52 + n) * quantum).
Proof.
  intros Hv Rv.
  destruct (ofUnits_pos v ltac:(lia) Rv) as (a & -> & Ea & Hc).
  set (c := cexp v) in *.
  assert (Hlog : Z.log2 v < 1126).
  { apply Z.log2_lt_pow2; [lia|]. unfold quantum in Hv.
    rewrite <- Z.pow_add_r in Hv by lia. exact (proj2 Hv). }
  assert (Hc1 : c < 1074) by (unfold c, cexp; lia).
  assert (Hla : Z.log2 (Z.pos a) <= 52).
  { assert (E : Z.log2 v = c + Z.log2 (Z.pos a))
      by (rewrite Ea at 1; apply log2_canon; lia).
    unfold c, cexp in *. lia. }
  assert (Ha : Z.pos a < 2 ^ 53).
  { apply Z.log2_lt_pow2; lia. }
  set (d := 1074 - c). assert (Hd : 0 < d) by (unfold d; lia).
  set (h := 2 ^ (d - 1)). assert (Hh : 0 < h) by (apply pow2_pos; lia).
  assert (ED : 2 ^ d = 2 * h).
  { unfold h. replace d with (1 + (d - 1)) at 1 by lia.
    rewrite Z.pow_add_r by lia. reflexivity. }
  assert (Hh1 : 1 <= h) by lia.
  set (C := 2 ^ c). assert (HC : 0 < C) by (apply pow2_pos; lia).
  assert (EU : quantum = 2 * h * C).
  { unfold quantum, C. rewrite <- ED, <- Z.pow_add_r by lia. f_equal. unfold d. lia. }
  fold C in Ea.
  (* the aligned sum *)
  cbn [SFadd cond_Zopp].
  replace (Z.min (c - 1074) 0) with (c - 1074) by lia.
  rewrite (shl_align_none a (c - 1074) (c - 1074)) by lia. cbn [fst].
  destruct (shl_align_spec 4503599627370496 0 (c - 1074) ltac:(lia)) as [_ Eb].
  set (b := fst (shl_align 4503599627370496 0 (c - 1074))) in *.
  replace (0 - (c - 1074)) with d in Eb by (unfold d; lia).
  rewrite ED in Eb. change (Z.pos 4503599627370496) with (2 ^ 52) in Eb.
  change (Z.pos a + Z.pos b) with (Z.pos (a + b)).
  assert (EM : Z.pos (a + b) = Z.pos a + 2 ^ 53 * h).
  { rewrite Pos2Z.inj_add, Eb. change (2 ^ 53) with (2 ^ 52 * 2). lia. }
  set (M := (a + b)%positive) in *.
  assert (HlM : Z.log2 (Z.pos M) = 52 + d).
  { apply Z.log2_unique; [lia|].
    rewrite Z.pow_succ_r, !Z.pow_add_r, ED by lia.
    change (2 ^ 53) with (2 ^ 52 * 2) in *. nia. }
  cbn [binary_normalize]. unfold binary_round.
  rewrite fexp_eq, digits2_log2, HlM.
  replace (Z.max (52 + d + 1 + (c - 1074) - 53) (-1074)) with 0 by (unfold d; lia).
  rewrite shl_align_none by lia.
  rewrite bra_split. unfold shr_fexp. cbn [Zdigits2 shr_record_of_loc].
  rewrite fexp_eq, digits2_log2, HlM.
  replace (Z.max (52 + d + 1 + (c - 1074) - 53) (-1074) - (c - 1074)) with d
    by (unfold d; lia).
  destruct d as [|p|p] eqn:Ep; try lia.
  rewrite shr_shift by lia. cbn [fst snd shr_m].
  replace (c - 1074 + Z.pos p) with 0 by lia.
  rewrite ED. fold h.
  (* quotient and remainder of the mantissa *)
  set (A := Z.pos a / (2 * h)). set (rem := Z.pos a mod (2 * h)).
  assert (Ediv : Z.pos a = 2 * h * A + rem) by (apply Z.div_mod; lia).
  assert (Hrem : 0 <= rem < 2 * h) by (apply Z.mod_pos_bound; lia).
  assert (HA : 0 <= A < 2 ^ 52).
  { split; [apply Z.div_pos; lia|].
    apply Z.div_lt_upper_bound; [lia|]. change (2 ^ 53) with (2 * 2 ^ 52) in Ha. nia. }
  set (bt := rem / h). set (t := rem mod h).
  assert (Erem : rem = h * bt + t) by (apply Z.div_mod; lia).
  assert (Ht : 0 <= t < h) by (apply Z.mod_pos_bound; lia).
  assert (Hbt : 0 <= bt <= 1).
  { split; [apply Z.div_pos; lia|].
    assert (bt < 2) by (apply Z.div_lt_upper_bound; lia). lia. }
  assert (Eq : Z.pos M / (2 * h) = 2 ^ 52 + A).
  { symmetry. apply (Z.div_unique _ _ _ rem); [lia|].
    rewrite EM, Ediv. change (2 ^ 53) with (2 * 2 ^ 52). ring. }
  assert (Eqh : Z.pos M / h = 2 * (2 ^ 52 + A) + bt).
  { symmetry. apply (Z.div_unique _ _ _ t); [lia|].
    rewrite EM, Ediv, Erem. change (2 ^ 53) with (2 * 2 ^ 52). ring. }
  assert (Emh : Z.pos M mod h = t).
  { symmetry. apply (Z.mod_unique _ _ (2 * (2 ^ 52 + A) + bt)); [lia|].
    rewrite EM, Ediv, Erem. change (2 ^ 53) with (2 * 2 ^ 52). ring. }
  rewrite Eq, Eqh, Emh.
  replace (Z.odd (2 * (2 ^ 52 + A) + bt)) with (bt =? 1)
    by (rewrite Z.add_comm, Z.odd_add_mul_2;
        destruct (Z.eq_dec bt 0) as [->| ]; [reflexivity|];
        replace bt with 1 by lia; reflexivity).
  set (q := 2 ^ 52 + A).
  assert (Hfin : forall n, 0 <= n <= 2 ^ 52 ->
            2 * (n * (2 * h)) - 2 * h <= 2 * Z.pos a <= 2 * (n * (2 * h)) + 2 * h ->
            exists n0, 0 <= n0 <= 2 ^ 52
              /\ 2 * (n0 * quantum) - quantum <= 2 * v <= 2 * (n0 * quantum) + quantum
              /\ finish (2 ^ 52 + n) 0 = ofUnits ((2 ^ 52 + n0) * quantum)).
  { intros n Hn Hdist. exists n. split; [exact Hn|]. split.
    - rewrite EU, Ea. nia.
    - apply finish_integer. change (2 ^ 53) with (2 ^ 52 + 2 ^ 52). lia. }
  destruct (Z.eqb_spec bt 1) as [B1|B0]; destruct (Z.eqb_spec t 0) as [T0|T1];
    cbn [negb loc_of_shr_record round_nearest_even].
  - destruct (Z.even q).
    + apply (Hfin A); lia.
    + replace (q + 1) with (2 ^ 52 + (A + 1)) by (unfold q; lia).
      apply (Hfin (A + 1)); lia.
  - replace (q + 1) with (2 ^ 52 + (A + 1)) by (unfold q; lia).
    apply (Hfin (A + 1)); lia.
  - apply (Hfin A); lia.
  - apply (Hfin A); lia.
Qed.

Lemma SFltb_units (v w : Z) :
  0 <= v -> 0 <= w -> representable v = true -> representable w = true ->
  SFltb (ofUnits v) (ofUnits w) = (v <? w).
Proof.
  intros. unfold SFltb. rewrite SFcompare_units by assumption.
  unfold Z.ltb. now destruct (v ?= w).
Qed.

Lemma SFleb_units (v w : Z) :
  0 <= v -> 0 <= w -> representable v = true -> representable w = true ->
  SFleb (ofUnits v) (ofUnits w) = (v <=? w).
Proof.
  intros. unfold SFleb. rewrite SFcompare_units by assumption.
  unfold Z.leb. now destruct (v ?= w).
Qed.

Lemma SFeqb_units (v w : Z) :
  0 <= v -> 0 <= w -> representable v = true -> representable w = true ->
  SFeqb (ofUnits v) (ofUnits w) = (v =? w).
Proof.
  intros. unfold SFeqb. rewrite SFcompare_units by assumption.
  rewrite Z.eqb_compare. now destruct (v ?= w).
Qed.

(** A multiple of [2^c] with no more than 53 bits above [c] is a double. *)
Lemma representable_multiple (w c : Z) :
  0 <= c <= 2045 -> 0 <= w < 2 ^ (c + 53) -> w mod 2 ^ c = 0 ->
  representable w = true.
Proof.
  intros Hc Hw Hd. destruct (Z.eq_dec w 0) as [->|Nw]; [reflexivity|].
  assert (Hl : Z.log2 w < c + 53) by (apply Z.log2_lt_pow2; lia).
  assert (Hcw : 0 <= cexp w <= c) by (unfold cexp; lia).
  unfold representable. apply andb_true_iff. split; [apply andb_true_iff; split|].
  - apply Z.leb_le. lia.
  - apply Z.eqb_eq. apply Z.div_exact in Hd; [|pose proof (pow2_pos c); lia].
    remember (cexp w) as cw eqn:Ecw. remember (w / 2 ^ c) as k eqn:Ek.
    rewrite Hd. replace c with (cw + (c - cw)) by lia.
    rewrite Z.pow_add_r, <- Z.mul_assoc, Z.mul_comm by lia.
    apply Z.mod_mul. pose proof (pow2_pos cw). lia.
  - apply Z.leb_le. lia.
Qed.

Lemma representable_integer (n : Z) :
  0 <= n <= 2 ^ 53 -> representable (n * quantum) = true.
Proof.
  intros Hn. destruct (Z.eq_dec n (2 ^ 53)) as [->|Hne].
  - apply (representable_multiple _ 1075); [lia| |].
    + unfold quantum. rewrite <- Z.pow_add_r by lia. split; [apply Z.pow_nonneg; lia|].
      apply Z.pow_lt_mono_r; lia.
    + unfold quantum. rewrite <- Z.pow_add_r by lia.
      replace (53 + 1074) with (52 + 1075) by lia.
      rewrite Z.pow_add_r by lia. apply Z.mod_mul. lia.
  - apply (representable_multiple _ 1074); [lia| |].
    + rewrite Z.pow_add_r by lia. fold quantum. pose proof quantum_pos. nia.
    + apply Z.mod_mul. pose proof quantum_pos. unfold quantum in *. lia.
Qed.

(** A double of at least 2^52 is a whole number. *)
Lemma large_is_integer (v : Z) :
  2 ^ 52 * quantum <= v -> representable v = true -> v mod quantum = 0.
Proof.
  intros Hv Rv. pose proof quantum_pos as HU.
  destruct (representable_split v ltac:(nia) Rv) as (w & Ew & Hc).
  assert (Hl : 1126 <= Z.log2 v).
  { apply Z.log2_le_pow2; [nia|]. unfold quantum in Hv.
    rewrite <- Z.pow_add_r in Hv by lia. exact Hv. }
  assert (Hc1 : 1074 <= cexp v) by (unfold cexp; lia).
  remember (cexp v) as c eqn:Ec.
  rewrite Ew. replace c with ((c - 1074) + 1074) by lia.
  rewrite Z.pow_add_r, Z.mul_assoc by lia. fold quantum. apply Z.mod_mul. lia.
Qed.

Lemma small_cexp (v : Z) :
  0 < v < 2 ^ 52 * quantum -> 0 <= cexp v <= 1073 /\ v < 2 ^ (cexp v + 53).
Proof.
  intros Hv.
  assert (Hl : Z.log2 v < 1126).
  { apply Z.log2_lt_pow2; [lia|]. unfold quantum in Hv.
    rewrite <- Z.pow_add_r in Hv by lia. exact (proj2 Hv). }
  split; [unfold cexp; lia|].
  destruct (Z.log2_spec v ltac:(lia)) as [_ Hup].
  eapply Z.lt_le_trans; [exact Hup|].
  apply Z.pow_le_mono_r; [lia|]. unfold cexp. lia.
Qed.

(** What is left of a double below 2^52 when whole units are taken away
    is a double. *)
Lemma representable_rest (v k : Z) :
  0 < v < 2 ^ 52 * quantum -> representable v = true ->
  0 <= k -> k * quantum <= v ->
  representable (v - k * quantum) = true.
Proof.
  intros Hv Rv Hk Hle. pose proof quantum_pos as HU.
  destruct (small_cexp v Hv) as [Hc Hup].
  destruct (representable_split v ltac:(lia) Rv) as (w & Ew & _).
  apply (representable_multiple _ (cexp v)); [lia|nia|].
  assert (EU : quantum = 2 ^ (1074 - cexp v) * 2 ^ cexp v).
  { unfold quantum. rewrite <- Z.pow_add_r by lia. f_equal. lia. }
  rewrite Ew at 1. rewrite EU at 1.
  replace (Z.pos w * 2 ^ cexp v - k * (2 ^ (1074 - cexp v) * 2 ^ cexp v))
    with ((Z.pos w - k * 2 ^ (1074 - cexp v)) * 2 ^ cexp v) by ring.
  apply Z.mod_mul. pose proof (pow2_pos (cexp v)). lia.
Qed.

(** *** Constants of the code *)

Lemma Prim2SF_zero : Prim2SF 0 = ofUnits 0.
Proof. reflexivity. Qed.

Lemma Prim2SF_two52 :
  Prim2SF Number.two52 = S754_finite false 4503599627370496 0
  /\ Prim2SF Number.two52 = ofUnits (2 ^ 52 * quantum).
Proof.
  split; [reflexivity|].
  change (Prim2SF Number.two52) with (S754_finite false 4503599627370496 0).
  apply (finite_ofUnits 4503599627370496 0). reflexivity.
Qed.

Lemma Prim2SF_one : Prim2SF 1 = ofUnits (1 * quantum).
Proof.
  change (Prim2SF 1) with (S754_finite false 4503599627370496 (-52)).
  replace (1 * quantum) with (Z.pos 4503599627370496 * 2 ^ (-52 + 1074)).
  - apply (finite_ofUnits 4503599627370496 (-52)). reflexivity.
  - change (Z.pos 4503599627370496) with (2 ^ 52).
    rewrite <- Z.pow_add_r by lia. unfold quantum. rewrite Z.mul_1_l. reflexivity.
Qed.

Lemma Prim2SF_half :
  Prim2SF 0.5 = ofUnits (2 ^ 1073) /\ representable (2 ^ 1073) = true
  /\ 2 * 2 ^ 1073 = quantum.
Proof.
  assert (E : 2 ^ 1073 = Z.pos 4503599627370496 * 2 ^ (-53 + 1074)).
  { change (Z.pos 4503599627370496) with (2 ^ 52).
    rewrite <- Z.pow_add_r by lia. reflexivity. }
  change (Prim2SF 0.5) with (S754_finite false 4503599627370496 (-53)).
  rewrite E at 1 2.
  destruct (finite_ofUnits 4503599627370496 (-53) eq_refl) as (E1 & E2 & _).
  split; [exact E1|split; [exact E2|]].
  unfold quantum. change 1074 with (1 + 1073). rewrite Z.pow_add_r by lia. reflexivity.
Qed.

Lemma SFabs_ofUnits (v : Z) : SFabs (ofUnits v) = ofUnits v.
Proof. unfold ofUnits. now destruct (v / 2 ^ cexp v). Qed.

Lemma is_finite_units (x : float) (v : Z) :
  Prim2SF x = ofUnits v -> 0 <= v -> representable v = true ->
  is_finite x = true.
Proof.
  intros H Hv Rv. unfold is_finite, is_nan, is_infinity.
  rewrite !FloatAxioms.eqb_spec, FloatAxioms.abs_spec, H, SFabs_ofUnits, SFeqb_units by assumption.
  rewrite Z.eqb_refl. cbn [negb orb].
  unfold ofUnits. now destruct (v / 2 ^ cexp v).
Qed.

(** *** Math.floor and Math.round on the doubles above zero *)

Lemma floor_from_nearest (v n : Z) :
  2 * (n * quantum) - quantum <= 2 * v <= 2 * (n * quantum) + quantum ->
  v / quantum = if v <? n * quantum then n - 1 else n.
Proof.
  intros H. pose proof quantum_pos as HU. symmetry.
  destruct (Z.ltb_spec v (n * quantum)).
  - apply (Z.div_unique _ _ _ (v - (n - 1) * quantum)); lia.
  - apply (Z.div_unique _ _ _ (v - n * quantum)); lia.
Qed.

Lemma Math_floor_units (x : float) (v : Z) :
  Prim2SF x = ofUnits v -> 0 < v -> representable v = true ->
  Prim2SF (Number.Math_floor x) = ofUnits (v / quantum * quantum).
Proof.
  intros H Hv Rv. pose proof quantum_pos as HU.
  destruct Prim2SF_two52 as [T1 T2].
  assert (R52 : representable (2 ^ 52 * quantum) = true)
    by (apply representable_integer; lia).
  unfold Number.Math_floor.
  rewrite FloatAxioms.ltb_spec, FloatAxioms.abs_spec, H, SFabs_ofUnits, T2, SFltb_units
    by (assumption || lia).
  destruct (Z.ltb_spec v (2 ^ 52 * quantum)) as [Hs|Hl]; cbn [negb].
  - rewrite (FloatAxioms.ltb_spec x 0), H, Prim2SF_zero, SFltb_units
      by (assumption || lia || reflexivity).
    replace (v <? 0) with false by (symmetry; apply Z.ltb_ge; lia).
    cbv zeta.
    destruct (SFadd_two52 v ltac:(lia) Rv) as (n & Hn & Hd & Ha).
    set (r := (x + Number.two52 - Number.two52)%float).
    assert (Rn : representable (n * quantum) = true)
      by (apply representable_integer; lia).
    assert (Hr : Prim2SF r = ofUnits (n * quantum)).
    { unfold r. rewrite FloatAxioms.sub_spec, FloatAxioms.add_spec, H, T1.
      unfold SF64sub, SF64add. rewrite Ha, <- T1, T2.
      rewrite SFsub_units.
      - f_equal. lia.
      - nia.
      - apply representable_integer. lia.
      - exact R52.
      - replace ((2 ^ 52 + n) * quantum - 2 ^ 52 * quantum) with (n * quantum) by lia.
        exact Rn. }
    rewrite (floor_from_nearest v n Hd).
    rewrite FloatAxioms.ltb_spec, H, Hr, SFltb_units by (assumption || nia).
    destruct (Z.ltb_spec v (n * quantum)) as [Hlt|Hge]; [|exact Hr].
    rewrite FloatAxioms.sub_spec, Hr, Prim2SF_one. unfold SF64sub.
    assert (1 <= n) by nia.
    rewrite SFsub_units.
    + f_equal. lia.
    + nia.
    + exact Rn.
    + apply representable_integer. lia.
    + replace (n * quantum - 1 * quantum) with ((n - 1) * quantum) by lia.
      apply representable_integer. lia.
  - rewrite H. f_equal.
    pose proof (large_is_integer v Hl Rv) as Hm.
    apply Z.div_exact in Hm; lia.
Qed.

Lemma half_up_cases (v : Z) :
  0 <= v ->
  (v + 2 ^ 1073) / quantum
  = if 2 ^ 1073 <=? v - v / quantum * quantum then v / quantum + 1 else v / quantum.
Proof.
  intros Hv. pose proof quantum_pos as HU.
  destruct Prim2SF_half as (_ & _ & EH).
  pose proof (Z.div_mod v quantum ltac:(lia)) as Ed.
  pose proof (Z.mod_pos_bound v quantum HU) as Hb.
  set (q := v / quantum) in *. set (rem := v mod quantum) in *.
  symmetry. destruct (Z.leb_spec (2 ^ 1073) (v - q * quantum)).
  - apply (Z.div_unique _ _ _ (rem - 2 ^ 1073)); lia.
  - apply (Z.div_unique _ _ _ (rem + 2 ^ 1073)); lia.
Qed.

(** [Math.round] of a double above zero is the whole number
    [floor (x + 1/2)]. *)
Lemma Math_round_units (x : float) (v : Z) :
  Prim2SF x = ofUnits v -> 0 < v -> representable v = true ->
  Prim2SF (Number.Math_round x) = ofUnits ((v + 2 ^ 1073) / quantum * quantum).
Proof.
  intros H Hv Rv. pose proof quantum_pos as HU.
  destruct Prim2SF_half as (PH & RH & EH).
  pose proof (Math_floor_units x v H Hv Rv) as Hf.
  pose proof (Z.div_mod v quantum ltac:(lia)) as Ed.
  pose proof (Z.mod_pos_bound v quantum HU) as Hb.
  assert (Hq : 0 <= v / quantum) by (apply Z.div_pos; lia).
  assert (Rf : representable (v / quantum * quantum) = true).
  { destruct (Z.lt_ge_cases v (2 ^ 52 * quantum)) as [Hs|Hl].
    - apply representable_integer. split; [lia|].
      assert (v / quantum < 2 ^ 52) by (apply Z.div_lt_upper_bound; lia). lia.
    - pose proof (large_is_integer v Hl Rv) as Hm.
      apply Z.div_exact in Hm; [|lia]. rewrite Z.mul_comm, <- Hm. exact Rv. }
  unfold Number.Math_round.
  rewrite (is_finite_units x v H ltac:(lia) Rv). cbn [negb].
  rewrite FloatAxioms.eqb_spec, Hf, H, SFeqb_units by (assumption || nia).
  rewrite (half_up_cases v ltac:(lia)).
  destruct (Z.eqb_spec (v / quantum * quantum) v) as [Ei|Ni].
  - rewrite H. f_equal.
    replace (2 ^ 1073 <=? v - v / quantum * quantum) with false
      by (symmetry; apply Z.leb_gt; lia).
    exact (eq_sym Ei).
  - rewrite (FloatAxioms.ltb_spec 0 x), (FloatAxioms.ltb_spec x 0.5), (FloatAxioms.ltb_spec x 0), H, PH, Prim2SF_zero.
    rewrite !SFltb_units by (assumption || lia || reflexivity).
    replace (v <? 0) with false by (symmetry; apply Z.ltb_ge; lia).
    replace (0 <? v) with true by (symmetry; apply Z.ltb_lt; lia).
    cbn [andb].
    destruct (Z.ltb_spec v (2 ^ 1073)) as [Hh|Hh].
    + rewrite Prim2SF_zero. f_equal.
      assert (E0 : v / quantum = 0) by (apply Z.div_small; lia).
      rewrite E0.
      replace (2 ^ 1073 <=? v - 0 * quantum) with false
        by (symmetry; apply Z.leb_gt; lia).
      reflexivity.
    + cbv zeta.
      assert (Hsmall : v < 2 ^ 52 * quantum).
      { destruct (Z.lt_ge_cases v (2 ^ 52 * quantum)) as [Hs|Hl]; [exact Hs|].
        pose proof (large_is_integer v Hl Rv) as Hm.
        apply Z.div_exact in Hm; lia. }
      assert (Hq52 : v / quantum < 2 ^ 52) by (apply Z.div_lt_upper_bound; lia).
      assert (Rr : representable (v - v / quantum * quantum) = true)
        by (apply representable_rest; (assumption || lia)).
      rewrite FloatAxioms.leb_spec, FloatAxioms.sub_spec, PH, H, Hf. unfold SF64sub.
      rewrite SFsub_units by (assumption || lia).
      rewrite SFleb_units by (assumption || lia).
      destruct (Z.leb_spec (2 ^ 1073) (v - v / quantum * quantum)) as [Hup|Hdn];
        [|exact Hf].
      rewrite FloatAxioms.add_spec, Hf, Prim2SF_one. unfold SF64add.
      rewrite SFadd_units.
      * f_equal. lia.
      * lia.
      * lia.
      * exact Rf.
      * apply representable_integer. lia.
      * replace (v / quantum * quantum + 1 * quantum) with ((v / quantum + 1) * quantum) by lia.
        apply representable_integer. lia.
Qed.

Lemma units_ofUnits (v : Z) :
  0 <= v -> representable v = true -> units (ofUnits v) = Some v.
Proof.
  intros Hv Rv. destruct (Z.eq_dec v 0) as [->|Nv]; [reflexivity|].
  destruct (ofUnits_pos v ltac:(lia) Rv) as (w & -> & Ew & Hc).
  cbn [units cond_Zopp]. f_equal.
  replace (cexp v - 1074 + 1074) with (cexp v) by lia. now symmetry.
Qed.

Lemma representable_round (v : Z) :
  0 < v -> representable v = true ->
  representable ((v + 2 ^ 1073) / quantum * quantum) = true.
Proof.
  intros Hv Rv. pose proof quantum_pos as HU.
  destruct Prim2SF_half as (_ & _ & EH).
  assert (Hq : 0 <= (v + 2 ^ 1073) / quantum) by (apply Z.div_pos; lia).
  destruct (Z.lt_ge_cases v (2 ^ 52 * quantum)) as [Hs|Hl].
  - apply representable_integer. split; [exact Hq|].
    assert ((v + 2 ^ 1073) / quantum < 2 ^ 52 + 1)
      by (apply Z.div_lt_upper_bound; lia).
    change (2 ^ 53) with (2 ^ 52 + 2 ^ 52). lia.
  - pose proof (large_is_integer v Hl Rv) as Hm.
    apply Z.div_exact in Hm; [|lia].
    replace ((v + 2 ^ 1073) / quantum) with (v / quantum).
    + rewrite Z.mul_comm, <- Hm. exact Rv.
    + apply (Z.div_unique _ _ _ (2 ^ 1073)); lia.
Qed.

(** A finite double that is not below zero is 0, -0, or a positive
    whole number of units. *)
Lemma finite_nonneg_cases (y : float) :
  is_finite y = true -> (y <? 0)%float = false ->
  y = 0%float \/ y = neg_zero
  \/ exists v, 0 < v /\ representable v = true /\ Prim2SF y = ofUnits v.
Proof.
  intros Hf Hn. pose proof (Prim2SF_valid y) as Hv.
  unfold is_finite, is_nan, is_infinity in Hf.
  rewrite !FloatAxioms.eqb_spec, FloatAxioms.abs_spec in Hf.
  rewrite FloatAxioms.ltb_spec in Hn.
  pose proof (SF2Prim_Prim2SF y) as Ey.
  destruct (Prim2SF y) as [s|s| |s m e] eqn:E.
  - destruct s; cbn in Ey; auto.
  - destruct s; discriminate Hf.
  - discriminate Hf.
  - destruct s; [discriminate Hn|]. right. right.
    cbn [valid_binary] in Hv.
    destruct (finite_ofUnits m e Hv) as (E1 & E2 & E3).
    eexists. split; [exact E3|]. split; [exact E2|exact E1].
Qed.

Lemma finish_sign (q e : Z) :
  match finish q e with
  | S754_zero s | S754_infinity s | S754_finite s _ _ => s = false
  | S754_nan => True
  end.
Proof.
  unfold finish. destruct (shr_fexp prec emax q e loc_Exact) as [mrs e'].
  destruct (shr_m mrs); [reflexivity| |exact I].
  now destruct (e' <=? emax - prec).
Qed.

(** The product of a double above zero with 100 has no minus sign. *)
Lemma mul100_sign (x : float) (u : Z) :
  Prim2SF x = ofUnits u -> 0 < u -> representable u = true ->
  match Prim2SF (x * 100) with
  | S754_zero s | S754_infinity s | S754_finite s _ _ => s = false
  | S754_nan => True
  end.
Proof.
  intros H Hu Ru. rewrite FloatAxioms.mul_spec, H.
  destruct (ofUnits_pos u Hu Ru) as (a & -> & _).
  change (Prim2SF 100) with (S754_finite false 7036874417766400 (-46)).
  unfold SF64mul. cbn [SFmul xorb]. rewrite bra_split. apply finish_sign.
Qed.

(** When 100 times a double is a double, the product is exact. *)
Lemma mul100_exact (x : float) (u : Z) :
  Prim2SF x = ofUnits u -> 0 < u -> representable u = true ->
  representable (100 * u) = true ->
  Prim2SF (x * 100) = ofUnits (100 * u).
Proof.
  intros H Hu Ru Rp. rewrite FloatAxioms.mul_spec, H.
  destruct (ofUnits_pos u Hu Ru) as (a & -> & Ea & Hc).
  destruct (ofUnits_pos (100 * u) ltac:(lia) Rp) as (w & -> & Ew & Hcw).
  change (Prim2SF 100) with (S754_finite false 7036874417766400 (-46)).
  unfold SF64mul. cbn [SFmul xorb].
  set (c := cexp u) in *. set (c' := cexp (100 * u)) in *.
  assert (Hcc : c <= c').
  { unfold c, c', cexp. pose proof (Z.log2_le_mono u (100 * u) ltac:(lia)). lia. }
  assert (Hcan : cexp (Z.pos w * 2 ^ c') = c') by (rewrite <- Ew; reflexivity).
  set (k := c' - c + 46).
  assert (Em : Z.pos (a * 7036874417766400) = Z.pos w * 2 ^ k).
  { pose proof (pow2_pos c ltac:(lia)) as Hp.
    apply (Z.mul_cancel_r _ _ (2 ^ c)); [lia|].
    rewrite <- Z.mul_assoc, <- Z.pow_add_r by (unfold k; lia).
    replace (k + c) with (c' + 46) by (unfold k; lia).
    rewrite Z.pow_add_r, Z.mul_assoc, <- Ew by lia.
    rewrite Pos2Z.inj_mul. change (Z.pos 7036874417766400) with (100 * 2 ^ 46).
    rewrite Ea. ring. }
  rewrite Em.
  replace (c - 1074 + -46) with (c' - 1074 - k) by (unfold k; lia).
  apply bra_exact; [unfold k; lia | lia | exact Hcan].
Qed.

(** The double of a whole number below 2^63 *)
Lemma of_uint63_units (k : Z) :
  0 <= k < 2 ^ 63 -> representable (k * quantum) = true ->
  Prim2SF (of_uint63 (Uint63.of_Z k)) = ofUnits (k * quantum).
Proof.
  intros Hk Rk. rewrite of_uint63_spec, Uint63.of_Z_spec.
  change Uint63Axioms.wB with (2 ^ 63). rewrite Z.mod_small by exact Hk.
  destruct k as [|n|n]; [reflexivity| |lia].
  cbn [binary_normalize]. apply binary_round_units; [lia| |exact Rk].
  reflexivity.
Qed.

Lemma half_quantum_small : (0 + 2 ^ 1073) / quantum = 0.
Proof.
  destruct Prim2SF_half as (_ & _ & EH). pose proof quantum_pos.
  apply Z.div_small. lia.
Qed.

Lemma zero_is_not_neg_zero : 0%float <> neg_zero.
Proof. intros E. apply (f_equal Prim2SF) in E. discriminate E. Qed.

(** [Math.round] of a finite double that is not below zero is the whole
    number [floor (y + 1/2)]. *)
Lemma Math_round_half_up (y : float) :
  is_finite y = true -> (y <? 0)%float = false ->
  exists k : Z,
    0 <= k
    /\ Spec.halfUp y = Some k
    /\ Spec.scaled (Number.Math_round y) = Some (k * quantum)
    /\ (k < 2 ^ 63 ->
        Number.Math_round y = of_uint63 (Uint63.of_Z k) \/ y = neg_zero).
Proof.
  intros Hf Hn. destruct (finite_nonneg_cases y Hf Hn) as [->|[->|(v & Hv & Rv & E)]].
  - exists 0. split; [lia|]. split; [|split; [reflexivity|left; reflexivity]].
    unfold Spec.halfUp. change (Spec.scaled 0) with (Some 0).
    cbv beta iota. now rewrite half_quantum_small.
  - exists 0. split; [lia|]. split; [|split; [reflexivity|right; reflexivity]].
    unfold Spec.halfUp. change (Spec.scaled neg_zero) with (Some 0).
    cbv beta iota. now rewrite half_quantum_small.
  - pose proof quantum_pos as HU.
    pose proof (Math_round_units y v E Hv Rv) as Hr.
    pose proof (representable_round v Hv Rv) as Rr.
    assert (Hk : 0 <= (v + 2 ^ 1073) / quantum).
    { apply Z.div_pos; [|exact HU]. pose proof (pow2_pos 1073). lia. }
    exists ((v + 2 ^ 1073) / quantum). split; [exact Hk|]. split; [|split].
    + unfold Spec.halfUp, Spec.scaled. rewrite E, units_ofUnits by (lia || exact Rv).
      reflexivity.
    + unfold Spec.scaled. rewrite Hr. apply units_ofUnits; [nia|exact Rr].
    + intros Hlt. left. apply Prim2SF_inj.
      rewrite Hr, of_uint63_units; [reflexivity|lia|exact Rr].
Qed.

(** [halfUpCents] in units: [floor (100 x + 1/2)]. *)
Lemma halfUpCents_scaled (x : float) (u : Z) :
  Spec.scaled x = Some u -> 0 <= u ->
  Spec.halfUpCents x = Some ((100 * u + 2 ^ 1073) / quantum).
Proof.
  unfold Spec.scaled, Spec.halfUpCents. intros H Hu.
  pose proof (Prim2SF_valid x) as Hv. pose proof quantum_pos as HU.
  destruct Prim2SF_half as (_ & _ & EH).
  destruct (Prim2SF x) as [s|s| |s m e]; cbn [units] in H; try discriminate H.
  - injection H as <-. f_equal; symmetry; apply half_quantum_small.
  - cbn [valid_binary] in Hv. destruct (bounded_units m e Hv) as [He _].
    assert (Hp : 0 < 2 ^ (e + 1074)) by (apply pow2_pos; lia).
    injection H as H. destruct s; cbn [cond_Zopp] in H; [lia|]. subst u.
    f_equal. destruct (Z.leb_spec 0 e) as [Hpos|Hneg].
    + apply (Z.div_unique _ _ _ (2 ^ 1073)); [lia|].
      rewrite (Z.pow_add_r 2 e 1074) by lia. fold quantum. ring.
    + rewrite <- (Z.div_mul_cancel_r _ _ (2 ^ (e + 1074))) by
        (pose proof (pow2_pos (1 - e)); lia).
      rewrite <- (Z.div_mul_cancel_l _ quantum 2) by lia.
      f_equal.
      * rewrite Z.mul_add_distr_r, <- Z.pow_add_r by lia.
        replace (- e + (e + 1074)) with 1074 by lia. fold quantum. lia.
      * rewrite <- Z.pow_add_r by lia.
        replace (1 - e + (e + 1074)) with (1 + 1074) by lia.
        rewrite Z.pow_add_r by lia. reflexivity.
Qed.
End Binary64Facts.

Section PriceRounding.
Import Binary64.
Local Open Scope Z_scope.

Lemma create_valid (amount : float) (currency : Currency.t) (p : Price.t) :
  Price.create amount currency = Return p ->
  is_finite amount = true /\ (amount <? 0)%float = false
  /\ p = Price.mk (Number.Math_round (amount * 100) / 100)%float currency.
Proof.
  unfold Price.create, Number.isFinite.
  destruct (is_finite amount), (amount <? 0)%float; cbn; try discriminate.
  intros [= <-]. auto.
Qed.

Lemma product_not_below_zero (amount : float) :
  is_finite amount = true -> (amount <? 0)%float = false ->
  (amount * 100 <? 0)%float = false
  /\ ((amount * 100)%float = neg_zero -> amount = neg_zero).
Proof.
  intros Hf Hn.
  destruct (finite_nonneg_cases amount Hf Hn) as [->|[->|(u & Hu & Ru & E)]].
  - split; [reflexivity|]. intros H. exfalso. exact (zero_is_not_neg_zero H).
  - split; reflexivity.
  - pose proof (mul100_sign amount u E Hu Ru) as Hs.
    split.
    + rewrite FloatAxioms.ltb_spec.
      destruct (Prim2SF (amount * 100)) as [s|s| |s m e]; try subst s; reflexivity.
    + intros H. rewrite H in Hs. discriminate Hs.
Qed.

(** What [Price.create] stores: the product [amount * 100] rounded to a
    whole number of cents [k], a half rounded up, over 100. *)
Lemma create_stores_cents (amount : float) (currency : Currency.t) (p : Price.t) :
  Price.create amount currency = Return p ->
  is_finite (amount * 100) = true ->
  exists k : Z,
    0 <= k
    /\ Spec.halfUp (amount * 100) = Some k
    /\ Spec.scaled (Number.Math_round (amount * 100)) = Some (k * quantum)
    /\ (k < 2 ^ 63 ->
        Price.amount p = Spec.ofCents k
        \/ (amount = neg_zero /\ Price.amount p = neg_zero)).
Proof.
  intros Hc Hy. destruct (create_valid _ _ _ Hc) as (Hf & Hn & ->).
  destruct (product_not_below_zero amount Hf Hn) as [Hyn Hz].
  destruct (Math_round_half_up _ Hy Hyn) as (k & Hk & Hh & Hs & Hi).
  exists k. split; [exact Hk|]. split; [exact Hh|]. split; [exact Hs|].
  intros Hlt. cbn [Price.amount]. destruct (Hi Hlt) as [E|E].
  - left. rewrite E. reflexivity.
  - right. rewrite (Hz E). split; reflexivity.
Qed.

(** When 100 times the amount is a double, the cents stored are those
    of the amount itself. *)
Lemma exact_cents (amount : float) :
  is_finite amount = true -> (amount <? 0)%float = false ->
  Spec.centsAreExact amount = true ->
  exists k : Z,
    Spec.halfUpCents amount = Some k
    /\ Spec.halfUp (amount * 100) = Some k
    /\ is_finite (amount * 100) = true.
Proof.
  intros Hf Hn Hx.
  destruct (finite_nonneg_cases amount Hf Hn) as [->|[->|(u & Hu & Ru & E)]].
  - exists 0. split; [reflexivity|]. split; [|reflexivity].
    unfold Spec.halfUp. change (Spec.scaled (0 * 100)) with (Some 0).
    cbv beta iota. now rewrite half_quantum_small.
  - exists 0. split; [reflexivity|]. split; [|reflexivity].
    unfold Spec.halfUp. change (Spec.scaled (neg_zero * 100)) with (Some 0).
    cbv beta iota. now rewrite half_quantum_small.
  - assert (Es : Spec.scaled amount = Some u).
    { unfold Spec.scaled. rewrite E. apply units_ofUnits; [lia|exact Ru]. }
    unfold Spec.centsAreExact in Hx. rewrite Es in Hx.
    pose proof (mul100_exact amount u E Hu Ru Hx) as Ep.
    exists ((100 * u + 2 ^ 1073) / quantum). split; [|split].
    + apply halfUpCents_scaled; [exact Es|lia].
    + unfold Spec.halfUp, Spec.scaled.
      rewrite Ep, units_ofUnits by (lia || exact Hx). reflexivity.
    + apply (is_finite_units _ (100 * u)); [exact Ep|lia|exact Hx].
Qed.
End PriceRounding.

(* ===================================================================== *)
(** ** Rounding of a Price *)
(* ===================================================================== *)

Section Rounding.
Local Open Scope float_scope.

(** C7, as the code has it. [Price.create] throws a ValidationError
    exactly when the amount is not finite or is below zero; otherwise it
    returns the currency it was given and the double
    [Math.round(amount * 100) / 100]. Whenever the product
    [amount * 100] is finite, [Math.round] returns the whole number of
    cents [k = floor (amount * 100 + 1/2)], the product rounded with a
    half rounded up, and the amount stored is [k / 100] as a double, a
    number of two decimals (a zero with a minus sign stays as it is).
    Whenever 100 times the amount is itself a double, so that the
    product is exact, [k] is the amount rounded to cents with a half
    rounded up. On 10.99 that is 10.99, on 10.999 it is 11, on the tie
    0.125 it is 0.13; every multiple of 1/8 below 100, the cent
    boundaries among them, is stored rounded half-up to cents. *)
Theorem price_create_validates_then_rounds :
  (forall (amount : float) (currency : Currency.t),
      (isValidationError (Price.create amount currency) = true
       <-> Number.isFinite amount = false \/ (amount <? 0) = true)
      /\ (isValidationError (Price.create amount currency) = false
          <-> Price.create amount currency
              = Return (Price.mk (Number.Math_round (amount * 100) / 100) currency)))
  /\ (forall (amount : float) (currency : Currency.t) (p : Price.t),
         Price.create amount currency = Return p ->
         Number.isFinite (amount * 100) = true ->
         exists k : Z,
           (0 <= k)%Z
           /\ Price.currency p = currency
           /\ Spec.halfUp (amount * 100) = Some k
           /\ Spec.scaled (Number.Math_round (amount * 100))
              = Some (k * Binary64.quantum)%Z
           /\ ((k < 2 ^ 63)%Z ->
               Price.amount p = Spec.ofCents k
               \/ (amount = neg_zero /\ Price.amount p = neg_zero)))
  /\ (forall (amount : float) (currency : Currency.t) (p : Price.t),
         Price.create amount currency = Return p ->
         Spec.centsAreExact amount = true ->
         exists k : Z,
           Spec.halfUpCents amount = Some k
           /\ Number.isFinite (amount * 100) = true
           /\ Spec.halfUp (amount * 100) = Some k
           /\ ((k < 2 ^ 63)%Z ->
               Price.amount p = Spec.ofCents k
               \/ (amount = neg_zero /\ Price.amount p = neg_zero)))
  /\ Price.create 10.99 Currency.EUR = Return (Price.mk 10.99 Currency.EUR)
  /\ Price.create 10.999 Currency.USD = Return (Price.mk 11 Currency.USD)
  /\ Price.create 0.125 Currency.EUR = Return (Price.mk 0.13 Currency.EUR)
  /\ Price.create 0 Currency.USD = Return (Price.mk 0 Currency.USD)
  /\ Forall (fun amount => isValidationError (Price.create amount Currency.EUR) = true)
       [-1; nan; infinity; neg_infinity]
  /\ Spec.centsAreExact 0.125 = true
  /\ Spec.centsAreExact 10.99 = false
  /\ forallb (fun k => Spec.storesHalfUp (Spec.eighth k)) (seq 0 (8 * 100)) = true.
Proof.
  split; [|split; [|split;
            [|do 5 (split; [vm_compute; repeat constructor|]);
              do 2 (split; [vm_compute; reflexivity|]);
              vm_compute; reflexivity]]].
  - intros amount currency. unfold Price.create.
    destruct (Number.isFinite amount), (amount <? 0); cbn;
      repeat split; intros; auto; try discriminate;
      try (destruct H; discriminate).
  - intros amount currency p Hc Hy.
    destruct (create_stores_cents amount currency p Hc Hy)
      as (k & Hk & Hh & Hs & Hi).
    exists k. repeat (split; [assumption|]).
    split; [|split; [exact Hh|split; [exact Hs|exact Hi]]].
    destruct (create_valid _ _ _ Hc) as (_ & _ & ->). reflexivity.
  - intros amount currency p Hc Hx.
    destruct (create_valid _ _ _ Hc) as (Hf & Hn & _).
    destruct (exact_cents amount Hf Hn Hx) as (k & Hu & Hh & Hy).
    destruct (create_stores_cents amount currency p Hc Hy)
      as (k' & _ & Hh' & _ & Hi).
    assert (k' = k) by congruence. subst k'.
    exists k. split; [exact Hu|]. split; [exact Hy|]. split; [exact Hh|exact Hi].
Qed.

(** The theorem at two amounts above 100000: 123456.789, whose product
    with 100 is rounded, and the cent boundary 123456.125, whose product
    is exact. *)
Lemma price_create_validates_then_rounds_witness :
  (exists k : Z,
      (0 <= k)%Z
      /\ Price.currency (Price.mk 123456.79 Currency.EUR) = Currency.EUR
      /\ Spec.halfUp (123456.789 * 100) = Some k
      /\ Spec.scaled (Number.Math_round (123456.789 * 100))
         = Some (k * Binary64.quantum)%Z
      /\ ((k < 2 ^ 63)%Z ->
          Price.amount (Price.mk 123456.79 Currency.EUR) = Spec.ofCents k
          \/ (123456.789 = neg_zero
              /\ Price.amount (Price.mk 123456.79 Currency.EUR) = neg_zero)))
  /\ (exists k : Z,
         Spec.halfUpCents 123456.125 = Some k
         /\ Number.isFinite (123456.125 * 100) = true
         /\ Spec.halfUp (123456.125 * 100) = Some k
         /\ ((k < 2 ^ 63)%Z ->
             Price.amount (Price.mk 123456.13 Currency.EUR) = Spec.ofCents k
             \/ (123456.125 = neg_zero
                 /\ Price.amount (Price.mk 123456.13 Currency.EUR) = neg_zero))).
Proof.
  split.
  - exact (proj1 (proj2 price_create_validates_then_rounds)
             123456.789 Currency.EUR (Price.mk 123456.79 Currency.EUR)
             eq_refl eq_refl).
  - exact (proj1 (proj2 (proj2 price_create_validates_then_rounds))
             123456.125 Currency.EUR (Price.mk 123456.13 Currency.EUR)
             eq_refl eq_refl).
Defined.

(** When [amount * 100] is beyond the doubles the stored amount is
    [Infinity], which [Price.create] itself refuses as an amount. *)
Lemma price_create_overflow_stores_infinity :
  Number.isFinite 1e307 = true
  /\ (1e307 <? 0) = false
  /\ Number.isFinite (1e307 * 100) = false
  /\ Price.create 1e307 Currency.EUR = Return (Price.mk infinity Currency.EUR)
  /\ isValidationError (Price.create infinity Currency.EUR) = true.
Proof. repeat split. Qed.

(** The amount 45035996273705.125 is a double (360287970189641 / 8),
    finite and not negative, and lies on a cent boundary: a half rounded
    up, it is 4503599627370513 cents, 45035996273705.13. Its product
    with 100 is no double and rounds to the even 4503599627370512, so
    [Price.create] stores 45035996273705.12. *)
Lemma price_create_rounds_large_tie_down :
  let amount := 45035996273705.125 in
  amount = of_uint63 (Uint63.of_Z 360287970189641) / 8
  /\ Number.isFinite amount = true
  /\ (amount <? 0) = false
  /\ Spec.halfUpCents amount = Some 4503599627370513%Z
  /\ Spec.ofCents 4503599627370513 = 45035996273705.13
  /\ Spec.centsAreExact amount = false
  /\ amount * 100 = 4503599627370512
  /\ Price.create amount Currency.EUR
     = Return (Price.mk 45035996273705.12 Currency.EUR)
  /\ (45035996273705.12 =? 45035996273705.13) = false
  /\ Spec.storesHalfUp amount = false.
Proof. repeat split; vm_compute; reflexivity. Qed.
End Rounding.

(* ===================================================================== *)
(** ** Identifiers *)
(* ===================================================================== *)

Section UuidFacts.
Import RegExp Behaviour.

Lemma hasShape_app (ps1 ps2 : list (ascii -> bool)) :
  forall s : string,
    hasShape (ps1 ++ ps2) s = true <->
    exists s1 s2, s = (s1 ++ s2)%string
                  /\ hasShape ps1 s1 = true /\ hasShape ps2 s2 = true.
Proof.
  induction ps1 as [|p ps1 IH]; intros s.
  - split.
    + intros H. exists "", s. repeat split; assumption.
    + intros (s1 & s2 & -> & H1 & H2). destruct s1; [exact H2 | discriminate H1].
  - destruct s as [|c s]; cbn [app hasShape].
    + split; [discriminate|]. intros (s1 & s2 & E & H1 & _).
      destruct s1; [discriminate H1 | rewrite append_cons in E; discriminate E].
    + rewrite andb_true_iff, IH. split.
      * intros (Hp & s1 & s2 & -> & H1 & H2).
        exists (String c s1), s2. repeat split; auto.
        cbn. now rewrite Hp.
      * intros (s1 & s2 & E & H1 & H2).
        destruct s1 as [|c1 s1]; [discriminate H1|].
        rewrite append_cons in E. injection E as -> ->.
        cbn in H1. apply andb_true_iff in H1 as [Hp H1]. eauto 6.
Qed.

Lemma agrees_seq (r1 r2 : t) (ps1 ps2 : list (ascii -> bool)) :
  agrees r1 ps1 -> agrees r2 ps2 -> agrees (Seq r1 r2) (ps1 ++ ps2).
Proof.
  intros A1 A2 s. rewrite lang_seq_inv, hasShape_app. split.
  - intros (s1 & s2 & -> & H1 & H2). exists s1, s2.
    repeat split; [now apply A1 | now apply A2].
  - intros (s1 & s2 & -> & H1 & H2). exists s1, s2.
    repeat split; [now apply A1 | now apply A2].
Qed.

Lemma agrees_class (p q : ascii -> bool) :
  (forall c, p c = q c) -> agrees (Class p) [q].
Proof.
  intros E s. rewrite lang_class_inv. split.
  - intros (c & -> & Hp). cbn. now rewrite <- E, Hp.
  - destruct s as [|c [|c' s]]; cbn; try discriminate.
    + rewrite andb_true_r. intros Hq. exists c. now rewrite E.
    + rewrite andb_false_r. discriminate.
Qed.

Lemma agrees_eps : agrees Eps [].
Proof.
  intros s. split.
  - inversion 1. reflexivity.
  - destruct s; [constructor | discriminate].
Qed.

Lemma agrees_rep (p q : ascii -> bool) (n : nat) :
  (forall c, p c = q c) -> agrees (Rep n (Class p)) (repeat q n).
Proof.
  intros E. induction n as [|n IH]; [exact agrees_eps|].
  exact (agrees_seq _ _ [q] _ (agrees_class p q E) IH).
Qed.

Lemma hex_class (c : ascii) :
  ignoreCase (fun c => OrderId.inRange "0" "9" c || OrderId.inRange "a" "f" c) c
  = isHexDigit c.
Proof. destruct c as [[] [] [] [] [] [] [] []]; reflexivity. Qed.

Lemma variant_class (c : ascii) :
  ignoreCase (fun c => Ascii.eqb c "8" || Ascii.eqb c "9"
                       || Ascii.eqb c "a" || Ascii.eqb c "b") c
  = isVariantDigit c.
Proof. destruct c as [[] [] [] [] [] [] [] []]; reflexivity. Qed.

Lemma uuidRegex_shape : agrees OrderId.uuidRegex uuidV4Shape.
Proof.
  unfold OrderId.uuidRegex, uuidV4Shape, OrderId.hex, OrderId.variant,
    OrderId.dash, Chr.
  repeat first
    [ apply agrees_seq
    | apply (agrees_rep _ _ _ hex_class)
    | apply (agrees_class _ _ variant_class)
    | apply agrees_class; reflexivity ].
Qed.

Lemma uuidRegex_test (s : string) :
  test OrderId.uuidRegex s = isUuidV4 s.
Proof.
  apply eq_true_iff_eq. rewrite test_lang. apply uuidRegex_shape.
Qed.

Lemma hexDigit_not_space (c : ascii) :
  isHexDigit c = true -> JsString.isWhiteSpace c = false.
Proof. destruct c as [[] [] [] [] [] [] [] []]; cbn; intros H; first [reflexivity | discriminate H]. Qed.

Lemma trimEnd_empty (c : ascii) (s : string) :
  JsString.trimEnd (String c s) = "" -> JsString.isWhiteSpace c = true.
Proof.
  cbn. destruct (JsString.trimEnd s); [|discriminate].
  destruct (JsString.isWhiteSpace c); [reflexivity | discriminate].
Qed.

Lemma uuid_not_blank (s : string) :
  isUuidV4 s = true ->
  (String.eqb s "" || (String.length (JsString.trim s) =? 0)%nat) = false.
Proof.
  destruct s as [|c s]; [discriminate|].
  unfold isUuidV4. cbn [uuidV4Shape repeat app hasShape].
  intros H. apply andb_true_iff in H as [Hc _].
  apply hexDigit_not_space in Hc.
  unfold JsString.trim. cbn [JsString.trimStart]. rewrite Hc.
  destruct (JsString.trimEnd (String c s)) eqn:E; [|reflexivity].
  apply trimEnd_empty in E. congruence.
Qed.

Lemma orderId_create_run (value : string) :
  OrderId.create value
  = if isUuidV4 value then Return (OrderId.mk value) else OrderId.create value.
Proof.
  destruct (isUuidV4 value) eqn:Hu; [|reflexivity].
  unfold OrderId.create. now rewrite uuidRegex_test, Hu, (uuid_not_blank _ Hu).
Qed.

Lemma orderId_create_refuses (value : string) :
  isUuidV4 value = false -> isValidationError (OrderId.create value) = true.
Proof.
  intros Hu. unfold OrderId.create. rewrite uuidRegex_test, Hu.
  now destruct (_ || _).
Qed.

(** X1. [OrderId.create] returns exactly on the strings that have the shape
    of a version 4 UUID, in either letter case, and then wraps the string
    as it is; on every other string it throws a ValidationError. *)
Theorem orderId_create_accepts_uuid_v4 (value : string) :
  (OrderId.create value = Return (OrderId.mk value) <-> isUuidV4 value = true)
  /\ (isValidationError (OrderId.create value) = true <-> isUuidV4 value = false)
  /\ (forall id, OrderId.create value = Return id -> OrderId.value id = value).
Proof.
  destruct (isUuidV4 value) eqn:Hu.
  - rewrite orderId_create_run, Hu.
    repeat split; auto; try discriminate. now intros id [= <-].
  - pose proof (orderId_create_refuses value Hu) as Hv.
    destruct (OrderId.create value) as [id|e]; [discriminate Hv|].
    repeat split; auto; discriminate.
Qed.

Lemma lower_closed_shape (ps : list (ascii -> bool)) :
  Forall (fun p => forall c, p c = true -> p (JsString.lowerChar c) = true) ps ->
  forall s, hasShape ps s = true -> hasShape ps (JsString.toLowerCase s) = true.
Proof.
  induction 1 as [|p ps Hp _ IH]; intros [|c s]; cbn; auto.
  intros H. apply andb_true_iff in H as [Hc Hs].
  now rewrite (Hp c Hc), (IH s Hs).
Qed.

Lemma hexDigit_lower (c : ascii) :
  isHexDigit c = true -> isHexDigit (JsString.lowerChar c) = true.
Proof. destruct c as [[] [] [] [] [] [] [] []]; cbn; intros H; first [reflexivity | discriminate H]. Qed.

Lemma variantDigit_lower (c : ascii) :
  isVariantDigit c = true -> isVariantDigit (JsString.lowerChar c) = true.
Proof. destruct c as [[] [] [] [] [] [] [] []]; cbn; intros H; first [reflexivity | discriminate H]. Qed.

Lemma char_lower (a c : ascii) :
  JsString.isUpper a = false ->
  Ascii.eqb a c = true -> Ascii.eqb a (JsString.lowerChar c) = true.
Proof.
  intros Ha E. apply Ascii.eqb_eq in E. subst c.
  unfold JsString.lowerChar. rewrite Ha. apply Ascii.eqb_refl.
Qed.

Lemma uuid_lower (value : string) :
  isUuidV4 value = true -> isUuidV4 (JsString.toLowerCase value) = true.
Proof.
  apply lower_closed_shape. unfold uuidV4Shape. cbn [repeat app].
  repeat constructor;
    first [ exact hexDigit_lower | exact variantDigit_lower
          | intros c; now apply char_lower ].
Qed.

(** X2. The validation of an OrderId ignores letter case, its equality does
    not: the lower-case spelling of an accepted identifier is accepted
    too, and the two are equal only if the identifier was in lower case
    already. *)
Theorem orderId_equality_is_case_sensitive (value : string) (id : OrderId.t) :
  OrderId.create value = Return id ->
  OrderId.create (JsString.toLowerCase value)
  = Return (OrderId.mk (JsString.toLowerCase value))
  /\ (OrderId.equals id (OrderId.mk (JsString.toLowerCase value)) = true
      <-> JsString.toLowerCase value = value).
Proof.
  intros Hc.
  assert (Hu : isUuidV4 value = true).
  { destruct (isUuidV4 value) eqn:E; [reflexivity|].
    apply orderId_create_refuses in E. rewrite Hc in E. discriminate E. }
  rewrite orderId_create_run, Hu in Hc. injection Hc as <-.
  split.
  - now rewrite orderId_create_run, (uuid_lower _ Hu).
  - unfold OrderId.equals. cbn. rewrite String.eqb_eq. split; congruence.
Qed.

Lemma orderId_equality_is_case_sensitive_witness :
  OrderId.create "a1b2c3d4-e5f6-4a7b-8c9d-0e1f2a3b4c5d"
  = Return (OrderId.mk "a1b2c3d4-e5f6-4a7b-8c9d-0e1f2a3b4c5d")
  /\ (OrderId.equals (OrderId.mk "A1B2C3D4-E5F6-4A7B-8C9D-0E1F2A3B4C5D")
        (OrderId.mk "a1b2c3d4-e5f6-4a7b-8c9d-0e1f2a3b4c5d") = true
      <-> "a1b2c3d4-e5f6-4a7b-8c9d-0e1f2a3b4c5d"
          = "A1B2C3D4-E5F6-4A7B-8C9D-0E1F2A3B4C5D").
Proof.
  exact (orderId_equality_is_case_sensitive
           "A1B2C3D4-E5F6-4A7B-8C9D-0E1F2A3B4C5D"
           (OrderId.mk "A1B2C3D4-E5F6-4A7B-8C9D-0E1F2A3B4C5D") eq_refl).
Defined.
End UuidFacts.

(* ===================================================================== *)
(** ** Normal forms of an Email *)
(* ===================================================================== *)

Section EmailNormalForm.
Import JsString Spec.

Lemma lowerChar_idem (c : ascii) : lowerChar (lowerChar c) = lowerChar c.
Proof. destruct c as [[] [] [] [] [] [] [] []]; reflexivity. Qed.

Lemma isWhiteSpace_lowerChar (c : ascii) :
  isWhiteSpace (lowerChar c) = isWhiteSpace c.
Proof. destruct c as [[] [] [] [] [] [] [] []]; reflexivity. Qed.

Lemma toLowerCase_idem (s : string) :
  toLowerCase (toLowerCase s) = toLowerCase s.
Proof.
  induction s as [|c s IH]; [reflexivity|]. cbn. now rewrite lowerChar_idem, IH.
Qed.

Lemma trimStart_lower (s : string) :
  trimStart (toLowerCase s) = toLowerCase (trimStart s).
Proof.
  induction s as [|c s IH]; [reflexivity|]. cbn.
  rewrite isWhiteSpace_lowerChar. now destruct (isWhiteSpace c).
Qed.

Lemma trimEnd_lower (s : string) :
  trimEnd (toLowerCase s) = toLowerCase (trimEnd s).
Proof.
  induction s as [|c s IH]; [reflexivity|]. cbn. rewrite IH.
  destruct (trimEnd s); cbn.
  - rewrite isWhiteSpace_lowerChar. now destruct (isWhiteSpace c).
  - reflexivity.
Qed.

Lemma trim_lower (s : string) : trim (toLowerCase s) = toLowerCase (trim s).
Proof. unfold trim. now rewrite trimStart_lower, trimEnd_lower. Qed.

Lemma trimEnd_idem (s : string) : trimEnd (trimEnd s) = trimEnd s.
Proof.
  induction s as [|c s IH]; [reflexivity|]. cbn.
  destruct (trimEnd s) as [|d t] eqn:E.
  - destruct (isWhiteSpace c) eqn:Hc; [reflexivity|]. cbn. now rewrite Hc.
  - cbn [trimEnd]. cbn [trimEnd] in IH. now rewrite IH.
Qed.

Lemma trimEnd_head (c : ascii) (s : string) :
  isWhiteSpace c = false -> exists t, trimEnd (String c s) = String c t.
Proof.
  intros Hc. cbn. destruct (trimEnd s); [rewrite Hc|]; eauto.
Qed.

Lemma trimStart_head (s : string) :
  trimStart s = "" \/ exists c t, trimStart s = String c t /\ isWhiteSpace c = false.
Proof.
  induction s as [|c s IH]; [now left|]. cbn.
  destruct (isWhiteSpace c) eqn:Hc; [exact IH | right; eauto].
Qed.

Lemma trim_idem (s : string) : trim (trim s) = trim s.
Proof.
  unfold trim. destruct (trimStart_head s) as [E|(c & t & E & Hc)]; rewrite E.
  - reflexivity.
  - destruct (trimEnd_head c t Hc) as [u Eu]. rewrite Eu.
    cbn [trimStart]. rewrite Hc, <- Eu. apply trimEnd_idem.
Qed.

Lemma email_create_run (raw : string) (e : Email.t) :
  Email.create raw = Return e <->
  e = Email.mk (toLowerCase (trim raw))
  /\ toLowerCase (trim raw) <> ""
  /\ RegExp.test Email.emailRegex (toLowerCase (trim raw)) = true.
Proof.
  unfold Email.create.
  destruct (String.eqb _ "") eqn:He.
  - apply String.eqb_eq in He. split; [discriminate|]. intros (_ & H & _). contradiction.
  - apply String.eqb_neq in He.
    destruct (RegExp.test _ _); cbn; split.
    + intros [= <-]. auto.
    + intros (-> & _). reflexivity.
    + discriminate.
    + intros (_ & _ & H). discriminate H.
Qed.

(** X3. The value of an Email is a normal form: [Email.create] returns the
    same Email on that value, on the lower-case spelling of the input and
    on the trimmed input. *)
Theorem email_create_is_idempotent (raw : string) (e : Email.t) :
  Email.create raw = Return e ->
  Email.create (Email.value e) = Return e
  /\ Email.create (toLowerCase raw) = Return e
  /\ Email.create (trim raw) = Return e.
Proof.
  intros H. apply email_create_run in H as (-> & Hne & Ht). cbn [Email.value].
  repeat split; apply email_create_run;
    rewrite ?trim_lower, ?trim_idem, ?toLowerCase_idem; auto.
Qed.

Lemma email_create_is_idempotent_witness :
  Email.create "user@example.com" = Return (Email.mk "user@example.com")
  /\ Email.create (toLowerCase "  User@Example.COM  ")
     = Return (Email.mk "user@example.com")
  /\ Email.create (trim "  User@Example.COM  ")
     = Return (Email.mk "user@example.com").
Proof.
  exact (email_create_is_idempotent "  User@Example.COM  "
           (Email.mk "user@example.com") eq_refl).
Defined.

Lemma allChars_app (p : ascii -> bool) (s1 s2 : string) :
  allChars p (s1 ++ s2)%string = allChars p s1 && allChars p s2.
Proof.
  induction s1 as [|c s1 IH]; [reflexivity|].
  rewrite append_cons. cbn. now rewrite IH, andb_assoc.
Qed.

Lemma upTo_all (sep : ascii) (s : string) :
  allChars (fun c => negb (Ascii.eqb c sep)) s = true -> upTo sep s = s.
Proof.
  induction s as [|c s IH]; [reflexivity|]. cbn.
  intros H. apply andb_true_iff in H as [Hc Hs].
  apply negb_true_iff in Hc. now rewrite Hc, IH.
Qed.

Lemma secondField_after (sep : ascii) (s1 s2 : string) :
  allChars (fun c => negb (Ascii.eqb c sep)) s1 = true ->
  secondField sep (s1 ++ String sep s2)%string = upTo sep s2.
Proof.
  induction s1 as [|c s1 IH].
  - intros _. rewrite append_nil. cbn. now rewrite Ascii.eqb_refl.
  - cbn. intros H. apply andb_true_iff in H as [Hc Hs].
    apply negb_true_iff in Hc. rewrite append_cons. cbn. now rewrite Hc, IH.
Qed.

Lemma label_no_at (s : string) :
  allChars Email.notSpaceNorAt s = true ->
  allChars (fun c => negb (Ascii.eqb c "@")) s = true.
Proof.
  induction s as [|c s IH]; [reflexivity|]. cbn.
  intros H. apply andb_true_iff in H as [Hc Hs].
  unfold Email.notSpaceNorAt in Hc. apply andb_true_iff in Hc as [_ Hc].
  now rewrite Hc, IH.
Qed.

(** X4. The domain of an Email that [Email.create] returned is all that
    follows its only [@]: the value is the local part, [@] and the domain,
    and the domain is never empty, for it is two labels around a dot. *)
Theorem email_domain_follows_the_at (raw : string) (e : Email.t) :
  Email.create raw = Return e ->
  exists localPart d tld,
    Email.value e = (localPart ++ "@" ++ Email.getDomain e)%string
    /\ Email.getDomain e = (d ++ "." ++ tld)%string
    /\ isLabel localPart /\ isLabel d /\ isLabel tld.
Proof.
  intros H. apply email_create_run in H as (-> & _ & Ht).
  apply emailRegex_test in Ht as (l & d & tl & E & Hl & Hd & Htl).
  exists l, d, tl. unfold Email.getDomain. cbn [Email.value]. rewrite E.
  assert (Hdom : secondField "@" (l ++ "@" ++ d ++ "." ++ tl)%string
                 = (d ++ "." ++ tl)%string).
  { change (l ++ "@" ++ d ++ "." ++ tl)%string
      with (l ++ String "@" (d ++ "." ++ tl))%string.
    rewrite secondField_after by (apply label_no_at, Hl).
    apply upTo_all. rewrite !allChars_app.
    rewrite (label_no_at _ (proj2 Hd)), (label_no_at _ (proj2 Htl)).
    reflexivity. }
  rewrite Hdom. repeat split; try apply Hl; try apply Hd; try apply Htl.
Qed.

Lemma email_domain_follows_the_at_witness :
  exists localPart d tld,
    "user@mail.example.com" = (localPart ++ "@" ++ "mail.example.com")%string
    /\ "mail.example.com" = (d ++ "." ++ tld)%string
    /\ isLabel localPart /\ isLabel d /\ isLabel tld.
Proof.
  exact (email_domain_follows_the_at "User@Mail.Example.com"
           (Email.mk "user@mail.example.com") eq_refl).
Defined.
End EmailNormalForm.

(* ===================================================================== *)
(** ** Runs of calls on an Order *)
(* ===================================================================== *)

Section OrderRuns.
Import Order Spec Behaviour.

Lemma rank_le_3 (s : OrderStatus) : (rank s <= 3)%nat.
Proof. destruct s; cbn; lia. Qed.

Lemma addItem_step (item : loc) (st st' : State) :
  addItem item st = (Return tt, st') ->
  this st' = this st /\ status st = PENDING.
Proof.
  unfold addItem, bindM, get_status, findIndex, elementAt, readItem,
    writeItem, push, throw, ret, status.
  destruct (status_eqb (_status (this st)) PENDING) eqn:Hs; cbn [negb];
    [|discriminate].
  apply status_eqb_eq in Hs.
  destruct (findIndex_from _ _ _ _) as [idx|e']; [|discriminate].
  destruct (0 <=? idx)%Z.
  - destruct (Heap.at_index _ _ _) as [[r existing]|].
    + destruct (Heap.item (heap st) item); [|discriminate].
      intros [= <-]. auto.
    + intros [= <-]. auto.
  - intros [= <-]. auto.
Qed.

Lemma action_step (a : Action) (st st' : State) :
  run a st = (Return tt, st') ->
  heap st' = heap st
  /\ id (this st') = id (this st)
  /\ customerEmail (this st') = customerEmail (this st)
  /\ createdAt (this st') = createdAt (this st)
  /\ _items (this st') = _items (this st)
  /\ (rank (status st) < rank (status st'))%nat.
Proof.
  destruct st as [[i e l s c] h].
  destruct a, s; cbn; intros [= <-]; cbn; repeat split; lia.
Qed.

Lemma mutate_step (m : Mutator) (st st' : State) :
  mutate m st = (Return tt, st') ->
  id (this st') = id (this st)
  /\ customerEmail (this st') = customerEmail (this st)
  /\ createdAt (this st') = createdAt (this st)
  /\ _items (this st') = _items (this st)
  /\ ((status st = PENDING /\ status st' = PENDING)
      \/ (heap st' = heap st /\ (rank (status st) < rank (status st'))%nat)).
Proof.
  destruct m as [| | | |item]; cbn [mutate].
  1: change confirm with (run Confirm).
  2: change ship with (run Ship).
  3: change deliver with (run Deliver).
  4: change cancel with (run Cancel).
  1-4: intros H; apply action_step in H as (? & ? & ? & ? & ? & ?);
       repeat split; auto.
  intros H. apply addItem_step in H as [Ht Hs].
  unfold status in *. rewrite Ht. repeat split; auto.
Qed.

(** X5. The fields [id], [customerEmail] and [createdAt] of an Order, and the
    array it holds, are the same after any run of successful mutator
    calls; so the Order stays [equals] to what it was. *)
Theorem order_identity_survives_mutators (st st' : State) :
  reaches st st' ->
  id (this st') = id (this st)
  /\ customerEmail (this st') = customerEmail (this st)
  /\ createdAt (this st') = createdAt (this st)
  /\ _items (this st') = _items (this st)
  /\ equals (this st) (this st') = true.
Proof.
  induction 1 as [st|st m st' st'' _ IH Hm].
  - repeat split. unfold equals, OrderId.equals. apply String.eqb_refl.
  - destruct IH as (Hi & He & Hc & Ha & Heq).
    apply mutate_step in Hm as (Hi' & He' & Hc' & Ha' & _).
    repeat split; try congruence.
    unfold equals in *. now rewrite Hi'.
Qed.

Lemma order_identity_survives_mutators_witness :
  id (this (snd (confirm Sample.state))) = id (this Sample.state)
  /\ customerEmail (this (snd (confirm Sample.state)))
     = customerEmail (this Sample.state)
  /\ createdAt (this (snd (confirm Sample.state))) = createdAt (this Sample.state)
  /\ _items (this (snd (confirm Sample.state))) = _items (this Sample.state)
  /\ equals (this Sample.state) (this (snd (confirm Sample.state))) = true.
Proof.
  apply order_identity_survives_mutators.
  apply (reaches_step _ DoConfirm Sample.state); [apply reaches_refl | reflexivity].
Defined.

(** X6. Items change only while the Order is PENDING: from a status other
    than PENDING, no run of successful mutator calls changes the heap or
    the items, and the status never is PENDING again. *)
Theorem order_items_frozen_after_pending (st st' : State) :
  reaches st st' ->
  status st <> PENDING ->
  status st' <> PENDING /\ heap st' = heap st /\ itemsOf st' = itemsOf st.
Proof.
  induction 1 as [st|st m st' st'' Hr IH Hm]; intros Hs; [auto|].
  destruct (IH Hs) as (Hs' & Hh & Hi).
  apply mutate_step in Hm as (_ & _ & _ & Ha & [[Hp _]|[Hh' Hrk]]);
    [contradiction|].
  repeat split.
  - intros E. rewrite E in Hrk. cbn in Hrk. lia.
  - congruence.
  - rewrite <- Hi. unfold itemsOf. now rewrite Hh', Ha.
Qed.

Lemma order_items_frozen_after_pending_witness :
  status (snd (ship (snd (confirm Sample.state)))) <> PENDING
  /\ heap (snd (ship (snd (confirm Sample.state)))) = heap (snd (confirm Sample.state))
  /\ itemsOf (snd (ship (snd (confirm Sample.state))))
     = itemsOf (snd (confirm Sample.state)).
Proof.
  apply order_items_frozen_after_pending.
  - apply (reaches_step _ DoShip (snd (confirm Sample.state)));
      [apply reaches_refl | reflexivity].
  - discriminate.
Defined.

(** X7. DELIVERED and CANCELLED are final: from either, no mutator call
    succeeds, so a run of successful calls leaves the Order as it is. *)
Theorem order_final_statuses (st st' : State) :
  reaches st st' ->
  status st = DELIVERED \/ status st = CANCELLED ->
  st' = st /\ forall m, exists e, fst (mutate m st) = Throw e.
Proof.
  intros Hr Hs.
  assert (Hstuck : forall s, status s = DELIVERED \/ status s = CANCELLED ->
                    forall m, exists e, fst (mutate m s) = Throw e).
  { intros s Hf m. destruct (mutate m s) as [[[]|e] s'] eqn:Hm; [|cbn; eauto].
    apply mutate_step in Hm as (_ & _ & _ & _ & [[Hp _]|[_ Hrk]]).
    - destruct Hf as [Hf|Hf]; rewrite Hf in Hp; discriminate Hp.
    - pose proof (rank_le_3 (status s')).
      destruct Hf as [Hf|Hf]; rewrite Hf in Hrk; cbn in Hrk; lia. }
  split; [|now apply Hstuck].
  induction Hr as [st|st m st' st'' Hr IH Hm]; [reflexivity|].
  rewrite (IH Hs) in Hm.
  destruct (Hstuck st Hs m) as [e He]. rewrite Hm in He. discriminate He.
Qed.

Lemma order_final_statuses_witness :
  deliveredState = deliveredState
  /\ forall m, exists e, fst (mutate m deliveredState) = Throw e.
Proof.
  apply (order_final_statuses deliveredState deliveredState (reaches_refl _)).
  left. reflexivity.
Defined.

Lemma runActions_rank (l : list Action) :
  forall st : State,
    fst (runActions l st) = Return tt ->
    (rank (status st) + length l <= rank (status (snd (runActions l st))))%nat.
Proof.
  induction l as [|a l IH]; intros st; cbn [runActions length].
  - cbn. lia.
  - unfold bindM. destruct (run a st) as [[[]|e] s'] eqn:Ha; [|discriminate].
    intros H. apply action_step in Ha as (_ & _ & _ & _ & _ & Hrk).
    specialize (IH s' H). lia.
Qed.

(** X8. However the calls are chosen, at most three status changes in a row
    succeed on an Order, and as many fewer as it is along its life cycle
    already. *)
Theorem order_at_most_three_transitions (l : list Action) (st : State) :
  fst (runActions l st) = Return tt ->
  (rank (status st) + length l <= 3)%nat.
Proof.
  intros H. apply runActions_rank in H.
  pose proof (rank_le_3 (status (snd (runActions l st)))). lia.
Qed.

Lemma order_at_most_three_transitions_witness :
  (rank (status Sample.state) + length [Confirm; Ship; Deliver] <= 3)%nat.
Proof.
  exact (order_at_most_three_transitions [Confirm; Ship; Deliver]
           Sample.state eq_refl).
Defined.
End OrderRuns.

(* ===================================================================== *)
(** ** Creating an Order, and adding to it *)
(* ===================================================================== *)

Section OrderItems.
Import Order Spec Behaviour.

(** X9. [Order.create] throws a ValidationError on an empty array, whatever
    else it is given, and leaves the heap as it is. On any other array,
    with the identifier the platform draws, it returns a PENDING Order
    with that identifier, e-mail and date and the records of the array in
    their order; it allocates the Order's array and touches neither a
    record nor an array that was there. *)
Theorem order_create_outcome
    (randomUUID : string) (now : Z) (email : Email.t) (passed : loc)
    (h : Heap.t) :
  (Heap.elements h passed = [] ->
   create randomUUID now email passed h
   = (Throw (Domain (DomainErrors.single "Order" "items"
                       "Order must have at least one item" VUndefined)), h))
  /\ (Heap.elements h passed <> [] -> isUuidV4 randomUUID = true ->
      exists (a : loc) (h1 : Heap.t),
        create randomUUID now email passed h
        = (Return (mk (OrderId.mk randomUUID) email a PENDING now), h1)
        /\ Heap.arrays h !! a = None
        /\ Heap.records h1 = Heap.records h
        /\ (forall b, b <> a -> Heap.arrays h1 !! b = Heap.arrays h !! b)
        /\ Heap.elements h1 a = Heap.elements h passed
        /\ itemsOf (mkState (mk (OrderId.mk randomUUID) email a PENDING now) h1)
           = omap (Heap.item h) (Heap.elements h passed)).
Proof.
  unfold create. split.
  - intros ->. reflexivity.
  - intros Hne Hu. destruct (Heap.elements h passed) as [|r l] eqn:El;
      [contradiction|].
    cbn [length Nat.eqb]. unfold OrderId.generate.
    rewrite orderId_create_run, Hu. cbn.
    do 2 eexists. split; [reflexivity|].
    set (a := fresh (dom (Heap.arrays h))).
    repeat split.
    + apply not_elem_of_dom. apply is_fresh.
    + intros b Hb. cbn. now rewrite lookup_insert_ne.
    + apply elements_setElements.
    + unfold itemsOf. cbn [heap this _items]. now rewrite elements_setElements.
Qed.

Lemma not_listed (h : Heap.t) (item : loc) (new : OrderItem.t) (l : list loc) :
  Heap.item h item = Some new ->
  firstIndexOf (OrderItem.productId new) (omap (Heap.item h) l) = None ->
  item ∉ l.
Proof.
  intros Hnew Hf Hin. apply firstIndexOf_None in Hf.
  rewrite Forall_forall in Hf. apply (Hf new); [|reflexivity].
  apply list_elem_of_omap. eauto.
Qed.

Lemma omap_setItem_other (h : Heap.t) (r : loc) (it : OrderItem.t)
    (l : list loc) :
  r ∉ l -> omap (Heap.item (Heap.setItem r it h)) l = omap (Heap.item h) l.
Proof.
  induction l as [|x l IH]; [reflexivity|]. intros Hn.
  apply not_elem_of_cons in Hn as [Hx Hl]. cbn.
  rewrite (item_setItem_ne r x it h) by congruence. now rewrite IH.
Qed.

Lemma firstIndexOf_app_new (pid : string) (items : list OrderItem.t)
    (new : OrderItem.t) :
  firstIndexOf pid items = None -> OrderItem.productId new = pid ->
  firstIndexOf pid (items ++ [new]) = Some (length items).
Proof.
  intros Hn Hp. induction items as [|x items IH]; cbn in *.
  - subst pid. now rewrite String.eqb_refl.
  - destruct (String.eqb (OrderItem.productId x) pid); [discriminate|].
    destruct (firstIndexOf pid items); [discriminate|].
    now rewrite IH.
Qed.

(** X10. [addItem] keeps the object it is given: an item for a new product,
    added twice, is its own existing line the second time. The Order has
    one line for it with twice the quantity, and the caller's object has
    that quantity too. *)
Theorem addItem_same_object_twice
    (st : State) (item : loc) (new : OrderItem.t) :
  wellFormed st ->
  status st = PENDING ->
  Heap.item (heap st) item = Some new ->
  firstIndexOf (OrderItem.productId new) (itemsOf st) = None ->
  exists st2,
    bindM (addItem item) (fun _ => addItem item) st = (Return tt, st2)
    /\ itemsOf st2 = itemsOf st ++ [merged new new]
    /\ Heap.item (heap st2) item = Some (merged new new).
Proof.
  destruct st as [o h]. unfold wellFormed, itemsOf, status. cbn [heap this].
  intros Hwf Hs Hnew Hf.
  pose proof (not_listed h item new _ Hnew Hf) as Hnot.
  unfold bindM. rewrite (addItem_run o h item new Hwf Hnew), Hs, Hf. cbn [status_eqb].
  replace (status_eqb PENDING PENDING) with true by reflexivity.
  set (a := _items o) in *. set (l := Heap.elements h a) in *.
  set (h1 := Heap.setElements a (l ++ [item]) h).
  assert (El : Heap.elements h1 a = l ++ [item]) by apply elements_setElements.
  assert (Hwf1 : Forall (fun r => is_Some (Heap.item h1 r)) (Heap.elements h1 (_items o))).
  { fold a. rewrite El. apply Forall_app. split; [exact Hwf|].
    constructor; [|constructor]. unfold h1, Heap.item in *. cbn. eauto. }
  assert (Hnew1 : Heap.item h1 item = Some new) by exact Hnew.
  rewrite (addItem_run o h1 item new Hwf1 Hnew1), Hs.
  replace (status_eqb PENDING PENDING) with true by reflexivity.
  fold a. rewrite El.
  assert (Ho : omap (Heap.item h1) (l ++ [item]) = omap (Heap.item h) l ++ [new]).
  { rewrite omap_app. cbn. change (Heap.item h1) with (Heap.item h).
    now rewrite Hnew. }
  rewrite Ho, (firstIndexOf_app_new _ _ new Hf eq_refl).
  rewrite (omap_length_live _ _ Hwf).
  unfold Heap.at_index. rewrite El, lookup_app_r by lia.
  rewrite Nat.sub_diag. cbn [lookup list_lookup]. rewrite Hnew1.
  eexists. split; [reflexivity|]. cbn [heap this]. fold a.
  rewrite elements_setItem, El, omap_app, item_setItem. split; [|reflexivity].
  rewrite (omap_setItem_other h1 item _ l Hnot). cbn. now rewrite item_setItem.
Qed.

Lemma addItem_same_object_twice_witness :
  exists st2,
    bindM (addItem 3%positive) (fun _ => addItem 3%positive) Sample.state
    = (Return tt, st2)
    /\ itemsOf st2
       = itemsOf Sample.state ++ [merged Sample.item3 Sample.item3]
    /\ Heap.item (heap st2) 3%positive = Some (merged Sample.item3 Sample.item3).
Proof.
  refine (addItem_same_object_twice Sample.state 3%positive Sample.item3 _ _ _ _).
  - unfold wellFormed. cbn. repeat constructor; eexists; reflexivity.
  - reflexivity.
  - reflexivity.
  - reflexivity.
Defined.

Lemma productIds_step (m : Mutator) (st st' : State) :
  wellFormed st -> invariant st ->
  mutate m st = (Return tt, st') ->
  productIds st `prefix_of` productIds st'.
Proof.
  destruct st as [o h]. unfold wellFormed, invariant, productIds, itemsOf.
  cbn [heap this]. intros Hwf [Hne Hnd].
  destruct m as [| | | |item]; cbn [mutate];
    try (destruct o as [i em l s cr]; destruct s; cbn;
         intros [= <-]; cbn; reflexivity).
  destruct (Heap.item h item) as [new|] eqn:Hnew.
  - rewrite (addItem_run o h item new Hwf Hnew).
    destruct (status_eqb (_status o) PENDING); [|discriminate].
    destruct (firstIndexOf _ _) as [i|] eqn:Hf.
    + unfold Heap.at_index.
      destruct (Heap.elements h (_items o) !! i) as [r|];
        [|intros [= <-]; reflexivity].
      destruct (Heap.item h r) as [e|] eqn:He; intros [= <-];
        [|reflexivity].
      cbn [heap this]. rewrite elements_setItem.
      now rewrite (productIds_setItem h r e (merged e new) _ He eq_refl).
    + intros [= <-]. cbn [heap this]. rewrite elements_setElements, omap_app.
      change (Heap.item (Heap.setElements ?a ?l h)) with (Heap.item h).
      rewrite map_app. now apply prefix_app_r.
  - destruct (Heap.elements h (_items o)) as [|r l] eqn:El;
      [now cbn in Hne|].
    cbv [addItem bindM get_status throw findIndex heap this].
    destruct (negb _); [discriminate|].
    rewrite El, (findIndex_from_dead h item r l 0 Hnew). discriminate.
Qed.

(** X11. Lines are never removed, reordered or given another product: along
    any run of successful mutator calls from an Order that satisfies the
    invariant, the products of the lines at the start stay the first
    products, in the same order. *)
Theorem order_products_only_grow (st st' : State) :
  reaches st st' ->
  wellFormed st -> invariant st ->
  productIds st `prefix_of` productIds st'.
Proof.
  induction 1 as [st|st m st' st'' Hr IH Hm]; intros Hwf Hinv; [reflexivity|].
  destruct (reaches_preserves_invariant _ _ Hr Hwf Hinv) as [Hwf' Hinv'].
  etransitivity; [exact (IH Hwf Hinv)|].
  exact (productIds_step m st' st'' Hwf' Hinv' Hm).
Qed.

Lemma sample_products_differ : NoDup ["prod-1"; "prod-2"].
Proof.
  apply NoDup_cons. split; [|apply NoDup_singleton].
  intros H. apply list_elem_of_singleton in H. discriminate H.
Qed.

Lemma sample_invariant : wellFormed Sample.state /\ invariant Sample.state.
Proof.
  split.
  - unfold wellFormed. cbn. repeat constructor; eexists; reflexivity.
  - split; [discriminate|]. cbn. apply sample_products_differ.
Qed.

Lemma order_products_only_grow_witness :
  productIds Sample.state
  `prefix_of` productIds (snd (addItem 3%positive Sample.state)).
Proof.
  apply order_products_only_grow.
  - apply (reaches_step _ (DoAddItem 3%positive) Sample.state);
      [apply reaches_refl | reflexivity].
  - apply sample_invariant.
  - apply sample_invariant.
Defined.

(** [invariant_from_distinct_products] at the array of the tests, after
    [addItem] of a third product. *)
Lemma invariant_from_distinct_products_witness :
  invariant (snd (addItem 3%positive Sample.state)).
Proof.
  refine (invariant_from_distinct_products Sample.uuid 0%Z Sample.customerEmail
            Sample.sampleItems Sample.callerHeap (heap Sample.state)
            Sample.order _ _ _ eq_refl _).
  - cbn. repeat constructor; eexists; reflexivity.
  - apply sample_products_differ.
  - apply (reaches_step _ (DoAddItem 3%positive) Sample.state);
      [apply reaches_refl | reflexivity].
Defined.
End OrderItems.

(* ===================================================================== *)
(** ** Totals and currencies *)
(* ===================================================================== *)

Section Currencies.
Import Order Spec Behaviour.

(** X13. [add] and [multiply] return a Price in the currency of the Price
    they are called on; [add] refuses a Price in another currency with
    the rule CurrencyMatch before it looks at the amounts. *)
Theorem price_arithmetic_keeps_currency (p q : Price.t) (n : float) :
  (forall r, Price.add p q = Return r ->
             Price.currency r = Price.currency p
             /\ Price.currency q = Price.currency p)
  /\ (forall r, Price.multiply p n = Return r ->
                Price.currency r = Price.currency p)
  /\ (Price.currency p <> Price.currency q ->
      exists context,
        Price.add p q
        = Throw (Domain (BusinessRuleViolationError "CurrencyMatch"
                           "Cannot add prices with different currencies" context))).
Proof.
  repeat split.
  - now apply add_currency in H.
  - unfold Price.add in H.
    destruct (Currency.eqb (Price.currency p) (Price.currency q)) eqn:E;
      [|discriminate H].
    symmetry. now apply currency_eqb_eq.
  - intros r H. unfold Price.multiply in H.
    destruct (negb _ || _); [discriminate|]. now apply create_currency in H.
  - intros Hne. eexists. apply add_other_currency.
    destruct (Currency.eqb _ _) eqn:E; [|reflexivity].
    apply currency_eqb_eq in E. contradiction.
Qed.

Lemma fold_total_currency (rest : list OrderItem.t) :
  forall t0 total : Price.t,
    fold_left accumulate rest (Return t0) = Return total ->
    Price.currency total = Price.currency t0
    /\ Forall (fun it => currencyOf it = Price.currency t0) rest.
Proof.
  induction rest as [|it rest IH]; intros t0 total; cbn [fold_left].
  - intros [= <-]. auto.
  - rewrite accumulate_step.
    destruct (lineTotal it) as [itemTotal|e] eqn:El; cbn [bindR];
      [|rewrite fold_accumulate_throw; discriminate].
    destruct (Price.add t0 itemTotal) as [t1|e] eqn:Ea; cbn [bindR];
      [|rewrite fold_accumulate_throw; discriminate].
    intros H. apply IH in H as [Hc Hall].
    pose proof (add_currency _ _ _ Ea) as H1.
    unfold Price.add in Ea.
    destruct (Currency.eqb (Price.currency t0) (Price.currency itemTotal)) eqn:E;
      [|discriminate Ea].
    apply currency_eqb_eq in E. apply lineTotal_currency in El.
    split; [congruence|]. constructor; [congruence|].
    eapply Forall_impl; [exact Hall|]. cbn. intros x. congruence.
Qed.

(** X14. A total exists only for items in one currency: when
    [calculateTotal()] returns on an Order with items, every item is
    priced in the currency of the total. *)
Theorem total_has_the_currency_of_every_item (st : State) (total : Price.t) :
  wellFormed st ->
  calculateTotal st = Return total ->
  Forall (fun it => currencyOf it = Price.currency total) (itemsOf st).
Proof.
  intros Hwf. rewrite (calculateTotal_is_fold st Hwf).
  destruct (itemsOf st) as [|first rest]; [constructor|].
  cbn [foldTotal].
  destruct (lineTotal first) as [t0|e] eqn:El;
    [|rewrite fold_accumulate_throw; discriminate].
  intros H. apply fold_total_currency in H as [Hc Hall].
  apply lineTotal_currency in El.
  constructor; [congruence|].
  eapply Forall_impl; [exact Hall|]. cbn. intros x. congruence.
Qed.

Lemma total_has_the_currency_of_every_item_witness :
  Forall (fun it => currencyOf it = Currency.EUR) (itemsOf Sample.state).
Proof.
  refine (total_has_the_currency_of_every_item Sample.state
            (Price.mk 40 Currency.EUR) _ eq_refl).
  unfold wellFormed. cbn. repeat constructor; eexists; reflexivity.
Defined.

Lemma foldTotal_snoc (items : list OrderItem.t) (new : OrderItem.t) :
  items <> [] ->
  foldTotal (items ++ [new]) = accumulate (foldTotal items) new.
Proof.
  destruct items as [|first rest]; [contradiction|]. intros _.
  cbn [foldTotal app]. now rewrite fold_left_app.
Qed.

(** X15. Adding an item for a new product adds its line total to the total:
    after [addItem], [calculateTotal()] is the total before, to which the
    new line total is added; it fails if the total before failed. *)
Theorem addItem_adds_the_line_total
    (st : State) (item : loc) (new : OrderItem.t) :
  wellFormed st ->
  status st = PENDING ->
  itemsOf st <> [] ->
  Heap.item (heap st) item = Some new ->
  firstIndexOf (OrderItem.productId new) (itemsOf st) = None ->
  fst (addItem item st) = Return tt
  /\ calculateTotal (snd (addItem item st))
     = (let! total := calculateTotal st in
        let! itemTotal :=
          Price.multiply (OrderItem.unitPrice new) (OrderItem.quantity new) in
        Price.add total itemTotal).
Proof.
  destruct st as [o h]. unfold wellFormed, itemsOf, status. cbn [heap this].
  intros Hwf Hs Hne Hnew Hf.
  rewrite (addItem_run o h item new Hwf Hnew), Hs, Hf.
  replace (status_eqb PENDING PENDING) with true by reflexivity.
  split; [reflexivity|]. cbn [snd].
  set (h1 := Heap.setElements (_items o) (Heap.elements h (_items o) ++ [item]) h).
  assert (El : Heap.elements h1 (_items o) = Heap.elements h (_items o) ++ [item])
    by apply elements_setElements.
  assert (Hwf1 : wellFormed (mkState o h1)).
  { unfold wellFormed. cbn [heap this]. rewrite El. apply Forall_app.
    split; [exact Hwf|]. constructor; [|constructor].
    unfold h1, Heap.item in *. cbn. eauto. }
  rewrite (calculateTotal_is_fold _ Hwf1),
    (calculateTotal_is_fold (mkState o h) Hwf).
  unfold itemsOf. cbn [heap this]. rewrite El, omap_app.
  change (Heap.item h1) with (Heap.item h). cbn [omap list_omap].
  rewrite Hnew. cbn [app].
  now rewrite (foldTotal_snoc _ new Hne).
Qed.

Lemma addItem_adds_the_line_total_witness :
  fst (addItem 3%positive Sample.state) = Return tt
  /\ calculateTotal (snd (addItem 3%positive Sample.state))
     = (let! total := calculateTotal Sample.state in
        let! itemTotal := Price.multiply (Price.mk 15 Currency.EUR) 1 in
        Price.add total itemTotal).
Proof.
  refine (addItem_adds_the_line_total Sample.state 3%positive Sample.item3
            _ eq_refl _ eq_refl eq_refl).
  - unfold wellFormed. cbn. repeat constructor; eexists; reflexivity.
  - discriminate.
Defined.
End Currencies.

(* ===================================================================== *)
(** ** What the mutators throw *)
(* ===================================================================== *)

Section MutatorErrors.
Import Order Spec Behaviour.

(** X16. A mutator of an Order whose array and item are live records throws
    nothing but an InvalidStateError for entity Order that names the
    status the Order is in; a mutator of a Customer throws nothing but an
    InvalidStateError or a ValidationError for entity Customer. *)
Theorem mutators_throw_their_own_errors :
  (forall (m : Mutator) (st : State) (e : Thrown),
      wellFormed st ->
      (forall item, m = DoAddItem item -> is_Some (Heap.item (heap st) item)) ->
      fst (mutate m st) = Throw e ->
      exists action allowed,
        e = Domain (InvalidStateError "Order" (statusString (status st))
                      action allowed))
  /\ (forall (m : CustomerMutator) (c : Customer.t) (e : Thrown),
         fst (mutateCustomer m c) = Throw e ->
         (exists state action, e = Domain (InvalidStateError "Customer" state action None))
         \/ (exists failures, e = Domain (ValidationError "Customer" failures))).
Proof.
  split.
  - intros m [o h] e Hwf Hitem. unfold wellFormed, status in *. cbn [heap this] in *.
    destruct m as [| | | |item]; cbn [mutate];
      try (destruct o as [i em l s cr]; destruct s; cbn;
           intros [= <-]; eauto; fail).
    destruct (Hitem item eq_refl) as [new Hnew].
    rewrite (addItem_run o h item new Hwf Hnew).
    destruct (status_eqb (_status o) PENDING).
    + destruct (firstIndexOf _ _); [|discriminate].
      destruct (Heap.at_index _ _ _) as [[r x]|]; discriminate.
    + cbn. intros [= <-]. eauto.
  - intros [| |newName|newEmail] c e; cbn.
    + destruct c as [i n em [] cr]; cbn; intros [= <-]; eauto.
    + destruct c as [i n em [] cr]; cbn; intros [= <-]; eauto.
    + unfold Customer.updateName. destruct (Customer.isBlank newName); cbn;
        intros [= <-]. right. eauto.
    + discriminate.
Qed.

Lemma mutators_throw_their_own_errors_witness :
  exists action allowed,
    Domain (InvalidStateError "Order" "PENDING" "ship" (Some ["CONFIRMED"]))
    = Domain (InvalidStateError "Order" (statusString (status Sample.state))
                action allowed).
Proof.
  refine (proj1 mutators_throw_their_own_errors DoShip Sample.state _ _ _ eq_refl).
  - unfold wellFormed. cbn. repeat constructor; eexists; reflexivity.
  - intros item H. discriminate H.
Defined.
End MutatorErrors.

(* ===================================================================== *)
(** ** Customer *)
(* ===================================================================== *)

Section CustomerFacts.
Import Spec Behaviour.

Lemma trim_proper (s : string) :
  Customer.isBlank s = false -> properName (JsString.trim s).
Proof.
  unfold properName, Customer.isBlank. intros H.
  apply orb_false_iff in H as [_ Hl]. rewrite trim_idem. split; [reflexivity|].
  rewrite Hl, orb_false_r.
  destruct (JsString.trim s); [discriminate Hl | reflexivity].
Qed.

(** X18. [Customer.create] throws a ValidationError exactly on a name that is
    empty or blank; otherwise, with an identifier from the platform, it
    returns an active Customer with that identifier, the trimmed name,
    the e-mail and the date, and [updateName] stores a name the same
    way. *)
Theorem customer_create_outcome
    (randomUUID : string) (now : Z) (name : string) (email : Email.t) :
  (Customer.isBlank name = true ->
   Customer.create randomUUID now name email
   = Throw (Domain (DomainErrors.single "Customer" "name"
                      "Customer name cannot be empty" VUndefined)))
  /\ (Customer.isBlank name = false -> Customer.isBlank randomUUID = false ->
      Customer.create randomUUID now name email
      = Return (Customer.mk (CustomerId.mk randomUUID) (JsString.trim name)
                  email true now)
      /\ properName (JsString.trim name))
  /\ (forall c, isValidationError (fst (Customer.updateName name c))
                = Customer.isBlank name)
  /\ (forall c, fst (Customer.updateName name c) = Return tt ->
                Customer.name (snd (Customer.updateName name c)) = JsString.trim name
                /\ properName (JsString.trim name)).
Proof.
  split; [|split; [|split]].
  - unfold Customer.create. now intros ->.
  - intros Hn Hu. split; [|now apply trim_proper].
    unfold Customer.create, CustomerId.generate, CustomerId.create.
    rewrite Hn. unfold Customer.isBlank in Hu. now rewrite Hu.
  - intros c. unfold Customer.updateName.
    now destruct (Customer.isBlank name).
  - intros c. unfold Customer.updateName.
    destruct (Customer.isBlank name) eqn:E; [discriminate|].
    intros _. split; [reflexivity | now apply trim_proper].
Qed.

Lemma mutateCustomer_step (m : CustomerMutator) (c c' : Customer.t) :
  mutateCustomer m c = (Return tt, c') ->
  Customer.id c' = Customer.id c
  /\ Customer.createdAt c' = Customer.createdAt c
  /\ match m with
     | DoActivate =>
         Customer.isActive c = false /\ Customer.isActive c' = true
         /\ Customer.name c' = Customer.name c
         /\ Customer.email c' = Customer.email c
     | DoDeactivate =>
         Customer.isActive c = true /\ Customer.isActive c' = false
         /\ Customer.name c' = Customer.name c
         /\ Customer.email c' = Customer.email c
     | DoUpdateName newName =>
         Customer.isBlank newName = false
         /\ Customer.name c' = JsString.trim newName
         /\ Customer.email c' = Customer.email c
         /\ Customer.isActive c' = Customer.isActive c
     | DoUpdateEmail newEmail =>
         Customer.email c' = newEmail
         /\ Customer.name c' = Customer.name c
         /\ Customer.isActive c' = Customer.isActive c
     end.
Proof.
  destruct c as [i n em act cr].
  destruct m as [| |newName|newEmail]; cbn.
  - destruct act; cbn; intros [= <-]; cbn; auto 10.
  - destruct act; cbn; intros [= <-]; cbn; auto 10.
  - unfold Customer.updateName.
    destruct (Customer.isBlank newName); cbn; intros [= <-]; cbn; auto 10.
  - intros [= <-]. cbn. auto 10.
Qed.

(** X19. Each mutator of a Customer writes one attribute: [activate] and
    [deactivate] the activation, which they flip, [updateName] the name,
    [updateEmail] the e-mail; none touches the identifier or the date of
    creation, so the Customer stays [equals] to what it was. *)
Theorem customer_mutators_write_one_attribute
    (m : CustomerMutator) (c c' : Customer.t) :
  mutateCustomer m c = (Return tt, c') ->
  Customer.id c' = Customer.id c
  /\ Customer.createdAt c' = Customer.createdAt c
  /\ Customer.equals c c' = true
  /\ match m with
     | DoActivate =>
         Customer.isActive c = false /\ Customer.isActive c' = true
         /\ Customer.name c' = Customer.name c
         /\ Customer.email c' = Customer.email c
     | DoDeactivate =>
         Customer.isActive c = true /\ Customer.isActive c' = false
         /\ Customer.name c' = Customer.name c
         /\ Customer.email c' = Customer.email c
     | DoUpdateName newName =>
         Customer.name c' = JsString.trim newName
         /\ Customer.email c' = Customer.email c
         /\ Customer.isActive c' = Customer.isActive c
     | DoUpdateEmail newEmail =>
         Customer.email c' = newEmail
         /\ Customer.name c' = Customer.name c
         /\ Customer.isActive c' = Customer.isActive c
     end.
Proof.
  intros H. apply mutateCustomer_step in H as (Hi & Hc & Hm).
  repeat split; auto.
  - unfold Customer.equals, CustomerId.equals. rewrite Hi. apply String.eqb_refl.
  - destruct m; intuition.
Qed.

Lemma customer_mutators_write_one_attribute_witness :
  let c' := snd (Customer.deactivate Sample.customer) in
  Customer.id c' = Customer.id Sample.customer
  /\ Customer.createdAt c' = Customer.createdAt Sample.customer
  /\ Customer.equals Sample.customer c' = true
  /\ (Customer.isActive Sample.customer = true /\ Customer.isActive c' = false
      /\ Customer.name c' = Customer.name Sample.customer
      /\ Customer.email c' = Customer.email Sample.customer).
Proof.
  exact (customer_mutators_write_one_attribute DoDeactivate Sample.customer
           _ eq_refl).
Defined.

(** X20. Activation is a switch: in every state exactly one of [activate] and
    [deactivate] succeeds, and calling the other one next brings the
    Customer back to what it was. *)
Theorem customer_activation_is_a_switch (c : Customer.t) :
  (fst (Customer.activate c) = Return tt <-> Customer.isActive c = false)
  /\ (fst (Customer.deactivate c) = Return tt <-> Customer.isActive c = true)
  /\ (fst (Customer.deactivate c) = Return tt ->
      bindM Customer.deactivate (fun _ => Customer.activate) c = (Return tt, c))
  /\ (fst (Customer.activate c) = Return tt ->
      bindM Customer.activate (fun _ => Customer.deactivate) c = (Return tt, c)).
Proof.
  destruct c as [i n em [] cr]; cbn; repeat split; auto; discriminate.
Qed.

(** X21. The name of a Customer made by [Customer.create] is trimmed and is
    neither empty nor blank, and stays so through any run of successful
    mutator calls. *)
Theorem customer_name_stays_proper
    (randomUUID : string) (now : Z) (name : string) (email : Email.t)
    (c c' : Customer.t) :
  Customer.create randomUUID now name email = Return c ->
  customerReaches c c' ->
  properName (Customer.name c').
Proof.
  intros Hc Hr. induction Hr as [c|c m c' c'' Hr IH Hm].
  - unfold Customer.create in Hc.
    destruct (Customer.isBlank name) eqn:Hb; [discriminate|].
    destruct (CustomerId.generate randomUUID); [|discriminate].
    cbn in Hc. injection Hc as <-. cbn. now apply trim_proper.
  - specialize (IH Hc). apply mutateCustomer_step in Hm as (_ & _ & Hm).
    destruct m; try (destruct Hm as (_ & _ & -> & _); exact IH).
    + destruct Hm as (Hb & -> & _). now apply trim_proper.
    + destruct Hm as (_ & -> & _). exact IH.
Qed.

Lemma customer_name_stays_proper_witness :
  properName
    (Customer.name (snd (Customer.updateName "  John Smith  " Sample.customer))).
Proof.
  refine (customer_name_stays_proper Sample.uuid 0%Z "  John Doe  "
            Sample.customerEmail Sample.customer _ eq_refl _).
  apply (customerReaches_step _ (DoUpdateName "  John Smith  ") Sample.customer);
    [apply customerReaches_refl | reflexivity].
Defined.
End CustomerFacts.

(* ===================================================================== *)
(** ** Currency codes *)
(* ===================================================================== *)

Section CurrencyFacts.

(** X22. [assertCurrency] returns exactly on the four codes, spelled in upper
    case, and each code names one currency. *)
Theorem assertCurrency_accepts_the_codes (value : string) :
  (Currency.assertCurrency value = Return tt
   <-> exists c, Currency.toString c = value)
  /\ (Currency.isCurrency value = true
      <-> value = "USD" \/ value = "EUR" \/ value = "GBP" \/ value = "JPY")
  /\ (forall c c', Currency.toString c = Currency.toString c' -> c = c').
Proof.
  assert (Hi : Currency.isCurrency value = true
               <-> value = "USD" \/ value = "EUR" \/ value = "GBP" \/ value = "JPY").
  { unfold Currency.isCurrency. rewrite existsb_exists. split.
    - intros [c [_ E]]. apply String.eqb_eq in E. destruct c; cbn in E; auto.
    - intros [E|[E|[E|E]]]; subst;
        [exists Currency.USD | exists Currency.EUR
         | exists Currency.GBP | exists Currency.JPY];
        (split; [cbn; auto | reflexivity]). }
  split; [|split; [exact Hi|]].
  - unfold Currency.assertCurrency. split.
    + destruct (Currency.isCurrency value); cbn; [|discriminate].
      intros _. destruct (proj1 Hi eq_refl) as [E|[E|[E|E]]]; subst;
        [exists Currency.USD | exists Currency.EUR
         | exists Currency.GBP | exists Currency.JPY]; reflexivity.
    + intros [c <-]. now destruct c.
  - intros c c'. destruct c, c'; intros H; first [reflexivity | discriminate H].
Qed.
End CurrencyFacts.

(* ===================================================================== *)
(** ** An Order rebuilt from storage *)
(* ===================================================================== *)

Section Reconstitute.
Import Order Spec.

(** X23. Unlike [create], [reconstitute] takes no copy: the Order holds the
    array it was given, so a new line that [addItem] pushes lands in the
    caller's array, while the array passed to [create] stays as it was. *)
Theorem reconstitute_shares_the_array
    (id : OrderId.t) (email : Email.t) (passed : loc) (createdAt : Z)
    (h : Heap.t) (item : loc) (new : OrderItem.t) :
  let rebuilt := mkState (reconstitute id email passed PENDING createdAt) h in
  wellFormed rebuilt ->
  Heap.item h item = Some new ->
  firstIndexOf (OrderItem.productId new) (itemsOf rebuilt) = None ->
  fst (addItem item rebuilt) = Return tt
  /\ Heap.elements (heap (snd (addItem item rebuilt))) passed
     = Heap.elements h passed ++ [item]
  /\ (forall randomUUID now o h1,
         create randomUUID now email passed h = (Return o, h1) ->
         fst (addItem item (mkState o h1)) = Return tt
         /\ Heap.elements (heap (snd (addItem item (mkState o h1)))) passed
            = Heap.elements h passed).
Proof.
  intros rebuilt Hwf Hnew Hfirst. unfold rebuilt, reconstitute in *.
  unfold itemsOf in Hfirst. cbn [heap this _items] in Hfirst.
  rewrite (addItem_run (mk id email passed PENDING createdAt) h item new Hwf Hnew).
  cbn [_status _items]. rewrite Hfirst.
  change (status_eqb PENDING PENDING) with true. cbn [fst snd heap]. split; [reflexivity|]. split.
  - apply elements_setElements.
  - intros randomUUID now o h1 Hc.
    apply create_run in Hc as (Hne & Hfresh & Hs & ->).
    destruct o as [i e a s c]. cbn [_items _status] in *. subst s.
    assert (Ha : a <> passed).
    { intros E. unfold Heap.elements in Hne. rewrite <- E, Hfresh in Hne.
      apply Hne.
      rewrite (proj1 (not_elem_of_dom (Heap.arrays h) _) (is_fresh _)).
      reflexivity. }
    assert (Hwf1 : Forall (fun r => is_Some (Heap.item
                       (Heap.setElements a (Heap.elements h passed) h) r))
                     (Heap.elements
                        (Heap.setElements a (Heap.elements h passed) h)
                        (_items (mk i e a PENDING c)))).
    { cbn [_items]. rewrite elements_setElements. exact Hwf. }
    rewrite (addItem_run (mk i e a PENDING c) _ item new Hwf1 Hnew).
    cbn [_status status_eqb _items].
    rewrite elements_setElements.
    change (omap (Heap.item (Heap.setElements a (Heap.elements h passed) h))
              (Heap.elements h passed))
      with (omap (Heap.item h) (Heap.elements h passed)).
    rewrite Hfirst. change (status_eqb PENDING PENDING) with true.
    cbn [fst snd heap]. split; [reflexivity|].
    now rewrite !elements_setElements_ne by exact Ha.
Qed.

Lemma reconstitute_shares_the_array_witness :
  Heap.elements
    (heap (snd (addItem 3%positive
                  (mkState (reconstitute (OrderId.mk Sample.uuid)
                              Sample.customerEmail Sample.sampleItems PENDING 0)
                     Sample.callerHeap))))
    Sample.sampleItems
  = Heap.elements Sample.callerHeap Sample.sampleItems ++ [3%positive].
Proof.
  refine (proj1 (proj2 (reconstitute_shares_the_array (OrderId.mk Sample.uuid)
            Sample.customerEmail Sample.sampleItems 0%Z Sample.callerHeap
            3%positive Sample.item3 _ eq_refl eq_refl))).
  unfold wellFormed. cbn. repeat constructor; eexists; reflexivity.
Defined.
End Reconstitute.
